(** * websig-project: the GIS batch pipeline of [scripts/process_data.py]

    A shallow embedding of the processing script and of the configuration
    module [scripts/config.py], with the properties of its components:
    vertex counting, geometry repair, attribute cleaning, coordinate
    rounding, the retention window of the backups and the per-layer
    orchestration.

    Conventions.
    - Python integers are [Z]; [len] is [Z.of_nat (length _)].
    - A binary64 coordinate is an element of an abstract type [float];
      the builtin [round(x, PRECISION)] on floats is a parameter.
    - Code that can raise runs in an error monad; code that also touches
      the file system or the logger threads a [world] and keeps the
      effects made before the exception.
    - geopandas, shapely and the GeoJSON driver are collaborators outside
      the repository: they are parameters of the sections that use them. *)

From Stdlib Require Import ZArith QArith Lia Ascii String.
From stdpp Require Import base tactics option list sorting strings gmap fin_maps.

#[local] Set Warnings "-register-all".
Local Open Scope Z_scope.

(** ** Exceptions and results *)

(** The Python exceptions the script can meet on the paths modelled here.
    All of them derive from [Exception]. *)
Inductive exn : Type :=
| TypeError
| IndexError
| KeyError (key : string)
| ZeroDivisionError
| PermissionError (name : string)
| ExternalError (what : string).

#[global] Instance exn_eq_dec : EqDecision exn.
Proof. solve_decision. Defined.

Inductive result (A : Type) : Type :=
| Ok (a : A)
| Raise (e : exn).
Arguments Ok {A} a.
Arguments Raise {A} e.

#[global] Instance result_ret : MRet result := λ A a, Ok a.
#[global] Instance result_bind : MBind result := λ A B k r,
  match r with
  | Ok a => k a
  | Raise e => Raise e
  end.

Definition is_ok {A} (r : result A) : bool :=
  match r with Ok _ => true | Raise _ => false end.

(** [[f(x) for x in l]]: elements are evaluated left to right and the
    first exception ends the comprehension. *)
Fixpoint rmap {A B} (f : A → result B) (l : list A) : result (list B) :=
  match l with
  | [] => Ok []
  | x :: l' =>
      y ← f x; ys ← rmap f l'; Ok (y :: ys)
  end.


(** ** Dates, times and file names *)

(** A naive [datetime]: what [datetime.now()] returns and what a
    [datetime64] column holds. *)
Record datetime : Type := {
  year : nat; month : nat; day : nat;
  hour : nat; minute : nat; second : nat
}.

(** The fields are within the ranges of the calendar and the clock (the
    length of each month is not needed here), the year having four digits,
    so that [%Y] prints it whole on every platform. *)
Definition valid_datetime (t : datetime) : Prop :=
  1000 ≤ Z.of_nat (year t) ≤ 9999 ∧
  (1 ≤ month t ≤ 12 ∧ 1 ≤ day t ≤ 31 ∧
   hour t ≤ 23 ∧ minute t ≤ 59 ∧ second t ≤ 59)%nat.

(** Chronological order: the number of the second within a calendar where
    every unit is given a hundred slots; it compares as the six fields do,
    most significant first. *)
Definition chrono (t : datetime) : Z :=
  ((((Z.of_nat (year t) * 100 + Z.of_nat (month t)) * 100 + Z.of_nat (day t)) * 100
      + Z.of_nat (hour t)) * 100 + Z.of_nat (minute t)) * 100 + Z.of_nat (second t).

Definition digit (n : nat) : ascii := Ascii.ascii_of_nat (48 + n mod 10).

(** Zero-padded decimal fields of width two ([%m %d %H %M %S]) and four
    ([%Y]). *)
Definition pad2 (n : nat) : string :=
  String (digit (n / 10)) (String (digit n) EmptyString).
Definition pad4 (n : nat) : string := pad2 (n / 100) +:+ pad2 (n mod 100).

(** Equality of two outcomes of a comparison. *)
Definition comparison_eqb (c1 c2 : comparison) : bool :=
  match c1, c2 with
  | Eq, Eq | Lt, Lt | Gt, Gt => true
  | _, _ => false
  end.

(** [t.strftime('%Y%m%d_%H%M%S')] *)
Definition strftime_stamp (t : datetime) : string :=
  pad4 (year t) +:+ pad2 (month t) +:+ pad2 (day t) +:+ "_" +:+
  pad2 (hour t) +:+ pad2 (minute t) +:+ pad2 (second t).

(** [t.strftime('%Y-%m-%d')] *)
Definition strftime_date (t : datetime) : string :=
  pad4 (year t) +:+ "-" +:+ pad2 (month t) +:+ "-" +:+ pad2 (day t).

(** [s.startswith(prefix)] *)
Definition startswith (s prefix : string) : bool := String.prefix prefix s.

(** The parts of a path that [pathlib] keeps when it reads a string: what
    stands between the slashes, empty parts and single dots left out. The
    last of them is [Path.name]. *)
Fixpoint split_slash (path : string) : list string :=
  match path with
  | EmptyString => [EmptyString]
  | String c rest =>
      if Ascii.eqb c "/"%char then EmptyString :: split_slash rest
      else match split_slash rest with
           | first :: others => String c first :: others
           | [] => [String c EmptyString]
           end
  end.

Definition path_name (path : string) : string :=
  default EmptyString
    (last (filter (fun part => part ≠ EmptyString ∧ part ≠ ".") (split_slash path))).

(** The name is cut at its last dot, unless that dot opens or closes the
    name: [Path.stem] and [Path.suffix]. An output name is a path below the
    output directory with a name of its own. *)
Fixpoint split_last_dot (name : string) : option (string * string) :=
  match name with
  | EmptyString => None
  | String c rest =>
      match split_last_dot rest with
      | Some (before, ext) => Some (String c before, ext)
      | None => if Ascii.eqb c "."%char then Some (EmptyString, name) else None
      end
  end.

Definition path_parts (path : string) : string * string :=
  let name := path_name path in
  match split_last_dot name with
  | Some (before, ext) =>
      if bool_decide (before = "") || bool_decide (ext = ".")
      then (name, "") else (before, ext)
  | None => (name, "")
  end.

Definition path_stem (name : string) : string := (path_parts name).1.
Definition path_suffix (name : string) : string := (path_parts name).2.

(** The characters that [glob] reads as wildcards. *)
Definition wildcard (c : ascii) : bool :=
  Ascii.eqb c "*"%char || Ascii.eqb c "?"%char || Ascii.eqb c "["%char.

Fixpoint wildcard_free (s : string) : bool :=
  match s with
  | EmptyString => true
  | String c rest => negb (wildcard c) && wildcard_free rest
  end.

(** [s.endswith(suffix)] *)
Fixpoint endswith (s suffix : string) : bool :=
  bool_decide (s = suffix) ||
  match s with
  | EmptyString => false
  | String _ rest => endswith rest suffix
  end.

(** What follows [prefix] in [s], when [s] starts with it. *)
Fixpoint strip_prefix (prefix s : string) : option string :=
  match prefix, s with
  | EmptyString, _ => Some s
  | String a prefix', String b s' =>
      if Ascii.eqb a b then strip_prefix prefix' s' else None
  | String _ _, EmptyString => None
  end.

(** Whether a file name matches the pattern [f"{stem}_*{suffix}"], for a
    stem and a suffix free of wildcards: the name starts with the stem and
    an underscore, and what follows ends with the suffix. *)
Definition glob_match (stem suffix name : string) : bool :=
  match strip_prefix (stem +:+ "_") name with
  | Some rest => endswith rest suffix
  | None => false
  end.

(** ** Geometries (shapely) *)

Section Geometry.
Context {float : Type}.

(** A coordinate is a pair or a triple of floats, held as their list. *)
#[local] Abbreviation coord := (list float).

(** The geometry objects of shapely, one constructor per [geom_type].
    A ring or a path is its sequence of coordinates ([.coords]); a polygon
    has an exterior ring and interior rings (holes); the members of a
    multi-geometry are its [.geoms]. *)
Inductive geometry : Type :=
| Point (position : option coord)
| MultiPoint (geoms : list (option coord))
| LineString (coords : list coord)
| LinearRing (coords : list coord)
| MultiLineString (geoms : list (list coord))
| Polygon (exterior : list coord) (interiors : list (list coord))
| MultiPolygon (geoms : list (list coord * list (list coord)))
| GeometryCollection (geoms : list geometry).

Definition geom_type (g : geometry) : string :=
  match g with
  | Point _ => "Point"
  | MultiPoint _ => "MultiPoint"
  | LineString _ => "LineString"
  | LinearRing _ => "LinearRing"
  | MultiLineString _ => "MultiLineString"
  | Polygon _ _ => "Polygon"
  | MultiPolygon _ => "MultiPolygon"
  | GeometryCollection _ => "GeometryCollection"
  end.

(** [len(x)] and [sum(...)] over Python integers. *)
Definition len {A} (l : list A) : Z := Z.of_nat (length l).
Definition sum_Z (l : list Z) : Z := foldr Z.add 0 l.

(** [count_vertices(geom)], lines 116-152. [geom] is [None] for a missing
    geometry. The chain of comparisons on [geom.geom_type] is the match on
    the constructor; [LinearRing] and [GeometryCollection] reach the final
    [else]. *)
Definition count_vertices (geom : option geometry) : Z :=
  match geom with
  | None => 0
  | Some (Polygon exterior _) => len exterior
  | Some (MultiPolygon geoms) => sum_Z ((fun poly => len (fst poly)) <$> geoms)
  | Some (LineString coords) => len coords
  | Some (MultiLineString geoms) => sum_Z ((fun line => len line) <$> geoms)
  | Some (Point _) => 1
  | Some (MultiPoint geoms) => len geoms
  | Some (LinearRing _) | Some (GeometryCollection _) => 0
  end.

(** [gdf.geometry.apply(count_vertices).sum()]. Over a series with no
    element [apply] calls nothing and returns a series of the geometry type,
    whose [sum] raises [TypeError]; over any other the counts are summed. *)
Definition total_vertices (geoms : list (option geometry)) : result Z :=
  match geoms with
  | [] => Raise TypeError
  | _ => Ok (sum_Z (count_vertices <$> geoms))
  end.

End Geometry.
Arguments geometry : clear implicits.

(** ** Configuration ([scripts/config.py]) *)

Definition TARGET_CRS : string := "EPSG:4326".
Definition SIMPLIFY_TOLERANCE : Q := 1 # 100000.
Definition PRECISION : Z := 6.

(** ** JSON documents as Python values *)

Section Json.
Context {float : Type}.

(** What [json.load] returns: [None], booleans, integers, floats, strings,
    lists and dictionaries with string keys (in file order, keys unique). *)
Inductive pyval : Type :=
| PNone
| PBool (b : bool)
| PInt (z : Z)
| PFloat (f : float)
| PStr (s : string)
| PList (items : list pyval)
| PDict (entries : list (string * pyval)).

Section pyval_induction.
Variable P : pyval → Prop.
Hypothesis HNone : P PNone.
Hypothesis HBool : ∀ b, P (PBool b).
Hypothesis HInt : ∀ z, P (PInt z).
Hypothesis HFloat : ∀ f, P (PFloat f).
Hypothesis HStr : ∀ s, P (PStr s).
Hypothesis HList : ∀ items, Forall P items → P (PList items).
Hypothesis HDict : ∀ entries, Forall (fun kv => P kv.2) entries → P (PDict entries).

Fixpoint pyval_nested_ind (v : pyval) : P v :=
  match v with
  | PNone => HNone
  | PBool b => HBool b
  | PInt z => HInt z
  | PFloat f => HFloat f
  | PStr s => HStr s
  | PList items =>
      HList items
        ((fix go (l : list pyval) : Forall P l :=
            match l with
            | [] => Forall_nil_2 P
            | x :: l' => Forall_cons_2 P x l' (pyval_nested_ind x) (go l')
            end) items)
  | PDict entries =>
      HDict entries
        ((fix go (l : list (string * pyval)) : Forall (fun kv => P kv.2) l :=
            match l with
            | [] => Forall_nil_2 _
            | kv :: l' =>
                Forall_cons_2 (fun kv => P kv.2) kv l' (pyval_nested_ind kv.2) (go l')
            end) entries)
  end.
End pyval_induction.

Definition is_list (v : pyval) : bool :=
  match v with PList _ => true | _ => false end.

(** A JSON number. *)
Definition is_number (v : pyval) : bool :=
  match v with PInt _ | PFloat _ => true | _ => false end.

(** *** Subscripts, item assignment and iteration *)

Fixpoint assoc_get (key : string) (entries : list (string * pyval)) : option pyval :=
  match entries with
  | [] => None
  | (k, v) :: rest => if decide (k = key) then Some v else assoc_get key rest
  end.

(** [d[key] = x] keeps the position of an existing key and appends a new one. *)
Fixpoint assoc_set (key : string) (x : pyval) (entries : list (string * pyval))
  : list (string * pyval) :=
  match entries with
  | [] => [(key, x)]
  | (k, v) :: rest =>
      if decide (k = key) then (k, x) :: rest else (k, v) :: assoc_set key x rest
  end.

(** [v[key]] for a string key: only a dictionary can answer; a list or a
    string wants an integer index and the other values have no subscript. *)
Definition py_getitem (v : pyval) (key : string) : result pyval :=
  match v with
  | PDict entries =>
      match assoc_get key entries with
      | Some x => Ok x
      | None => Raise (KeyError key)
      end
  | _ => Raise TypeError
  end.

(** [v[key] = x] for a string key. *)
Definition py_setitem (v : pyval) (key : string) (x : pyval) : result pyval :=
  match v with
  | PDict entries => Ok (PDict (assoc_set key x entries))
  | _ => Raise TypeError
  end.

(** *** The rounding pass, lines 231-238 *)

(** [round(x, ndigits)] on a float, for [ndigits] given: Python's builtin. *)
Variable round_float : Z → float → float.

(** [round(c, PRECISION)]: an integer is returned as it is, a boolean as the
    integer it stands for, a float rounded; anything else has no
    [__round__]. *)
Definition py_round (c : pyval) : result pyval :=
  match c with
  | PFloat f => Ok (PFloat (round_float PRECISION f))
  | PInt z => Ok (PInt z)
  | PBool b => Ok (PInt (if b then 1 else 0))
  | _ => Raise TypeError
  end.

(** [round_coords(coords)]. [coords[0]] raises [IndexError] on an empty list
    or string, [KeyError] on a dictionary (its keys are strings) and
    [TypeError] on a value without subscript. The test looks at the first
    element only. A non-empty string has a one-character string as first
    element, which [round] refuses. *)
Fixpoint round_coords (coords : pyval) : result pyval :=
  match coords with
  | PList items =>
      match items with
      | [] => Raise IndexError
      | c0 :: _ =>
          if is_list c0
          then items' ← rmap round_coords items; Ok (PList items')
          else items' ← rmap py_round items; Ok (PList items')
      end
  | PStr s => if decide (s = "") then Raise IndexError else Raise TypeError
  | PDict _ => Raise (KeyError "0")
  | PNone | PBool _ | PInt _ | PFloat _ => Raise TypeError
  end.

(** The body of the loop over the features: [geom = feature['geometry']],
    then [geom['coordinates'] = round_coords(geom['coordinates'])]. The
    geometry object is mutated inside its feature, which is written back
    here. *)
Definition round_feature (feature : pyval) : result pyval :=
  geom ← py_getitem feature "geometry";
  coords ← py_getitem geom "coordinates";
  coords' ← round_coords coords;
  geom' ← py_setitem geom "coordinates" coords';
  py_setitem feature "geometry" geom'.

(** [for feature in geojson_data['features']: ...]. Iterating a string or a
    dictionary yields strings, whose subscript by ['geometry'] is a
    [TypeError]; an empty one yields nothing. *)
Definition round_features (geojson_data : pyval) : result pyval :=
  features ← py_getitem geojson_data "features";
  match features with
  | PList items =>
      items' ← rmap round_feature items;
      py_setitem geojson_data "features" (PList items')
  | PStr s => if decide (s = "") then Ok geojson_data else Raise TypeError
  | PDict entries =>
      match entries with [] => Ok geojson_data | _ => Raise TypeError end
  | PNone | PBool _ | PInt _ | PFloat _ => Raise TypeError
  end.

(** *** Shapes of coordinate arrays *)

(** The rounding of one leaf, as a total function: what [py_round] returns
    on the values it accepts. *)
Definition round_leaf (c : pyval) : pyval :=
  match c with
  | PFloat f => PFloat (round_float PRECISION f)
  | PBool b => PInt (if b then 1 else 0)
  | _ => c
  end.

(** The tree walk of the design: the same nesting, the same order, every
    leaf replaced by its image. *)
Fixpoint map_leaves (g : pyval → pyval) (v : pyval) : pyval :=
  match v with
  | PList items => PList (map (map_leaves g) items)
  | _ => g v
  end.

(** The nesting structure alone: leaves erased. *)
Inductive skeleton : Type :=
| SLeaf
| SNode (children : list skeleton).

Fixpoint skeleton_of (v : pyval) : skeleton :=
  match v with
  | PList items => SNode (map skeleton_of items)
  | _ => SLeaf
  end.

(** The leaves from left to right. *)
Fixpoint leaves (v : pyval) : list pyval :=
  match v with
  | PList items => concat (map leaves items)
  | _ => [v]
  end.

(** A coordinate array: a position (a non-empty list of numbers), or a
    non-empty list of coordinate arrays. *)
Inductive coord_array : pyval → Prop :=
| coord_position items :
    items ≠ [] → Forall (fun c => is_number c = true) items →
    coord_array (PList items)
| coord_nested items :
    items ≠ [] → Forall coord_array items → coord_array (PList items).

End Json.
Arguments pyval : clear implicits.


(** ** Log records *)

(** The lines the script writes to its logger that tell what a step did;
    banners and phase announcements are left out. The reduction line shows
    the two counts and the percentage that line 208 computes from them in
    binary floating point; the record holds the counts. *)
Inductive log_record : Type :=
| LogBackupCreated (name : string)
| LogBackupDeleted (name : string)
| LogSourceNotFound (source : string)
| LogInvalidGeometries (invalid_count : Z)
| LogGeometriesFixed
| LogReduction (original_vertices simplified_vertices : Z)
| LogSimplificationDone
| LogLayerDone (layer_name : string)
| LogLayerError (layer_name : string) (e : exn)
| LogDate (now : datetime)
| LogSummary (success_count total_count : Z)
| LogAllSucceeded
| LogFailures (failed : Z).

(** ** GeoDataFrames *)

Section Frames.
Context {float : Type}.

(** A cell of an attribute column. [None], [NaN] and [NaT] are the three
    missing values of pandas. *)
Inductive cell : Type :=
| CNone
| CNaN
| CNaT
| CBool (b : bool)
| CInt (z : Z)
| CFloat (f : float)
| CStr (s : string)
| CTimestamp (t : datetime).

Inductive dtype : Type :=
| DObject | DBool | DInt64 | DFloat64 | DDatetime64.

Record column : Type := {
  col_name : string;
  col_dtype : dtype;
  col_cells : list cell
}.

(** A GeoDataFrame as [read_file] builds it: the column ['geometry'], one
    geometry or [None] per feature, and the attribute columns, whose names
    differ from it. *)
Record GeoDataFrame : Type := {
  gdf_crs : option string;
  gdf_geometry : list (option (geometry float));
  gdf_attributes : list column
}.

(** [gdf.columns] *)
Definition gdf_columns (gdf : GeoDataFrame) : list string :=
  (col_name <$> gdf_attributes gdf) ++ ["geometry"].

(** [gdf['geometry'] = series] *)
Definition set_geometry (gdf : GeoDataFrame) (series : list (option (geometry float)))
  : GeoDataFrame :=
  {| gdf_crs := gdf_crs gdf;
     gdf_geometry := series;
     gdf_attributes := gdf_attributes gdf |}.

Definition set_attributes (gdf : GeoDataFrame) (attributes : list column)
  : GeoDataFrame :=
  {| gdf_crs := gdf_crs gdf;
     gdf_geometry := gdf_geometry gdf;
     gdf_attributes := attributes |}.

(** The [properties] of the feature of one row, as the export writes them:
    its cell in each attribute column, under the name of the column. *)
Definition properties (gdf : GeoDataFrame) (row : nat) : list (string * cell) :=
  (fun col => (col_name col, default CNone (col_cells col !! row)))
    <$> gdf_attributes gdf.

(** *** Geometry repair, lines 75-86 *)

Section Repair.
(** [GeoSeries.is_valid] and [GeoSeries.buffer(distance)], element by
    element; shapely answers [False] and [None] for a missing geometry. *)
Variable is_valid : option (geometry float) → bool.
Variable buffer : Q → option (geometry float) → option (geometry float).

(** [validate_and_fix_geometries(gdf)]: the frame returned and the lines
    logged. [(~gdf.is_valid).sum()] counts the invalid geometries; when there
    is one, the whole column is assigned its zero-distance buffer. *)
Definition validate_and_fix_geometries (gdf : GeoDataFrame)
  : GeoDataFrame * list log_record :=
  let invalid_count :=
    len (filter (fun g => negb (is_valid g) = true) (gdf_geometry gdf)) in
  if 0 <? invalid_count
  then (set_geometry gdf (buffer 0 <$> gdf_geometry gdf),
        [LogInvalidGeometries invalid_count; LogGeometriesFixed])
  else (gdf, []).
End Repair.

(** *** Attribute cleaning, lines 90-112 *)

(** [gdf.drop(columns=columns_to_drop)] *)
Definition drop_columns (columns_to_drop : list string) (gdf : GeoDataFrame)
  : GeoDataFrame :=
  set_attributes gdf
    (filter (fun col => col_name col ∉ columns_to_drop) (gdf_attributes gdf)).

(** [gdf[cols_to_keep]]: the columns named, in the order of the list. Each
    name brings the attribute columns that carry it, once for each time it
    is listed. ['geometry'] names the geometry field; listed twice it makes
    the selection raise [ValueError]. *)
Definition select_columns (cols_to_keep : list string) (gdf : GeoDataFrame)
  : result GeoDataFrame :=
  if decide (1 < length (filter (fun name => name = "geometry") cols_to_keep))%nat
  then Raise (ExternalError "ValueError")
  else
    Ok (set_attributes gdf
          (cols_to_keep ≫= fun name =>
             filter (fun col => col_name col = name) (gdf_attributes gdf))).

(** [gdf[col].dt.strftime('%Y-%m-%d')] on a [datetime64] column: strings,
    and [NaN] where the date is missing. *)
Definition dates_to_strings (col : column) : column :=
  match col_dtype col with
  | DDatetime64 =>
      {| col_name := col_name col;
         col_dtype := DObject;
         col_cells :=
           (fun c => match c with
                     | CTimestamp t => CStr (strftime_date t)
                     | CNaT => CNaN
                     | _ => c
                     end) <$> col_cells col |}
  | _ => col
  end.

(** The loop of lines 105-107 over [gdf.columns]. Under a name that several
    columns carry [gdf[col]] is a frame, which has no dtype and is no
    [datetime64]: those columns are passed over. *)
Definition convert_dates (attributes : list column) : list column :=
  (fun col =>
     if decide (length (filter (fun other => col_name other = col_name col)
                          attributes) = 1%nat)
     then dates_to_strings col else col) <$> attributes.

(** [pd.notnull] on one cell. *)
Definition notnull (c : cell) : bool :=
  match c with CNone | CNaN | CNaT => false | _ => true end.

(** [gdf.where(pd.notnull(gdf), None)] on the cells of one column: where the
    value is missing it is replaced by [None], which a column of objects
    holds as it is, a column of floats as [NaN] and a column of dates as
    [NaT]. A column of integers or of booleans has no missing value. *)
Definition null_to_None (col : column) : column :=
  {| col_name := col_name col;
     col_dtype := col_dtype col;
     col_cells :=
       (fun c =>
          if notnull c then c
          else match col_dtype col with
               | DObject => CNone
               | DFloat64 => CNaN
               | DDatetime64 => CNaT
               | DBool | DInt64 => c
               end) <$> col_cells col |}.

(** [clean_attributes(gdf)], with the allow-list of the configuration as a
    parameter. A missing geometry is [None] already. ['geometry'] is in
    [gdf.columns], so that an allow-list that names it has it listed twice
    in [cols_to_keep]. *)
Definition clean_attributes (ATTRIBUTES_TO_KEEP : list string) (gdf : GeoDataFrame)
  : result GeoDataFrame :=
  let columns_to_drop :=
    filter (fun col => startswith col "__" = true) (gdf_columns gdf) in
  let gdf :=
    match columns_to_drop with
    | [] => gdf
    | _ => drop_columns columns_to_drop gdf
    end in
  gdf ← match ATTRIBUTES_TO_KEEP with
        | [] => Ok gdf
        | _ =>
            let cols_to_keep :=
              "geometry" ::
              filter (fun col => col ∈ gdf_columns gdf) ATTRIBUTES_TO_KEEP in
            select_columns cols_to_keep gdf
        end;
  let gdf := set_attributes gdf (convert_dates (gdf_attributes gdf)) in
  let gdf := set_attributes gdf (null_to_None <$> gdf_attributes gdf) in
  Ok gdf.

End Frames.
Arguments cell : clear implicits.
Arguments column : clear implicits.
Arguments GeoDataFrame : clear implicits.

(** [ATTRIBUTES_TO_KEEP] of [scripts/config.py]: empty, every attribute is
    kept. *)
Definition ATTRIBUTES_TO_KEEP : list string := [].

(** The names of the attribute columns of a frame. *)
Definition attribute_names {float} (gdf : GeoDataFrame float) : list string :=
  col_name <$> gdf_attributes gdf.

(** ** The file system, the clock and the logger *)

Section World.
Context {float : Type}.

(** The directories of [scripts/config.py], each a finite map from file
    names to contents.
    - [raw_files] ([RAW_DATA_DIR]): a source dataset is held as what
      [gpd.read_file] makes of it, a frame or an exception.
    - [processed_files] ([PROCESSED_DATA_DIR]) and [backup_files]
      ([BACKUP_DIR]): a GeoJSON file is held as the document it parses to,
      and what a failed export left of a file as a content of that type,
      which is copied and overwritten but never read.
    - [locked]: the entries of [BACKUP_DIR] that the process may not remove.
    - [clock], [reads]: the successive answers of [datetime.now()] and how
      many were consumed.
    - [log]: the records logged so far, oldest first. *)
Record world : Type := {
  raw_files : gmap string (result (GeoDataFrame float));
  processed_files : gmap string (pyval float);
  backup_files : gmap string (pyval float);
  locked : gset string;
  clock : nat → datetime;
  reads : nat;
  log : list log_record
}.

(** A computation that can raise and that keeps the effects it had made. *)
Definition M (A : Type) : Type := world → result A * world.

#[export] Instance M_ret : MRet M := λ A a w, (Ok a, w).
#[export] Instance M_bind : MBind M := λ A B k m w,
  match m w with
  | (Ok a, w') => k a w'
  | (Raise e, w') => (Raise e, w')
  end.

Definition lift {A} (r : result A) : M A := λ w, (r, w).

(** [for x in l: f(x)] *)
Fixpoint for_each {A} (f : A → M unit) (l : list A) : M unit :=
  match l with
  | [] => mret ()
  | x :: l' => _ ← f x; for_each f l'
  end.

Definition logger (r : log_record) : M unit := λ w,
  (Ok (),
   {| raw_files := raw_files w; processed_files := processed_files w;
      backup_files := backup_files w; locked := locked w;
      clock := clock w; reads := reads w; log := log w ++ [r] |}).

Definition log_all (rs : list log_record) : M unit := for_each logger rs.

(** [datetime.now()] *)
Definition datetime_now : M datetime := λ w,
  (Ok (clock w (reads w)),
   {| raw_files := raw_files w; processed_files := processed_files w;
      backup_files := backup_files w; locked := locked w;
      clock := clock w; reads := S (reads w); log := log w |}).

(** [setup_logging()], lines 36-48: the name of the log file takes a
    reading of the clock; the handlers it installs are the logger. *)
Definition setup_logging : M unit :=
  _ ← datetime_now; mret ().

Definition set_backup_files (files : gmap string (pyval float)) (w : world) : world :=
  {| raw_files := raw_files w; processed_files := processed_files w;
     backup_files := files; locked := locked w;
     clock := clock w; reads := reads w; log := log w |}.

Definition set_processed_files (files : gmap string (pyval float)) (w : world) : world :=
  {| raw_files := raw_files w; processed_files := files;
     backup_files := backup_files w; locked := locked w;
     clock := clock w; reads := reads w; log := log w |}.

(** [shutil.copy2(output_path, BACKUP_DIR / backup_name)], on a directory
    that can be written: the content of the output under the new name, over
    any entry of that name. *)
Definition copy2 (content : pyval float) (backup_name : string) : M unit := λ w,
  (Ok (), set_backup_files (<[backup_name := content]> (backup_files w)) w).

(** [old_backup.unlink()] on an entry of [BACKUP_DIR]. *)
Definition unlink (name : string) : M unit := λ w,
  if decide (name ∈ locked w) then (Raise (PermissionError name), w)
  else match backup_files w !! name with
       | Some _ => (Ok (), set_backup_files (delete name (backup_files w)) w)
       | None => (Raise (ExternalError "FileNotFoundError"), w)
       end.

(** [sorted(BACKUP_DIR.glob(f"{stem}_*{suffix}"))]: paths of one directory
    compare as their names do, character by character. *)
Definition sorted_glob (stem suffix : string) (files : gmap string (pyval float))
  : list string :=
  merge_sort String.le
    (filter (fun name => glob_match stem suffix name = true) (map_to_list files).*1).

Definition list_backups (stem suffix : string) : M (list string) := λ w,
  (Ok (sorted_glob stem suffix (backup_files w)), w).

(** [f"{output_path.stem}_{timestamp}{output_path.suffix}"] *)
Definition backup_name_of (output_name timestamp : string) : string :=
  path_stem output_name +:+ "_" +:+ timestamp +:+ path_suffix output_name.

(** [backups[:-3]] *)
Definition all_but_last_3 {A} (backups : list A) : list A :=
  take (length backups - 3) backups.

(** [backup_existing_file(output_path)], lines 52-71, for the output file
    [output_name] of [PROCESSED_DATA_DIR]. *)
Definition backup_existing_file (output_name : string) : M unit := λ w,
  match processed_files w !! output_name with
  | None => (Ok (), w)
  | Some content =>
      (now ← datetime_now;
       let timestamp := strftime_stamp now in
       let backup_name := backup_name_of output_name timestamp in
       _ ← copy2 content backup_name;
       _ ← logger (LogBackupCreated backup_name);
       backups ← list_backups (path_stem output_name) (path_suffix output_name);
       for_each (fun old_backup =>
                   _ ← unlink old_backup;
                   logger (LogBackupDeleted old_backup))
                (all_but_last_3 backups)) w
  end.

(** [n] calls of [backup_existing_file] on one output, one after the other. *)
Fixpoint repeat_backup (output_name : string) (n : nat) : M unit :=
  match n with
  | O => mret ()
  | S n' => _ ← backup_existing_file output_name; repeat_backup output_name n'
  end.

(** The world once the entries [stale] of [BACKUP_DIR] were removed one by
    one and each removal logged. *)
Definition after_deleting (stale : list string) (w : world) : world :=
  {| raw_files := raw_files w; processed_files := processed_files w;
     backup_files := foldl (fun files old => delete old files) (backup_files w) stale;
     locked := locked w; clock := clock w; reads := reads w;
     log := log w ++ (LogBackupDeleted <$> stale) |}.

(** The world once the clock was read and [content] copied and logged as
    [backup_name]. *)
Definition after_copy (backup_name : string) (content : pyval float) (w : world)
  : world :=
  {| raw_files := raw_files w; processed_files := processed_files w;
     backup_files := <[backup_name := content]> (backup_files w);
     locked := locked w; clock := clock w; reads := S (reads w);
     log := log w ++ [LogBackupCreated backup_name] |}.

(** Over its next [n] readings the clock gives datetimes within range that
    advance strictly. *)
Definition clock_advances (w : world) (n : nat) : Prop :=
  (∀ i, (reads w ≤ i < reads w + n)%nat → valid_datetime (clock w i)) ∧
  (∀ i j, (reads w ≤ i)%nat → (i < j)%nat → (j < reads w + n)%nat →
          chrono (clock w i) < chrono (clock w j)).

(** The names of the [n] copies that the next [n] readings of the clock
    give to an output, in order. *)
Definition next_backup_names (output_name : string) (w : world) (n : nat)
  : list string :=
  (fun i => backup_name_of output_name (strftime_stamp (clock w i)))
    <$> seq (reads w) n.

End World.
Arguments world : clear implicits.
Arguments M : clear implicits.

(** [a] sorts strictly before [b]. *)
Definition sorts_before (a b : string) : Prop := String.le a b ∧ a ≠ b.

(** The archived copies that a log reports removed, in the order of their
    removal. *)
Definition deleted_backups (records : list log_record) : list string :=
  records ≫= fun r => match r with LogBackupDeleted name => [name] | _ => [] end.

(** The last three elements of a list: [backups[-3:]]. *)
Definition last_3 {A} (backups : list A) : list A :=
  drop (length backups - 3) backups.

(** ** The layer pipeline *)

(** An entry of [LAYERS_CONFIG]. *)
Record layer_config : Type := {
  source_file : string;
  output_name : string;
  description : string
}.

(** [LAYERS_CONFIG] of [scripts/config.py], in the order of the dictionary. *)
Definition LAYERS_CONFIG : list (string * layer_config) :=
  [("lots", {| source_file := "LOTS.gpkg"; output_name := "lots.geojson";
               description := "Parcelles de lots" |});
   ("ilots", {| source_file := "ILOTS.gpkg"; output_name := "ilots.geojson";
                description := "Ilots urbains" |});
   ("polygonale", {| source_file := "POLYGONALE_ZONE_ETUDE.gpkg";
                     output_name := "polygonale.geojson";
                     description := "Polygonale cadastrale" |})].

(** [a / b] on integers, for what can go wrong with it: true division
    refuses a zero divisor. The quotient is a binary floating-point number,
    which is not held. *)
Definition py_truediv (a b : Z) : result () :=
  if decide (b = 0) then Raise ZeroDivisionError else Ok ().

(** Lines 206-211: the reduction is computed under the test
    [original_vertices > 0] only. *)
Definition report_reduction (original_vertices simplified_vertices : Z)
  : result log_record :=
  if 0 <? original_vertices
  then
    _ ← py_truediv simplified_vertices original_vertices;
    Ok (LogReduction original_vertices simplified_vertices)
  else Ok LogSimplificationDone.

Section Pipeline.
Context {float : Type}.

(** What [gdf.to_file(path, driver='GeoJSON')] makes of the file at [path]:
    the document written, which [json.load] reads back; or the exception of
    the driver, with what it left at the path, which it opens itself: the
    file as it was, no file, or what was written by then. *)
Inductive leftover : Type :=
| Untouched
| Removed
| Holding (content : pyval float).

Inductive export_result : Type :=
| Exported (document : pyval float)
| ExportFailed (e : exn) (left : leftover).

(** The collaborators of the script: shapely and geopandas on geometries and
    frames, the GeoJSON driver, the builtin [round].
    - [simplify tolerance] is [GeoSeries.simplify(tolerance,
      preserve_topology=True)] on one element. *)
Record collaborators : Type := {
  is_valid : option (geometry float) → bool;
  buffer : Q → option (geometry float) → option (geometry float);
  to_crs : string → GeoDataFrame float → result (GeoDataFrame float);
  simplify : Q → option (geometry float) → option (geometry float);
  to_file : GeoDataFrame float → export_result;
  round_float : Z → float → float
}.

(** The constants of [scripts/config.py] that the steps read. *)
Record settings : Type := {
  target_crs : string;
  simplify_tolerance : Q;
  attributes_to_keep : list string
}.

Variable lib : collaborators.
Variable cfg : settings.

(** Step 6, lines 198-204: the count before, the simplification of every
    geometry, the count after. *)
Definition simplify_geometries (gdf : GeoDataFrame float)
  : result (GeoDataFrame float * Z * Z) :=
  original_vertices ← total_vertices (gdf_geometry gdf);
  let gdf :=
    set_geometry gdf (simplify lib (simplify_tolerance cfg) <$> gdf_geometry gdf) in
  simplified_vertices ← total_vertices (gdf_geometry gdf);
  Ok (gdf, original_vertices, simplified_vertices).

(** [gpd.read_file(source_path)] *)
Definition read_file (source_name : string) : M float (GeoDataFrame float) := λ w,
  match raw_files w !! source_name with
  | Some r => (r, w)
  | None => (Raise (ExternalError "DataSourceError"), w)
  end.

(** [gdf.to_file(output_path, driver='GeoJSON', encoding='utf-8')] *)
Definition write_geojson (output_name : string) (gdf : GeoDataFrame float)
  : M float unit := λ w,
  match to_file lib gdf with
  | Exported document =>
      (Ok (), set_processed_files (<[output_name := document]> (processed_files w)) w)
  | ExportFailed e Untouched => (Raise e, w)
  | ExportFailed e Removed =>
      (Raise e, set_processed_files (delete output_name (processed_files w)) w)
  | ExportFailed e (Holding content) =>
      (Raise e, set_processed_files (<[output_name := content]> (processed_files w)) w)
  end.

(** [json.load] of the output file. *)
Definition json_load (output_name : string) : M float (pyval float) := λ w,
  match processed_files w !! output_name with
  | Some document => (Ok document, w)
  | None => (Raise (ExternalError "FileNotFoundError"), w)
  end.

(** [json.dump] over the output file. *)
Definition json_dump (output_name : string) (document : pyval float)
  : M float unit := λ w,
  (Ok (), set_processed_files (<[output_name := document]> (processed_files w)) w).

(** The [try] block of [process_layer], lines 175-249, in two halves: steps
    2 to 8, from the backup to the export, then steps 9 and 10, the rounding
    of the exported coordinates. *)
Definition export_layer (layer_config : layer_config) : M float unit :=
  (* 2. backup of the previous output *)
  _ ← backup_existing_file (output_name layer_config);
  (* 3. loading *)
  gdf ← read_file (source_file layer_config);
  (* 4. validation *)
  let '(gdf, lines) :=
    validate_and_fix_geometries (is_valid lib) (buffer lib) gdf in
  _ ← log_all lines;
  (* 5. reprojection *)
  gdf ← (if decide (gdf_crs gdf ≠ Some (target_crs cfg))
         then lift (to_crs lib (target_crs cfg) gdf)
         else mret gdf);
  (* 6. simplification *)
  simplified ← lift (simplify_geometries gdf);
  let '(gdf, original_vertices, simplified_vertices) := simplified in
  line ← lift (report_reduction original_vertices simplified_vertices);
  _ ← logger line;
  (* 7. attributes *)
  gdf ← lift (clean_attributes (attributes_to_keep cfg) gdf);
  (* 8. export *)
  write_geojson (output_name layer_config) gdf.

Definition optimise_output (layer_name : string) (layer_config : layer_config)
  : M float unit :=
  (* 9. coordinate precision *)
  geojson_data ← json_load (output_name layer_config);
  geojson_data ← lift (round_features (round_float lib) geojson_data);
  _ ← json_dump (output_name layer_config) geojson_data;
  (* 10. done *)
  logger (LogLayerDone layer_name).

Definition process_layer_steps (layer_name : string) (layer_config : layer_config)
  : M float unit :=
  _ ← export_layer layer_config;
  optimise_output layer_name layer_config.

(** [process_layer(layer_name, layer_config)], lines 156-253: [False] at once
    when the source is absent; otherwise the steps, and [except Exception]
    turns whatever they raise into a logged error and [False]. *)
Definition process_layer (layer_name : string) (layer_config : layer_config)
  (w : world float) : bool * world float :=
  match raw_files w !! source_file layer_config with
  | None => (false, (logger (LogSourceNotFound (source_file layer_config)) w).2)
  | Some _ =>
      match process_layer_steps layer_name layer_config w with
      | (Ok _, w') => (true, w')
      | (Raise e, w') => (false, (logger (LogLayerError layer_name e) w').2)
      end
  end.

(** The loop of [main], lines 273-275, with the outcome of every job kept in
    order. *)
Fixpoint process_layers (layers : list (string * layer_config)) (w : world float)
  : list bool * world float :=
  match layers with
  | [] => ([], w)
  | (layer_name, layer_config) :: layers' =>
      let '(ok, w) := process_layer layer_name layer_config w in
      let '(oks, w) := process_layers layers' w in
      (ok :: oks, w)
  end.

(** [main()], lines 257-288, over the layers of the configuration: the exit
    status and the final world. The clock is read for the name of the log
    file and again for the date logged. [success_count] counts the jobs that
    returned [True]. *)
Definition main (layers : list (string * layer_config)) (w : world float)
  : Z * world float :=
  let w := ((_ ← setup_logging; now ← datetime_now; logger (LogDate now)) w).2 in
  let total_count := len layers in
  let '(oks, w) := process_layers layers w in
  let success_count := len (filter (fun ok => ok = true) oks) in
  let w := (logger (LogSummary success_count total_count) w).2 in
  if decide (success_count = total_count)
  then (0, (logger LogAllSucceeded w).2)
  else (1, (logger (LogFailures (total_count - success_count)) w).2).

End Pipeline.
Arguments leftover : clear implicits.
Arguments export_result : clear implicits.
Arguments collaborators : clear implicits.

(** ** The arguments that the rounding accepts *)

Section Roundable.
Context {float : Type}.

(** The values that the builtin [round] takes: numbers and booleans. *)
Definition has_round (c : pyval float) : bool :=
  match c with
  | PBool _ | PInt _ | PFloat _ => true
  | _ => false
  end.

(** The shape test that [round_coords] makes as it goes: a non-empty list
    whose elements, when the first is a list, are all accepted in turn, and
    otherwise are all numbers or booleans. *)
Fixpoint roundable (coords : pyval float) : bool :=
  match coords with
  | PList items =>
      match items with
      | [] => false
      | c0 :: _ =>
          if is_list c0 then forallb roundable items else forallb has_round items
      end
  | _ => false
  end.

(** A feature as the rounding pass needs it: a dictionary whose [geometry]
    is a dictionary whose [coordinates] are accepted. *)
Definition roundable_feature (feature : pyval float) : bool :=
  match py_getitem feature "geometry" with
  | Ok geom =>
      match py_getitem geom "coordinates" with
      | Ok coords => roundable coords
      | Raise _ => false
      end
  | Raise _ => false
  end.

(** *** What the rounding pass may change *)

(** Two objects with the same members in the same order, and the same value
    at every member but [key]. *)
Definition same_but (key : string) (v v' : pyval float) : Prop :=
  ∃ entries entries',
    v = PDict entries ∧ v' = PDict entries' ∧
    entries'.*1 = entries.*1 ∧
    ∀ k, k ≠ key → assoc_get k entries' = assoc_get k entries.

(** A feature and its image: only the [coordinates] of the [geometry]
    differ, and they are the rounded ones. *)
Definition rounded_feature (round_float : Z → float → float)
  (feature feature' : pyval float) : Prop :=
  ∃ geom geom' coords coords',
    py_getitem feature "geometry" = Ok geom ∧
    py_getitem feature' "geometry" = Ok geom' ∧
    same_but "geometry" feature feature' ∧
    py_getitem geom "coordinates" = Ok coords ∧
    py_getitem geom' "coordinates" = Ok coords' ∧
    same_but "coordinates" geom geom' ∧
    round_coords round_float coords = Ok coords'.

End Roundable.

(** ** The cells of a cleaned frame *)

(** The attribute columns that [clean_attributes] holds when it reaches the
    loop over the dates: those of the source whose name does not start with
    a double underscore, and of them, under a non-empty allow-list, the
    columns that [cols_to_keep] names, in its order. *)
Definition selected_columns {float : Type} (keep : list string)
  (gdf : GeoDataFrame float) : list (column float) :=
  let kept :=
    filter (fun c => startswith (col_name c) "__" = false) (gdf_attributes gdf) in
  match keep with
  | [] => kept
  | _ =>
      ("geometry" :: filter (fun a => a ∈ (col_name <$> kept) ++ ["geometry"]) keep)
      ≫= fun name => filter (fun c => col_name c = name) kept
  end.

(** What the cleaning makes of one cell of a column of type [dt] that no
    other column shares its name with. In a column of dates a timestamp
    becomes its date as text and a missing value [None]; in a column of
    objects a missing value of any kind becomes [None]; in a column of
    floats a missing value is [NaN]; the cells of the columns of integers and
    of booleans stay. *)
Definition cleaned_cell {float : Type} (dt : dtype) (c : cell float) : cell float :=
  match dt with
  | DDatetime64 =>
      match c with
      | CTimestamp t => CStr (strftime_date t)
      | CNone | CNaN | CNaT => CNone
      | _ => c
      end
  | DObject => match c with CNone | CNaN | CNaT => CNone | _ => c end
  | DFloat64 => match c with CNone | CNaN | CNaT => CNaN | _ => c end
  | DBool | DInt64 => c
  end.

(** ** What a job may change *)

Section JobFrame.
Context {float : Type}.

(** [m] relates the world it is run in to the world it leaves, whether it
    returns or raises. *)
Definition preserves {A} (R : world float → world float → Prop) (m : M float A)
  : Prop :=
  ∀ w r w', m w = (r, w') → R w w'.

(** The steps of a job after the backup: they write the output file and
    they log. *)
Definition writes_output_only (output_name : string) (w w' : world float) : Prop :=
  raw_files w' = raw_files w ∧ backup_files w' = backup_files w ∧
  locked w' = locked w ∧ clock w' = clock w ∧ reads w' = reads w ∧
  (∀ name, name ≠ output_name →
           processed_files w' !! name = processed_files w !! name) ∧
  ∃ lines, log w' = log w ++ lines.

(** A run of the jobs [layers]: the sources, the locks and the clock stay;
    the clock is read at most once a job; an output that no job names and an
    archived copy that matches the pattern of no job stay; the log grows. *)
Definition jobs_frame (layers : list (string * layer_config)) (w w' : world float)
  : Prop :=
  raw_files w' = raw_files w ∧ locked w' = locked w ∧ clock w' = clock w ∧
  (reads w ≤ reads w' ≤ reads w + length layers)%nat ∧
  (∀ name, Forall (fun layer => name ≠ output_name layer.2) layers →
           processed_files w' !! name = processed_files w !! name) ∧
  (∀ name,
      Forall (fun layer =>
                glob_match (path_stem (output_name layer.2))
                  (path_suffix (output_name layer.2)) name = false) layers →
      backup_files w' !! name = backup_files w !! name) ∧
  ∃ lines, log w' = log w ++ lines.

(** *** The steps between the loading and the export *)

Section Steps.
Variable lib : collaborators float.
Variable cfg : settings.

(** Step 5 on the frame loaded, after the validation: the validated frame
    itself when its CRS is the target, what [to_crs] returns otherwise. *)
Definition reprojected (gdf0 gdf1 : GeoDataFrame float) : Prop :=
  gdf_crs gdf0 = Some (target_crs cfg) ∧
  gdf1 = (validate_and_fix_geometries (is_valid lib) (buffer lib) gdf0).1 ∨
  gdf_crs gdf0 ≠ Some (target_crs cfg) ∧
  to_crs lib (target_crs cfg)
    (validate_and_fix_geometries (is_valid lib) (buffer lib) gdf0).1 = Ok gdf1.

(** Steps 4 to 7 went through on the frame loaded and made the frame to
    export. *)
Definition prepared (gdf0 gdf : GeoDataFrame float) : Prop :=
  ∃ gdf1 gdf2 original_vertices simplified_vertices,
    reprojected gdf0 gdf1 ∧
    simplify_geometries lib cfg gdf1
    = Ok (gdf2, original_vertices, simplified_vertices) ∧
    clean_attributes (attributes_to_keep cfg) gdf2 = Ok gdf.

(** One of the steps 5 to 7 raised [e]: the reprojection, the count of the
    vertices or the cleaning of the attributes. *)
Definition fails_before_export (gdf0 : GeoDataFrame float) (e : exn) : Prop :=
  gdf_crs gdf0 ≠ Some (target_crs cfg) ∧
  to_crs lib (target_crs cfg)
    (validate_and_fix_geometries (is_valid lib) (buffer lib) gdf0).1 = Raise e ∨
  ∃ gdf1,
    reprojected gdf0 gdf1 ∧
    (simplify_geometries lib cfg gdf1 = Raise e ∨
     ∃ gdf2 original_vertices simplified_vertices,
       simplify_geometries lib cfg gdf1
       = Ok (gdf2, original_vertices, simplified_vertices) ∧
       clean_attributes (attributes_to_keep cfg) gdf2 = Raise e).

End Steps.

(** The output directory after an export that failed, by what the driver
    left at the path. *)
Definition after_failed_export (left : leftover float) (output_name : string)
  (files : gmap string (pyval float)) : gmap string (pyval float) :=
  match left with
  | Untouched => files
  | Removed => delete output_name files
  | Holding content => <[output_name := content]> files
  end.

End JobFrame.

(** ** A decimal stand-in for floats *)

(** Decimal fixed-point numbers with nine fractional digits, held as the
    integer number of billionths, and their rounding to [ndigits] decimals,
    ties to even. They instantiate [float] in the examples. *)
Definition fixed_round (ndigits : Z) (x : Z) : Z :=
  let m := 10 ^ (9 - ndigits) in
  let q := x / m in
  let r := x mod m in
  if 2 * r <? m then q * m
  else if m <? 2 * r then (q + 1) * m
  else if Z.even q then q * m else (q + 1) * m.

(** [[[2.3456789012, 48.0000005], [3, 1.5]]] in billionths. *)
Definition sample_coords : pyval Z :=
  PList [PList [PFloat 2345678901; PFloat 48000000500]; PList [PInt 3; PFloat 1500000000]].

(** ** Stand-ins for shapely on small geometries *)

(** Twice the signed area of the triangle [a b c] of planar points. *)
Definition orient (a b c : list Z) : Z :=
  match a, b, c with
  | [ax; ay], [bx; by_], [cx; cy] => (bx - ax) * (cy - ay) - (by_ - ay) * (cx - ax)
  | _, _, _ => 0
  end.

(** The edges [a b] and [c d] cross at a point interior to both. *)
Definition edges_cross (e1 e2 : list Z * list Z) : bool :=
  let '(a, b) := e1 in
  let '(c, d) := e2 in
  (orient a b c * orient a b d <? 0) && (orient c d a * orient c d b <? 0).

Definition ring_edges (ring : list (list Z)) : list (list Z * list Z) :=
  zip ring (tail ring).

Definition self_crossing (ring : list (list Z)) : bool :=
  existsb (fun e1 => existsb (edges_cross e1) (ring_edges ring)) (ring_edges ring).

(** Validity on the geometries of the examples: a missing geometry is not
    valid, a polygon is valid unless its exterior ring crosses itself, and
    points and lines are valid. *)
Definition sample_is_valid (g : option (geometry Z)) : bool :=
  match g with
  | None => false
  | Some (Polygon exterior _) => negb (self_crossing exterior)
  | Some _ => true
  end.

(** The buffer on the geometries of the examples, at distance zero: points
    and lines have no area and buffer to the empty polygon; a missing geometry
    stays missing; areal geometries are returned as they are. *)
Definition sample_buffer (distance : Q) (g : option (geometry Z))
  : option (geometry Z) :=
  match g with
  | Some (Point _) | Some (MultiPoint _) | Some (LineString _)
  | Some (LinearRing _) | Some (MultiLineString _) => Some (Polygon [] [])
  | _ => g
  end.

(** A whole number of degrees, in billionths. *)
Definition deg (n : Z) : Z := n * 1000000000.

(** A bow tie, whose ring crosses itself at [(1, 1)]. *)
Definition bowtie : geometry Z :=
  Polygon [[deg 0; deg 0]; [deg 2; deg 2]; [deg 2; deg 0]; [deg 0; deg 2];
           [deg 0; deg 0]] [].

Definition unit_square : geometry Z :=
  Polygon [[deg 0; deg 0]; [deg 1; deg 0]; [deg 1; deg 1]; [deg 0; deg 1];
           [deg 0; deg 0]] [].

(** Two features: a bow tie and a point. *)
Definition bowtie_and_point : GeoDataFrame Z :=
  {| gdf_crs := Some "EPSG:4326";
     gdf_geometry := [Some bowtie; Some (Point (Some [deg 5; deg 5]))];
     gdf_attributes :=
       [{| col_name := "name"; col_dtype := DObject;
           col_cells := [CStr "A"; CStr "B"] |}] |}.

(** One feature with the properties [{"name": "A", "extra": 1}]. *)
Definition name_and_extra {float} (g : option (geometry float)) : GeoDataFrame float :=
  {| gdf_crs := Some "EPSG:4326";
     gdf_geometry := [g];
     gdf_attributes :=
       [{| col_name := "name"; col_dtype := DObject; col_cells := [CStr "A"] |};
        {| col_name := "extra"; col_dtype := DInt64; col_cells := [CInt 1] |}] |}.

(** A frame with an internal column, a date and a missing value. *)
Definition mixed_frame : GeoDataFrame Z :=
  {| gdf_crs := Some "EPSG:4326";
     gdf_geometry := [Some unit_square; None];
     gdf_attributes :=
       [{| col_name := "__fid"; col_dtype := DInt64; col_cells := [CInt 1; CInt 2] |};
        {| col_name := "name"; col_dtype := DObject; col_cells := [CStr "A"; CNone] |};
        {| col_name := "surface"; col_dtype := DFloat64;
           col_cells := [CFloat 1000000000; CNaN] |};
        {| col_name := "date_maj"; col_dtype := DDatetime64;
           col_cells :=
             [CTimestamp {| year := 2024; month := 3; day := 9;
                            hour := 0; minute := 0; second := 0 |}; CNaT] |}] |}.

(** A simplifier on the geometries of the examples: it removes from a path
    every vertex that lies on the line through its neighbours, which moves
    no point of the path, whatever the tolerance. *)
Fixpoint drop_collinear (previous : list Z) (path : list (list Z)) : list (list Z) :=
  match path with
  | b :: rest =>
      match rest with
      | c :: _ =>
          if orient previous b c =? 0
          then drop_collinear previous rest
          else b :: drop_collinear b rest
      | [] => path
      end
  | [] => []
  end.

Definition simplify_path (path : list (list Z)) : list (list Z) :=
  match path with
  | a :: rest => a :: drop_collinear a rest
  | [] => []
  end.

Definition sample_simplify (tolerance : Q) (g : option (geometry Z))
  : option (geometry Z) :=
  match g return option (geometry Z) with
  | Some (LineString coords) => Some (LineString (simplify_path coords))
  | Some (LinearRing coords) => Some (LinearRing (simplify_path coords))
  | Some (MultiLineString geoms) => Some (MultiLineString (map simplify_path geoms))
  | Some (Polygon exterior interiors) =>
      Some (Polygon (simplify_path exterior) (map simplify_path interiors))
  | Some (MultiPolygon geoms) =>
      Some (MultiPolygon
              (map (fun poly => (simplify_path poly.1, map simplify_path poly.2)) geoms))
  | _ => g
  end.

(** A rectangle given with the midpoints of its long sides. *)
Definition rectangle : geometry Z :=
  Polygon [[deg 0; deg 0]; [deg 1; deg 0]; [deg 2; deg 0]; [deg 2; deg 1];
           [deg 1; deg 1]; [deg 0; deg 1]; [deg 0; deg 0]] [].

(** The same rectangle by its corners alone. *)
Definition rectangle_corners : geometry Z :=
  Polygon [[deg 0; deg 0]; [deg 2; deg 0]; [deg 2; deg 1]; [deg 0; deg 1];
           [deg 0; deg 0]] [].

(** ** A GeoJSON writer *)

Definition json_position (c : list Z) : pyval Z := PList (PFloat <$> c).
Definition json_path (path : list (list Z)) : pyval Z := PList (json_position <$> path).
Definition json_rings (exterior : list (list Z)) (interiors : list (list (list Z)))
  : pyval Z :=
  match exterior with
  | [] => PList []
  | _ => PList (json_path exterior :: (json_path <$> interiors))
  end.

Definition json_geometry_object (type : string) (coordinates : pyval Z) : pyval Z :=
  PDict [("type", PStr type); ("coordinates", coordinates)].

(** The [geometry] member of a feature: [null] for a missing geometry, and an
    empty [coordinates] array for an empty one. *)
Fixpoint json_geometry (g : geometry Z) : pyval Z :=
  match g with
  | Point position =>
      json_geometry_object "Point" (json_position (default [] position))
  | MultiPoint geoms =>
      json_geometry_object "MultiPoint"
        (PList ((fun p => json_position (default [] p)) <$> geoms))
  | LineString coords | LinearRing coords =>
      json_geometry_object "LineString" (json_path coords)
  | MultiLineString geoms =>
      json_geometry_object "MultiLineString" (PList (json_path <$> geoms))
  | Polygon exterior interiors =>
      json_geometry_object "Polygon" (json_rings exterior interiors)
  | MultiPolygon geoms =>
      json_geometry_object "MultiPolygon"
        (PList ((fun poly => json_rings poly.1 poly.2) <$> geoms))
  | GeometryCollection geoms =>
      PDict [("type", PStr "GeometryCollection");
             ("geometries", PList (map json_geometry geoms))]
  end.

Definition json_cell (c : cell Z) : pyval Z :=
  match c with
  | CNone | CNaN | CNaT => PNone
  | CBool b => PBool b
  | CInt z => PInt z
  | CFloat f => PFloat f
  | CStr s => PStr s
  | CTimestamp t => PStr (strftime_date t)
  end.

Definition json_feature (gdf : GeoDataFrame Z) (row : nat)
  (g : option (geometry Z)) : pyval Z :=
  PDict [("type", PStr "Feature");
         ("properties", PDict (prod_map id json_cell <$> properties gdf row));
         ("geometry", from_option json_geometry PNone g)].

Definition sample_to_file (gdf : GeoDataFrame Z) : export_result Z :=
  Exported (PDict [("type", PStr "FeatureCollection");
             ("features", PList (imap (json_feature gdf) (gdf_geometry gdf)))]).

(** Relabelling stands for the transformation of the coordinates; a frame
    without CRS cannot be transformed. *)
Definition sample_to_crs (crs : string) (gdf : GeoDataFrame Z)
  : result (GeoDataFrame Z) :=
  match gdf_crs gdf with
  | Some _ =>
      Ok {| gdf_crs := Some crs; gdf_geometry := gdf_geometry gdf;
            gdf_attributes := gdf_attributes gdf |}
  | None => Raise (ExternalError "ValueError")
  end.

Definition sample_lib : collaborators Z :=
  {| is_valid := sample_is_valid;
     buffer := sample_buffer;
     to_crs := sample_to_crs;
     simplify := sample_simplify;
     to_file := sample_to_file;
     round_float := fixed_round |}.

(** The settings of [scripts/config.py]. *)
Definition config : settings :=
  {| target_crs := TARGET_CRS;
     simplify_tolerance := SIMPLIFY_TOLERANCE;
     attributes_to_keep := ATTRIBUTES_TO_KEEP |}.

(** ** Sample worlds *)

(** A clock that ticks once a second from 17 May 2024, 08:00:00. *)
Definition sample_clock (n : nat) : datetime :=
  {| year := 2024; month := 5; day := 17;
     hour := (8 + n / 3600) mod 24; minute := (n / 60) mod 60; second := n mod 60 |}.

Definition lots_frame : GeoDataFrame Z :=
  {| gdf_crs := Some "EPSG:32630";
     gdf_geometry := [Some rectangle; Some unit_square];
     gdf_attributes :=
       [{| col_name := "__fid"; col_dtype := DInt64; col_cells := [CInt 1; CInt 2] |};
        {| col_name := "nom"; col_dtype := DObject; col_cells := [CStr "A"; CStr "B"] |}] |}.

Definition polygonale_frame : GeoDataFrame Z :=
  {| gdf_crs := Some "EPSG:4326";
     gdf_geometry :=
       [Some (LineString [[deg 0; deg 0]; [deg 1; deg 1]; [deg 2; deg 2];
                          [deg 3; 1234567]])];
     gdf_attributes := [] |}.

(** A first run where the source of the second layer is absent. *)
Definition first_run : world Z :=
  {| raw_files :=
       <["LOTS.gpkg" := Ok lots_frame]>
         (<["POLYGONALE_ZONE_ETUDE.gpkg" := Ok polygonale_frame]> ∅);
     processed_files := ∅;
     backup_files := ∅;
     locked := ∅;
     clock := sample_clock;
     reads := 0;
     log := [] |}.

(** A layer with a feature that has no geometry, and one whose geometry is
    an empty polygon. *)
Definition frame_with_null : GeoDataFrame Z :=
  {| gdf_crs := Some "EPSG:4326";
     gdf_geometry := [Some unit_square; None];
     gdf_attributes := [] |}.

Definition frame_with_empty : GeoDataFrame Z :=
  {| gdf_crs := Some "EPSG:4326";
     gdf_geometry := [Some (Polygon [] [])];
     gdf_attributes := [] |}.

Definition world_of_source (source : result (GeoDataFrame Z)) : world Z :=
  {| raw_files := <["LOTS.gpkg" := source]> ∅;
     processed_files := ∅;
     backup_files := ∅;
     locked := ∅;
     clock := sample_clock;
     reads := 0;
     log := [] |}.

Definition lots_config : layer_config :=
  {| source_file := "LOTS.gpkg"; output_name := "lots.geojson";
     description := "Parcelles de lots" |}.

(** A later run: the output of the layer exists, with four archived copies
    of it, the oldest of which may not be removed. *)
Definition old_document : pyval Z :=
  PDict [("type", PStr "FeatureCollection"); ("features", PList [])].

Definition later_run (locked_names : gset string) : world Z :=
  {| raw_files := <["LOTS.gpkg" := Ok lots_frame]> ∅;
     processed_files := <["lots.geojson" := old_document]> ∅;
     backup_files :=
       <["lots_20240101_080000.geojson" := old_document]>
         (<["lots_20240201_080000.geojson" := old_document]>
            (<["lots_20240301_080000.geojson" := old_document]>
               (<["lots_20240401_080000.geojson" := old_document]> ∅)));
     locked := locked_names;
     clock := sample_clock;
     reads := 0;
     log := [] |}.

(** ** Documents that the rounding pass refuses *)

(** A FeatureCollection whose only feature has no geometry. *)
Definition null_geometry_document {float} : pyval float :=
  PDict [("type", PStr "FeatureCollection");
         ("features",
          PList [PDict [("type", PStr "Feature");
                        ("properties", PDict []);
                        ("geometry", PNone)]])].

(** A FeatureCollection whose only feature is an empty polygon. *)
Definition empty_coordinates_document {float} : pyval float :=
  PDict [("type", PStr "FeatureCollection");
         ("features",
          PList [PDict [("type", PStr "Feature");
                        ("properties", PDict []);
                        ("geometry",
                         PDict [("type", PStr "Polygon");
                                ("coordinates", PList [])])]])].

(** ** More sample worlds *)

(** A run within the second of the newest archived copy: the clock reads
    08:00:00 on 17 May 2024 and a copy of that second is there already, with
    another content. *)
Definition newer_document : pyval Z :=
  PDict [("type", PStr "FeatureCollection");
         ("features", PList [PDict [("type", PStr "Feature");
                                    ("properties", PDict []);
                                    ("geometry", PNone)]])].

Definition same_second_run : world Z :=
  {| raw_files := <["LOTS.gpkg" := Ok lots_frame]> ∅;
     processed_files := <["lots.geojson" := newer_document]> ∅;
     backup_files :=
       <["lots_20240517_080000.geojson" := old_document]>
         (<["lots_20240301_080000.geojson" := old_document]>
            (<["lots_20240401_080000.geojson" := old_document]> ∅));
     locked := ∅;
     clock := sample_clock;
     reads := 0;
     log := [] |}.

(** A run where the archive directory holds three copies of another output,
    [lots_old.geojson]. *)
Definition shared_archive_run : world Z :=
  {| raw_files := <["LOTS.gpkg" := Ok lots_frame]> ∅;
     processed_files := <["lots.geojson" := old_document]> ∅;
     backup_files :=
       <["lots_old_20240101_080000.geojson" := old_document]>
         (<["lots_old_20240201_080000.geojson" := old_document]>
            (<["lots_old_20240301_080000.geojson" := old_document]> ∅));
     locked := ∅;
     clock := sample_clock;
     reads := 0;
     log := [] |}.

(** ** A document with members of its own *)

(** A FeatureCollection as a GeoJSON driver writes it, with a [name] and a
    [crs] member before the features, a [bbox] in the geometry and an [id]
    in the feature; and the same document with the coordinates rounded. *)
Definition named_feature (coordinates : pyval Z) : pyval Z :=
  PDict [("type", PStr "Feature");
         ("id", PInt 7);
         ("geometry",
          PDict [("type", PStr "Point");
                 ("bbox", PList [PFloat 2345678901; PFloat 48000000499]);
                 ("coordinates", coordinates)]);
         ("properties", PDict [("nom", PStr "A")])].

Definition named_collection (features : list (pyval Z)) : pyval Z :=
  PDict [("type", PStr "FeatureCollection");
         ("name", PStr "lots");
         ("crs", PDict [("type", PStr "name")]);
         ("features", PList features)].

Definition named_features : list (pyval Z) :=
  [named_feature (PList [PFloat 2345678901; PFloat 48000000499])].

Definition named_features_rounded : list (pyval Z) :=
  [named_feature (PList [PFloat 2345679000; PFloat 48000000000])].

Definition named_document : pyval Z := named_collection named_features.
Definition named_document_rounded : pyval Z := named_collection named_features_rounded.

(** ** Collaborators that cannot reproject *)

Definition no_reprojection_lib : collaborators Z :=
  {| is_valid := sample_is_valid;
     buffer := sample_buffer;
     to_crs := fun _ _ => Raise (ExternalError "ProjError");
     simplify := sample_simplify;
     to_file := sample_to_file;
     round_float := fixed_round |}.

Definition polygonale_config : layer_config :=
  {| source_file := "POLYGONALE_ZONE_ETUDE.gpkg";
     output_name := "polygonale.geojson";
     description := "Polygonale cadastrale" |}.

(** ** A layer without any feature *)

Definition empty_frame : GeoDataFrame Z :=
  {| gdf_crs := Some "EPSG:4326"; gdf_geometry := []; gdf_attributes := [] |}.
(** * Properties *)

(** ** Comprehensions and sums *)

Lemma rmap_Ok_length {A B} (f : A → result B) l ys :
  rmap f l = Ok ys → length ys = length l.
Proof.
  revert ys. induction l as [|x l IH]; intros ys; simpl.
  - by intros [= <-].
  - destruct (f x) as [y|]; simpl; [|done].
    destruct (rmap f l) as [ys'|]; simpl; [|done].
    intros [= <-]. simpl. f_equal. by apply IH.
Qed.

Lemma rmap_Ok_Forall2 {A B} (f : A → result B) l ys :
  rmap f l = Ok ys ↔ Forall2 (fun x y => f x = Ok y) l ys.
Proof.
  revert ys. induction l as [|x l IH]; intros ys; simpl.
  - split; [intros [= <-]; constructor | by inversion 1].
  - split.
    + destruct (f x) as [y|] eqn:Hx; simpl; [|done].
      destruct (rmap f l) as [ys'|] eqn:Hl; simpl; [|done].
      intros [= <-]. constructor; [done|]. by apply IH.
    + inversion 1 as [|? y ? ys' Hy Hys]; subst. rewrite Hy. simpl.
      apply IH in Hys. by rewrite Hys.
Qed.

Lemma rmap_total {A B} (f : A → B) l :
  rmap (fun x => Ok (f x)) l = Ok (f <$> l).
Proof. induction l as [|x l IH]; simpl; [done|]. by rewrite IH. Qed.

Lemma rmap_Raise {A B} (f : A → result B) l x :
  x ∈ l → is_ok (f x) = false → is_ok (rmap f l) = false.
Proof.
  induction 1 as [x l|x y l _ IH]; intros Hx; simpl.
  - by destruct (f x).
  - destruct (f y); simpl; [|done].
    specialize (IH Hx). by destruct (rmap f l).
Qed.

Lemma rmap_Ok_ext {A B} (f : A → result B) (g : A → B) l ys :
  Forall (fun x => ∀ y, f x = Ok y → y = g x) l →
  rmap f l = Ok ys → ys = g <$> l.
Proof.
  intros Hl Hmap. apply rmap_Ok_Forall2 in Hmap.
  induction Hmap as [|x y l ys Hxy _ IH]; [done|].
  inversion_clear Hl as [|? ? Hx Hl']. rewrite fmap_cons. f_equal; auto.
Qed.

Lemma rmap_Ok_Forall {A B} (f : A → result B) (P : B → Prop) l ys :
  Forall (fun x => ∀ y, f x = Ok y → P y) l →
  rmap f l = Ok ys → Forall P ys.
Proof.
  intros Hl Hmap. apply rmap_Ok_Forall2 in Hmap.
  induction Hmap as [|x y l ys Hxy _ IH]; [constructor|].
  inversion_clear Hl as [|? ? Hx Hl']. constructor; auto.
Qed.

Lemma rmap_fixed {A} (f : A → result A) l :
  Forall (fun x => f x = Ok x) l → rmap f l = Ok l.
Proof.
  intros Hl. apply rmap_Ok_Forall2.
  induction Hl; constructor; done.
Qed.

Lemma rmap_ext_Ok {A B} (f : A → result B) (g : A → B) l :
  Forall (fun x => f x = Ok (g x)) l → rmap f l = Ok (g <$> l).
Proof.
  intros Hl. apply rmap_Ok_Forall2.
  induction Hl; rewrite ?fmap_cons; constructor; done.
Qed.

Lemma len_nonneg {A} (l : list A) : 0 ≤ len l.
Proof. unfold len. lia. Qed.

Lemma sum_Z_nonneg (l : list Z) : Forall (fun z => 0 ≤ z) l → 0 ≤ sum_Z l.
Proof. induction 1; simpl; lia. Qed.

Lemma sum_Z_app (l1 l2 : list Z) : sum_Z (l1 ++ l2) = sum_Z l1 + sum_Z l2.
Proof. induction l1 as [|z l1 IH]; simpl; lia. Qed.

Lemma sum_Z_le (l1 l2 : list Z) : Forall2 Z.le l1 l2 → sum_Z l1 ≤ sum_Z l2.
Proof. induction 1; simpl; lia. Qed.

(** ** The vertex counter *)

Lemma count_vertices_nonneg {float} (geom : option (geometry float)) :
  0 ≤ count_vertices geom.
Proof.
  destruct geom as [[]|]; simpl; try lia; try apply len_nonneg.
  - apply sum_Z_nonneg, Forall_fmap, Forall_forall. intros; apply len_nonneg.
  - apply sum_Z_nonneg, Forall_fmap, Forall_forall. intros; apply len_nonneg.
Qed.

(** C3. The vertex counter is a function from a geometry (or none) to a
    non-negative integer: 0 for a missing geometry and for the unsupported
    types, 1 for a Point, the number of member points for a MultiPoint, the
    number of coordinates for a LineString, the sum over the member lines
    for a MultiLineString, the length of the exterior ring alone for a
    Polygon (whatever its holes), and the sum of the exterior-ring lengths
    for a MultiPolygon. *)
Theorem count_vertices_spec {float : Type} :
  (∀ geom : option (geometry float), 0 ≤ count_vertices geom) ∧
  count_vertices (float := float) None = 0 ∧
  (∀ geoms : list (geometry float),
      count_vertices (Some (GeometryCollection geoms)) = 0) ∧
  (∀ coords : list (list float),
      count_vertices (Some (LinearRing coords)) = 0) ∧
  (∀ position : option (list float),
      count_vertices (Some (Point position)) = 1) ∧
  (∀ geoms : list (option (list float)),
      count_vertices (Some (MultiPoint geoms)) = Z.of_nat (length geoms)) ∧
  (∀ coords : list (list float),
      count_vertices (Some (LineString coords)) = Z.of_nat (length coords)) ∧
  (∀ geoms : list (list (list float)),
      count_vertices (Some (MultiLineString geoms)) =
      sum_Z ((fun line => count_vertices (Some (LineString line))) <$> geoms)) ∧
  (∀ (exterior : list (list float)) interiors,
      count_vertices (Some (Polygon exterior interiors)) =
      Z.of_nat (length exterior)) ∧
  (∀ geoms : list (list (list float) * list (list (list float))),
      count_vertices (Some (MultiPolygon geoms)) =
      sum_Z ((fun poly => count_vertices (Some (Polygon (fst poly) (snd poly))))
               <$> geoms)).
Proof.
  split; [apply count_vertices_nonneg|].
  repeat split; reflexivity.
Qed.

(** ** Properties of the rounding pass *)

Section RoundCoords.
Context {float : Type} (round_float : Z → float → float).

#[local] Abbreviation rcoords := (round_coords round_float) (only parsing).
#[local] Abbreviation rnum := (py_round round_float) (only parsing).
#[local] Abbreviation rleaf := (round_leaf round_float) (only parsing).

Lemma py_round_Ok c c' :
  rnum c = Ok c' → c' = rleaf c ∧ is_number c' = true ∧ is_list c = false.
Proof. destruct c; simpl; intros [= <-] || done; done. Qed.

Lemma py_round_number c : is_number c = true → rnum c = Ok (rleaf c).
Proof. by destruct c. Qed.

Lemma round_coords_is_list x y : rcoords x = Ok y → is_list y = true.
Proof.
  destruct x as [| | | |s|items|]; simpl; try done.
  - by case_decide.
  - destruct items as [|c0 items]; [done|].
    destruct (is_list c0).
    + destruct (rmap _ _); simpl; [by intros [= <-]|done].
    + destruct (rmap _ _); simpl; [by intros [= <-]|done].
Qed.

(** What a successful call returns: the leaf-wise image of its argument. *)
Lemma round_coords_map_leaves x y :
  rcoords x = Ok y → y = map_leaves rleaf x.
Proof.
  revert y. induction x as [| | | |s|items IH|entries _] using pyval_nested_ind;
    intros y; simpl; try done.
  - by case_decide.
  - destruct items as [|c0 items]; [done|].
    destruct (is_list c0) eqn:Hc0.
    + destruct (rmap _ (c0 :: items)) as [items'|] eqn:Hmap; [|done].
      intros [= <-]. f_equal. by eapply rmap_Ok_ext.
    + destruct (rmap _ (c0 :: items)) as [items'|] eqn:Hmap; [|done].
      intros [= <-]. f_equal. eapply rmap_Ok_ext; [|done].
      apply Forall_forall. intros c _ c' (-> & _ & Hnl)%py_round_Ok. by destruct c.
Qed.

Lemma skeleton_map_leaves x :
  skeleton_of (map_leaves rleaf x) = skeleton_of x.
Proof.
  induction x as [| | | |s|items IH|entries _] using pyval_nested_ind;
    simpl; try done.
  f_equal. induction IH as [|x l Hx _ IHl]; simpl; [done|]. by f_equal.
Qed.

Lemma leaves_map_leaves x :
  leaves (map_leaves rleaf x) = rleaf <$> leaves x.
Proof.
  induction x as [| | | |s|items IH|entries _] using pyval_nested_ind;
    simpl; try done.
  induction IH as [|x l Hx _ IHl]; simpl; [done|].
  by rewrite fmap_app, Hx, IHl.
Qed.

(** A coordinate array is always accepted. *)
Lemma round_coords_total x :
  coord_array x → rcoords x = Ok (map_leaves rleaf x).
Proof.
  induction x as [| | | |s|items IH|entries _] using pyval_nested_ind;
    inversion 1 as [? Hne Hnum|? Hne Hnest]; subst.
  - destruct items as [|c0 items]; [done|].
    cbn [round_coords map_leaves].
    assert (is_list c0 = false) as ->.
    { inversion_clear Hnum as [|? ? Hc0 _]. by destruct c0. }
    rewrite (rmap_ext_Ok rnum (map_leaves rleaf)); [done|].
    eapply Forall_impl; [exact Hnum|]. intros c Hc.
    rewrite (py_round_number c Hc). by destruct c.
  - destruct items as [|c0 items]; [done|].
    cbn [round_coords map_leaves].
    assert (is_list c0 = true) as ->.
    { inversion_clear Hnest as [|? ? Hc0 _]. by inversion Hc0. }
    rewrite (rmap_ext_Ok rcoords (map_leaves rleaf)); [done|].
    apply Forall_forall. intros c Hc.
    rewrite Forall_forall in IH, Hnest. auto.
Qed.

(** With an idempotent [round] on floats, a returned array is a fixed point. *)
Hypothesis round_float_idem :
  ∀ f, round_float PRECISION (round_float PRECISION f) = round_float PRECISION f.

Lemma py_round_fixed c c' : rnum c = Ok c' → rnum c' = Ok c'.
Proof.
  destruct c; simpl; intros [= <-] || done; simpl; [done..|].
  by rewrite round_float_idem.
Qed.

Lemma round_coords_fixed x y : rcoords x = Ok y → rcoords y = Ok y.
Proof.
  revert y. induction x as [| | | |s|items IH|entries _] using pyval_nested_ind;
    intros y; simpl; try done.
  - by case_decide.
  - destruct items as [|c0 items]; [done|].
    destruct (is_list c0) eqn:Hc0.
    + destruct (rmap _ (c0 :: items)) as [items'|] eqn:Hmap; [|done].
      intros [= <-].
      assert (Forall (fun y => rcoords y = Ok y ∧ is_list y = true) items')
        as Hfix.
      { eapply rmap_Ok_Forall; [|exact Hmap].
        eapply Forall_impl; [exact IH|]. intros c Hc c' Hc'.
        split; [auto|]. by eapply round_coords_is_list. }
      destruct items' as [|y0 ys]; [by apply rmap_Ok_length in Hmap|].
      cbn [round_coords].
      destruct (Forall_inv Hfix) as [_ ->].
      rewrite rmap_fixed; [done|].
      eapply Forall_impl; [exact Hfix|]. by intros ? [? _].
    + destruct (rmap _ (c0 :: items)) as [items'|] eqn:Hmap; [|done].
      intros [= <-].
      assert (Forall (fun y => rnum y = Ok y ∧ is_list y = false) items')
        as Hfix.
      { eapply rmap_Ok_Forall; [|exact Hmap].
        apply Forall_forall. intros c _ c' Hc'.
        split; [by eapply py_round_fixed|].
        apply py_round_Ok in Hc' as (_ & Hn & _). by destruct c'. }
      destruct items' as [|y0 ys]; [by apply rmap_Ok_length in Hmap|].
      cbn [round_coords].
      destruct (Forall_inv Hfix) as [_ ->].
      rewrite rmap_fixed; [done|].
      eapply Forall_impl; [exact Hfix|]. by intros ? [? _].
Qed.

End RoundCoords.

Lemma fixed_round_multiple (k : Z) :
  fixed_round PRECISION (k * 1000) = k * 1000.
Proof.
  unfold fixed_round. change (10 ^ (9 - PRECISION)) with 1000.
  cbv zeta. by rewrite Z.mod_mul, Z.div_mul by lia.
Qed.

Lemma fixed_round_idem (x : Z) :
  fixed_round PRECISION (fixed_round PRECISION x) = fixed_round PRECISION x.
Proof.
  assert (∃ k, fixed_round PRECISION x = k * 1000) as [k ->].
  { unfold fixed_round. change (10 ^ (9 - PRECISION)) with 1000.
    cbv zeta. repeat case_match; eauto. }
  apply fixed_round_multiple.
Qed.

(** C2. The coordinate-rounding pass is idempotent: rounding the result of
    a rounding gives that same result, and where the first call raises the
    composition raises the same exception. Whenever it returns, the result
    has the nesting structure of the argument and the same leaves in the
    same order, each replaced by its rounding; and it does return on every
    coordinate array (non-empty lists of numbers, nested to any depth). The
    builtin [round] on floats is taken idempotent. *)
Theorem round_coords_idempotent {float : Type} (round_float : Z → float → float) :
  (∀ f, round_float PRECISION (round_float PRECISION f) = round_float PRECISION f) →
  (∀ x, round_coords round_float x ≫= round_coords round_float
        = round_coords round_float x) ∧
  (∀ x y, round_coords round_float x = Ok y →
      round_coords round_float y = Ok y ∧
      y = map_leaves (round_leaf round_float) x ∧
      skeleton_of y = skeleton_of x ∧
      leaves y = round_leaf round_float <$> leaves x) ∧
  (∀ x, coord_array x →
      round_coords round_float x = Ok (map_leaves (round_leaf round_float) x)).
Proof.
  intros Hidem. split; [|split].
  - intros x. destruct (round_coords round_float x) as [y|e] eqn:Hx; [|done].
    simpl. by eapply round_coords_fixed.
  - intros x y Hx. split; [by eapply round_coords_fixed|].
    apply round_coords_map_leaves in Hx as ->.
    split; [done|]. split; [apply skeleton_map_leaves|apply leaves_map_leaves].
  - apply round_coords_total.
Qed.

Lemma round_coords_idempotent_witness :
  round_coords fixed_round sample_coords =
    Ok (PList [PList [PFloat 2345679000; PFloat 48000000000];
               PList [PInt 3; PFloat 1500000000]]) ∧
  (round_coords fixed_round sample_coords ≫= round_coords fixed_round)
    = round_coords fixed_round sample_coords ∧
  (∀ y, round_coords fixed_round sample_coords = Ok y →
        skeleton_of y = skeleton_of sample_coords).
Proof.
  destruct (round_coords_idempotent fixed_round fixed_round_idem) as (H1 & H2 & H3).
  split; [reflexivity|]. split; [apply H1|].
  intros y Hy. by destruct (H2 _ _ Hy) as (_ & _ & ? & _).
Defined.

(** ** Geometry repair *)

Lemma filter_nil_Forall {A} (P : A → Prop) `{∀ x, Decision (P x)} (l : list A) :
  filter P l = [] ↔ Forall (fun x => ¬ P x) l.
Proof.
  induction l as [|x l IH]; [by split; [constructor|]|].
  rewrite filter_cons. destruct (decide (P x)) as [Hx|Hx].
  - split; [done|]. by inversion 1.
  - rewrite IH. split; [by constructor|by inversion 1].
Qed.

Lemma repair_untouched {float} is_valid buffer (gdf : GeoDataFrame float) :
  Forall (fun g => is_valid g = true) (gdf_geometry gdf) →
  validate_and_fix_geometries is_valid buffer gdf = (gdf, []).
Proof.
  intros Hall. unfold validate_and_fix_geometries.
  assert (filter (fun g => negb (is_valid g) = true) (gdf_geometry gdf) = []) as ->; [|done].
  apply filter_nil_Forall. eapply Forall_impl; [exact Hall|].
  intros g ->. done.
Qed.

Lemma repair_whole_column {float} is_valid buffer (gdf : GeoDataFrame float) :
  Exists (fun g => is_valid g = false) (gdf_geometry gdf) →
  (validate_and_fix_geometries is_valid buffer gdf).1
  = set_geometry gdf (buffer 0%Q <$> gdf_geometry gdf).
Proof.
  intros Hex. unfold validate_and_fix_geometries.
  destruct (filter _ (gdf_geometry gdf)) as [|g l] eqn:Hf.
  - apply filter_nil_Forall in Hf. apply Exists_exists in Hex as (g & Hg & Hinv).
    rewrite Forall_forall in Hf. specialize (Hf g Hg). by rewrite Hinv in Hf.
  - unfold len. simpl length.
    by assert ((0 <? Z.of_nat (S (length l))) = true) as -> by (apply Z.ltb_lt; lia).
Qed.

(** C4, as stated: every feature whose geometry is valid keeps it through
    the repair step. It fails on a bow tie followed by a point: the bow tie
    is invalid, so the whole column is buffered, and the point, which is
    valid, becomes the empty polygon. *)
Lemma repair_rewrites_valid_geometries :
  ¬ (∀ (is_valid : option (geometry Z) → bool)
       (buffer : Q → option (geometry Z) → option (geometry Z))
       (gdf : GeoDataFrame Z) (row : nat) (g : option (geometry Z)),
       gdf_geometry gdf !! row = Some g →
       is_valid g = true →
       gdf_geometry (validate_and_fix_geometries is_valid buffer gdf).1 !! row
       = Some g).
Proof.
  intros Hclaim.
  specialize (Hclaim sample_is_valid sample_buffer bowtie_and_point 1%nat
                (Some (Point (Some [deg 5; deg 5]))) eq_refl eq_refl).
  vm_compute in Hclaim. discriminate Hclaim.
Qed.

(** C4, amended. The repair step returns the collection as it is when no
    geometry is invalid. When at least one is, it replaces the geometry of
    every feature, valid or not, by its zero-distance buffer, in place: the
    attributes, the CRS and the order of the features are kept. *)
Theorem validate_and_fix_geometries_spec {float : Type}
    (is_valid : option (geometry float) → bool)
    (buffer : Q → option (geometry float) → option (geometry float))
    (gdf : GeoDataFrame float) :
  (Forall (fun g => is_valid g = true) (gdf_geometry gdf) →
   (validate_and_fix_geometries is_valid buffer gdf).1 = gdf) ∧
  (Exists (fun g => is_valid g = false) (gdf_geometry gdf) →
   gdf_geometry (validate_and_fix_geometries is_valid buffer gdf).1
     = buffer 0%Q <$> gdf_geometry gdf ∧
   gdf_attributes (validate_and_fix_geometries is_valid buffer gdf).1
     = gdf_attributes gdf ∧
   gdf_crs (validate_and_fix_geometries is_valid buffer gdf).1 = gdf_crs gdf).
Proof.
  split.
  - intros Hall. by rewrite repair_untouched.
  - intros Hex. by rewrite repair_whole_column.
Qed.

Lemma validate_and_fix_geometries_witness :
  (validate_and_fix_geometries sample_is_valid sample_buffer
     (name_and_extra (Some unit_square))).1 = name_and_extra (Some unit_square) ∧
  gdf_geometry (validate_and_fix_geometries sample_is_valid sample_buffer
                  bowtie_and_point).1
  = [Some bowtie; Some (Polygon [] [])].
Proof.
  split.
  - apply (validate_and_fix_geometries_spec sample_is_valid sample_buffer
             (name_and_extra (Some unit_square))).
    repeat constructor.
  - destruct (validate_and_fix_geometries_spec sample_is_valid sample_buffer
                bowtie_and_point) as [_ Hfix].
    destruct Hfix as (-> & _); [|reflexivity].
    apply Exists_cons_hd. reflexivity.
Defined.

(** ** Attribute cleaning *)

Section CleanAttributes.
Context {float : Type}.
Implicit Types (gdf : GeoDataFrame float) (a : string).

Lemma filter_ext_in {A} (P Q : A → Prop) `{!∀ x, Decision (P x)}
    `{!∀ x, Decision (Q x)} (l : list A) :
  (∀ x, x ∈ l → P x ↔ Q x) → filter P l = filter Q l.
Proof.
  induction l as [|x l IH]; intros Hext; [done|].
  rewrite !filter_cons.
  rewrite IH by (intros y Hy; apply Hext; by right).
  destruct (decide (P x)) as [HP|HP], (decide (Q x)) as [HQ|HQ]; try done;
    exfalso; apply (Hext x) in HP || apply (Hext x) in HQ; try done; by left.
Qed.

Lemma filter_all {A} (P : A → Prop) `{!∀ x, Decision (P x)} (l : list A) :
  (∀ x, x ∈ l → P x) → filter P l = l.
Proof.
  induction l as [|x l IH]; intros Hall; [done|].
  rewrite filter_cons, decide_True by (apply Hall; by left).
  rewrite IH; [done|]. intros y Hy. apply Hall. by right.
Qed.

Lemma filter_fmap_name (R : string → Prop) `{!∀ a, Decision (R a)}
    (attributes : list (column float)) :
  col_name <$> filter (fun c => R (col_name c)) attributes
  = filter R (col_name <$> attributes).
Proof.
  induction attributes as [|c l IH]; [done|].
  rewrite fmap_cons, !filter_cons. destruct (decide (R (col_name c)));
    rewrite ?fmap_cons; by rewrite IH.
Qed.

(** The internal columns are dropped, whether or not there is one. *)
Lemma internal_dropped_frame gdf :
  match filter (fun a => startswith a "__" = true) (gdf_columns gdf) with
  | [] => gdf
  | _ => drop_columns
           (filter (fun a => startswith a "__" = true) (gdf_columns gdf)) gdf
  end
  = set_attributes gdf
      (filter (fun c => startswith (col_name c) "__" = false) (gdf_attributes gdf)).
Proof.
  destruct (filter _ (gdf_columns gdf)) as [|c l] eqn:Hf.
  - apply filter_nil_Forall in Hf. rewrite Forall_forall in Hf.
    rewrite filter_all; [by destruct gdf|]. intros col Hcol.
    destruct (startswith (col_name col) "__") eqn:Hint; [|done].
    exfalso. apply (Hf (col_name col)); [|done].
    unfold gdf_columns. apply elem_of_app. left. by apply list_elem_of_fmap_2.
  - rewrite <- Hf. unfold drop_columns. f_equal.
    apply filter_ext_in. intros col Hcol. rewrite list_elem_of_filter.
    unfold gdf_columns. rewrite elem_of_app.
    destruct (startswith (col_name col) "__") eqn:Hint.
    + split; [|done]. intros Hno. exfalso. apply Hno. split; [done|].
      left. by apply list_elem_of_fmap_2.
    + split; [done|]. intros _ [Hyes _]. congruence.
Qed.

(** ['geometry'] is listed twice in [cols_to_keep] exactly when the
    allow-list names it. *)
Lemma geometry_listed_twice (columns keep : list string) :
  (1 < length (filter (fun name => name = "geometry")
                 ("geometry" :: filter (fun a => a ∈ columns ++ ["geometry"]) keep)))%nat
  ↔ "geometry" ∈ keep.
Proof.
  rewrite filter_cons, decide_True by done. cbn [length].
  rewrite list_filter_filter.
  split.
  - intros Hlen. destruct (filter _ keep) as [|a l] eqn:Hf; [simpl in Hlen; lia|].
    assert (a ∈ filter (fun a => a = "geometry" ∧ a ∈ columns ++ ["geometry"]) keep)
      as [[-> _] ?]%list_elem_of_filter by (rewrite Hf; by left).
    done.
  - intros Hin.
    assert ("geometry" ∈ filter (fun a => a = "geometry" ∧ a ∈ columns ++ ["geometry"])
                           keep) as Hin'.
    { apply list_elem_of_filter. split; [|done]. split; [done|].
      apply elem_of_app. right. by left. }
    destruct (filter _ keep); [by apply elem_of_nil in Hin'|]. simpl. lia.
Qed.

Lemma normalised_names (attributes : list (column float)) :
  col_name <$> (null_to_None <$> convert_dates attributes) = col_name <$> attributes.
Proof.
  unfold convert_dates. rewrite <- !list_fmap_compose.
  apply list_fmap_ext. intros _ col _. simpl.
  case_decide; [|done]. unfold dates_to_strings. by destruct (col_dtype col).
Qed.

Lemma elem_of_selected (cols : list string) (attributes : list (column float))
    (col : column float) :
  col ∈ cols ≫= (fun name => filter (fun c => col_name c = name) attributes) ↔
  col_name col ∈ cols ∧ col ∈ attributes.
Proof.
  rewrite list_elem_of_bind. split.
  - intros (name & [<- Hcol]%list_elem_of_filter & Hname). done.
  - intros [Hname Hcol]. exists (col_name col). split; [|done].
    by apply list_elem_of_filter.
Qed.

(** The frame that the cleaning returns, and when it raises. *)
Lemma clean_attributes_eq keep gdf :
  clean_attributes keep gdf
  = if decide ("geometry" ∈ keep) then Raise (ExternalError "ValueError")
    else Ok (set_attributes gdf
               (null_to_None <$> convert_dates (selected_columns keep gdf))).
Proof.
  unfold clean_attributes, selected_columns. cbv zeta.
  rewrite internal_dropped_frame.
  destruct keep as [|k keep].
  - rewrite decide_False by (by intros ?%elem_of_nil). done.
  - unfold select_columns, gdf_columns. cbn [gdf_attributes set_attributes].
    destruct (decide ("geometry" ∈ k :: keep)) as [Hin|Hout].
    + rewrite decide_True by (by apply geometry_listed_twice). done.
    + rewrite decide_False by (by rewrite geometry_listed_twice). done.
Qed.

Lemma elem_of_selected_columns keep gdf (col : column float) :
  col ∈ selected_columns keep gdf ↔
  (keep = [] ∨ col_name col ∈ keep ∨ col_name col = "geometry") ∧
  col ∈ gdf_attributes gdf ∧ startswith (col_name col) "__" = false.
Proof.
  unfold selected_columns. cbv zeta. destruct keep as [|k keep].
  - rewrite list_elem_of_filter. tauto.
  - rewrite elem_of_selected, elem_of_cons, !list_elem_of_filter, elem_of_app.
    rewrite list_elem_of_singleton. split.
    + intros [[?|[_ ?]] [? ?]]; auto.
    + intros [[[=]|[?|?]] [? ?]]; [|by auto].
      split; [|done]. right. split; [|done]. left.
      apply (list_elem_of_fmap_2 col_name). by apply list_elem_of_filter.
Qed.

Lemma clean_attributes_names keep gdf gdf' a :
  clean_attributes keep gdf = Ok gdf' →
  a ∈ attribute_names gdf' ↔
  (keep = [] ∨ a ∈ keep ∨ a = "geometry") ∧
  a ∈ attribute_names gdf ∧ startswith a "__" = false.
Proof.
  rewrite clean_attributes_eq. case_decide; [done|]. intros [= <-].
  unfold attribute_names. cbn [gdf_attributes set_attributes].
  rewrite normalised_names, !list_elem_of_fmap. split.
  - intros (col & Ha & Hcol). apply elem_of_selected_columns in Hcol.
    rewrite Ha. destruct Hcol as (? & ? & ?). split; [done|]. split; [|done].
    by exists col.
  - intros (Hlisted & (col & Ha & Hcol) & Hint). exists col. split; [done|].
    apply elem_of_selected_columns. by rewrite <- Ha.
Qed.

End CleanAttributes.


Lemma mixed_frame_has_no_geometry_attribute :
  "geometry" ∉ attribute_names mixed_frame.
Proof. apply (bool_decide_unpack _). vm_compute. exact I. Qed.

(** ** Simplification and its report *)

Lemma total_vertices_Ok {float} (geoms : list (option (geometry float))) :
  geoms ≠ [] → total_vertices geoms = Ok (sum_Z (count_vertices <$> geoms)).
Proof. by destruct geoms. Qed.

Lemma sum_vertices_nonneg {float} (geoms : list (option (geometry float))) :
  0 ≤ sum_Z (count_vertices <$> geoms).
Proof.
  apply sum_Z_nonneg, Forall_fmap, Forall_forall.
  intros g _. apply count_vertices_nonneg.
Qed.

Lemma simplify_geometries_Ok {float} (lib : collaborators float) (cfg : settings)
    (gdf : GeoDataFrame float) :
  gdf_geometry gdf ≠ [] →
  simplify_geometries lib cfg gdf
  = Ok (set_geometry gdf (simplify lib (simplify_tolerance cfg) <$> gdf_geometry gdf),
        sum_Z (count_vertices <$> gdf_geometry gdf),
        sum_Z (count_vertices <$>
                 (simplify lib (simplify_tolerance cfg) <$> gdf_geometry gdf))).
Proof.
  intros Hne. unfold simplify_geometries.
  rewrite (total_vertices_Ok (gdf_geometry gdf)) by done.
  cbn [mbind result_bind set_geometry gdf_geometry].
  rewrite total_vertices_Ok; [done|]. by destruct (gdf_geometry gdf).
Qed.

Lemma simplify_geometries_empty {float} (lib : collaborators float) (cfg : settings)
    (gdf : GeoDataFrame float) :
  gdf_geometry gdf = [] → simplify_geometries lib cfg gdf = Raise TypeError.
Proof. intros Hnil. unfold simplify_geometries. by rewrite Hnil. Qed.

(** C7. A layer without any feature counts no vertex, and the step does not
    report the plain line for it: the count before, line 198, raises
    [TypeError] on a series without element, before the test of line 207 is
    reached, and the job fails with that error as its only line. No division
    is made. *)
Theorem empty_collection_fails_before_report :
  (∀ (float : Type) (lib : collaborators float) (cfg : settings)
     (gdf : GeoDataFrame float),
      simplify_geometries lib cfg (set_geometry gdf []) = Raise TypeError) ∧
  (process_layer sample_lib config "lots" lots_config
     (world_of_source (Ok empty_frame))).1 = false ∧
  log (process_layer sample_lib config "lots" lots_config
         (world_of_source (Ok empty_frame))).2
  = [LogLayerError "lots" TypeError] ∧
  processed_files (process_layer sample_lib config "lots" lots_config
                     (world_of_source (Ok empty_frame))).2 = ∅.
Proof.
  split; [intros; by apply simplify_geometries_empty|].
  split; [vm_compute; reflexivity|]. split; vm_compute; reflexivity.
Qed.

(** ** File names and their order *)

Lemma ascii_compare_refl (c : ascii) : Ascii.compare c c = Eq.
Proof. unfold Ascii.compare. apply N.compare_refl. Qed.

Lemma compare_refl (s : string) : (s ?= s)%string = Eq.
Proof. induction s as [|c s IH]; simpl; [done|]. by rewrite ascii_compare_refl. Qed.

(** [s1] sorts strictly before [s2]. *)
Lemma compare_Lt_le (s1 s2 : string) :
  (s1 ?= s2)%string = Lt → String.le s1 s2 ∧ s1 ≠ s2.
Proof.
  intros Hlt. split.
  - unfold String.le, String.leb. by rewrite Hlt.
  - intros ->. rewrite compare_refl in Hlt. discriminate.
Qed.

Lemma append_cons (c : ascii) (s t : string) :
  String c s +:+ t = String c (s +:+ t).
Proof. reflexivity. Qed.

Lemma compare_app_l (s t1 t2 : string) :
  (s +:+ t1 ?= s +:+ t2)%string = (t1 ?= t2)%string.
Proof.
  induction s as [|c s IH]; [done|].
  rewrite ?append_cons. simpl. by rewrite ascii_compare_refl.
Qed.

(** Strings of one length compare before whatever follows them. *)
Lemma compare_app_same_length (a1 a2 b1 b2 : string) :
  String.length a1 = String.length a2 →
  (a1 +:+ b1 ?= a2 +:+ b2)%string
  = match (a1 ?= a2)%string with
    | Eq => (b1 ?= b2)%string
    | c => c
    end.
Proof.
  revert a2. induction a1 as [|c1 a1 IH]; intros [|c2 a2]; simpl; try done.
  intros [= Hlen].
  rewrite ?append_cons. simpl. destruct (Ascii.compare c1 c2); auto.
Qed.

Lemma strip_prefix_app (p rest : string) : strip_prefix p (p +:+ rest) = Some rest.
Proof.
  induction p as [|c p IH]; [by destruct rest|].
  rewrite ?append_cons. simpl. by rewrite Ascii.eqb_refl.
Qed.

Lemma endswith_refl (s : string) : endswith s s = true.
Proof. destruct s; cbn [endswith]; by rewrite bool_decide_eq_true_2. Qed.

Lemma endswith_app (s suffix : string) : endswith (s +:+ suffix) suffix = true.
Proof.
  induction s as [|c s IH].
  - apply endswith_refl.
  - rewrite append_cons. cbn [endswith]. rewrite IH. apply orb_true_r.
Qed.

Lemma append_assoc (a b c : string) : (a +:+ b) +:+ c = a +:+ (b +:+ c).
Proof.
  induction a as [|x a IH]; [done|].
  by rewrite !append_cons, IH.
Qed.

(** A name built as [f"{stem}_{timestamp}{suffix}"] matches the pattern
    [f"{stem}_*{suffix}"]. *)
Lemma glob_match_backup_name (stem suffix timestamp : string) :
  glob_match stem suffix (stem +:+ "_" +:+ timestamp +:+ suffix) = true.
Proof.
  unfold glob_match.
  assert (stem +:+ "_" +:+ timestamp +:+ suffix
          = (stem +:+ "_") +:+ (timestamp +:+ suffix)) as ->
    by by rewrite append_assoc.
  rewrite strip_prefix_app. apply endswith_app.
Qed.

(** *** Timestamps sort as time goes *)

Lemma pad2_compare (a b : nat) :
  (a < 100)%nat → (b < 100)%nat →
  (pad2 a ?= pad2 b)%string = (a ?= b)%nat.
Proof.
  intros Ha Hb.
  assert (forallb (fun a => forallb (fun b =>
            comparison_eqb (pad2 a ?= pad2 b)%string (a ?= b)%nat)
            (seq 0 100)) (seq 0 100) = true) as Hall by (vm_compute; reflexivity).
  rewrite forallb_forall in Hall.
  specialize (Hall a). rewrite forallb_forall in Hall.
  assert (comparison_eqb (pad2 a ?= pad2 b)%string (a ?= b)%nat = true) as Hab.
  { apply Hall; apply in_seq; lia. }
  by destruct (pad2 a ?= pad2 b)%string, (a ?= b)%nat.
Qed.

Lemma pad2_length (a : nat) : String.length (pad2 a) = 2%nat.
Proof. reflexivity. Qed.

Lemma pad4_length (a : nat) : String.length (pad4 a) = 4%nat.
Proof. reflexivity. Qed.

Lemma strftime_stamp_length (t : datetime) : String.length (strftime_stamp t) = 15%nat.
Proof. reflexivity. Qed.

(** For datetimes within range, the stamp of the earlier one sorts strictly
    before the stamp of the later one. *)
Lemma strftime_stamp_chrono (t1 t2 : datetime) :
  valid_datetime t1 → valid_datetime t2 →
  chrono t1 < chrono t2 →
  (strftime_stamp t1 ?= strftime_stamp t2)%string = Lt.
Proof.
  intros (Hy1 & Hm1 & Hd1 & HH1 & HM1 & HS1) (Hy2 & Hm2 & Hd2 & HH2 & HM2 & HS2).
  unfold chrono, strftime_stamp, pad4. intros Hlt.
  pose proof (Nat.div_mod_eq (year t1) 100) as Hq1.
  pose proof (Nat.div_mod_eq (year t2) 100) as Hq2.
  pose proof (Nat.mod_upper_bound (year t1) 100) as Hr1.
  pose proof (Nat.mod_upper_bound (year t2) 100) as Hr2.
  assert (year t1 / 100 < 100)%nat as Hc1 by (apply Nat.Div0.div_lt_upper_bound; lia).
  assert (year t2 / 100 < 100)%nat as Hc2 by (apply Nat.Div0.div_lt_upper_bound; lia).
  rewrite !append_assoc.
  repeat (rewrite compare_app_same_length by reflexivity;
          rewrite ?pad2_compare by lia).
  change ("_" ?= "_")%string with Eq. cbv iota.
  repeat match goal with
         | |- context [(?a ?= ?b)%nat] =>
             destruct (Nat.compare_spec a b); try reflexivity; try lia
         end.
Qed.

(** ** The backup manager *)

Section Backup.
Context {float : Type}.
Implicit Types (w : world float) (files : gmap string (pyval float)).

Lemma lookup_foldl_delete files (names : list string) (k : string) :
  foldl (fun files old => delete old files) files names !! k
  = if decide (k ∈ names) then None else files !! k.
Proof.
  revert files. induction names as [|n names IH]; intros files; cbn [foldl].
  - by rewrite decide_False by apply not_elem_of_nil.
  - rewrite IH. destruct (decide (k = n)) as [->|Hne].
    + rewrite lookup_delete_eq. rewrite (decide_True (P := n ∈ n :: names)) by left.
      by case_decide.
    + rewrite lookup_delete_ne by done.
      destruct (decide (k ∈ names)) as [Hin|Hnin].
      * by rewrite decide_True by by right.
      * rewrite decide_False; [done|]. by intros [?|?]%elem_of_cons.
Qed.

(** *** The sorted listing of the archived copies *)

Lemma elem_of_sorted_glob stem suffix files (name : string) :
  name ∈ sorted_glob stem suffix files ↔
  glob_match stem suffix name = true ∧ is_Some (files !! name).
Proof.
  unfold sorted_glob. rewrite merge_sort_Permutation, list_elem_of_filter.
  rewrite list_elem_of_fmap. split.
  - intros [Hm ([k v] & -> & Hin%elem_of_map_to_list)]. eauto.
  - intros [Hm [v Hv]]. split; [done|]. exists (name, v).
    split; [done|]. by apply elem_of_map_to_list.
Qed.

Lemma NoDup_sorted_glob stem suffix files : NoDup (sorted_glob stem suffix files).
Proof.
  unfold sorted_glob. rewrite merge_sort_Permutation.
  apply NoDup_filter, NoDup_fst_map_to_list.
Qed.

Lemma Sorted_sorted_glob stem suffix files :
  Sorted String.le (sorted_glob stem suffix files).
Proof. apply Sorted_merge_sort, _. Qed.

(** A sorted list without repetition that holds the matching entries is the
    listing. *)
Lemma sorted_glob_unique stem suffix files (l : list string) :
  Sorted String.le l → NoDup l →
  (∀ name, name ∈ l ↔ glob_match stem suffix name = true ∧ is_Some (files !! name)) →
  sorted_glob stem suffix files = l.
Proof.
  intros Hsorted Hnodup Helem.
  apply (Sorted_unique String.le); [apply Sorted_sorted_glob|done|].
  apply NoDup_Permutation; [apply NoDup_sorted_glob|done|].
  intros name. by rewrite elem_of_sorted_glob, Helem.
Qed.

(** The entries to remove are distinct entries of the listing. *)
Lemma stale_NoDup stem suffix files :
  NoDup (all_but_last_3 (sorted_glob stem suffix files)).
Proof. eapply sublist_NoDup; [apply NoDup_sorted_glob|apply sublist_take]. Qed.

Lemma stale_there stem suffix files (name : string) :
  name ∈ all_but_last_3 (sorted_glob stem suffix files) →
  glob_match stem suffix name = true ∧ is_Some (files !! name).
Proof.
  intros Hname. apply elem_of_sorted_glob.
  eapply elem_of_sublist; [exact Hname|apply sublist_take].
Qed.

(** *** Removing the stale copies *)

Lemma unlink_removes (name : string) w :
  name ∉ locked w → is_Some (backup_files w !! name) →
  unlink name w = (Ok (), set_backup_files (delete name (backup_files w)) w).
Proof.
  intros Hfree [content Hname]. unfold unlink.
  rewrite decide_False by done. by rewrite Hname.
Qed.

Lemma unlink_locked (name : string) w :
  name ∈ locked w → unlink name w = (Raise (PermissionError name), w).
Proof. intros Hlocked. unfold unlink. by rewrite decide_True. Qed.

(** The loop removes, in order, entries that are all there and free. *)
Lemma for_each_unlink (stale : list string) w :
  NoDup stale →
  Forall (fun old => (old ∉ locked w) ∧ is_Some (backup_files w !! old)) stale →
  for_each (fun old => _ ← unlink old; logger (LogBackupDeleted old)) stale w
  = (Ok (), after_deleting stale w).
Proof.
  revert w. induction stale as [|old stale IH]; intros w Hnodup Hall.
  - unfold after_deleting. simpl. rewrite app_nil_r. by destruct w.
  - apply NoDup_cons in Hnodup as [Hnotin Hnodup].
    apply Forall_cons in Hall as [[Hfree Hthere] Hall].
    cbn [for_each]. unfold mbind at 1, M_bind at 1. unfold mbind at 1, M_bind at 1.
    rewrite unlink_removes by done. cbn [logger set_backup_files].
    rewrite IH; [|done|].
    + unfold after_deleting. cbn. by rewrite <- app_assoc.
    + cbn. rewrite Forall_forall in Hall |- *. intros name Hname.
      destruct (Hall name Hname) as [Hfree' Hthere']. split; [done|].
      rewrite lookup_delete_ne; [done|]. by intros ->.
Qed.

(** *** One call *)

Lemma backup_existing_file_absent (output_name : string) w :
  processed_files w !! output_name = None →
  backup_existing_file output_name w = (Ok (), w).
Proof. intros Hnone. unfold backup_existing_file. by rewrite Hnone. Qed.

(** What the listing holds once the stale entries are gone: its last three. *)
Lemma sorted_glob_after_deleting stem suffix w :
  sorted_glob stem suffix
    (backup_files
       (after_deleting (all_but_last_3 (sorted_glob stem suffix (backup_files w))) w))
  = last_3 (sorted_glob stem suffix (backup_files w)).
Proof.
  set (backups := sorted_glob stem suffix (backup_files w)).
  pose proof (NoDup_sorted_glob stem suffix (backup_files w)) as Hnodup.
  pose proof (Sorted_sorted_glob stem suffix (backup_files w)) as Hsorted.
  fold backups in Hnodup, Hsorted.
  unfold all_but_last_3, last_3. set (k := (length backups - 3)%nat).
  rewrite <- (take_drop k backups) in Hnodup, Hsorted.
  apply NoDup_app in Hnodup as (_ & Hdisjoint & Hnodup).
  apply Sorted_StronglySorted in Hsorted; [|apply _].
  apply StronglySorted_app_1_r, StronglySorted_Sorted in Hsorted.
  apply sorted_glob_unique; [done..|].
  intros name. unfold after_deleting. cbn [backup_files].
  rewrite lookup_foldl_delete.
  assert (name ∈ backups ↔ name ∈ take k backups ∨ name ∈ drop k backups) as Hsplit.
  { by rewrite <- elem_of_app, take_drop. }
  unfold backups in Hsplit at 1. rewrite elem_of_sorted_glob in Hsplit.
  case_decide as Hstale.
  - split; [intros Hin; by apply Hdisjoint in Hstale|]. by intros [_ []%is_Some_None].
  - rewrite Hsplit. tauto.
Qed.

Lemma last_3_length {A} (l : list A) : (length (last_3 l) ≤ 3)%nat.
Proof. unfold last_3. rewrite length_drop. lia. Qed.

(** The call on an output that exists, when none of the entries to remove
    is locked: the copy, then the removal of all but the last three of the
    listing. *)
Lemma backup_existing_file_present (output_name : string) w content :
  processed_files w !! output_name = Some content →
  let backup_name :=
    backup_name_of output_name (strftime_stamp (clock w (reads w))) in
  let backups :=
    sorted_glob (path_stem output_name) (path_suffix output_name)
      (<[backup_name := content]> (backup_files w)) in
  Forall (fun old => old ∉ locked w) (all_but_last_3 backups) →
  backup_existing_file output_name w
  = (Ok (), after_deleting (all_but_last_3 backups) (after_copy backup_name content w)).
Proof.
  intros Hsome backup_name backups Hfree.
  unfold backup_existing_file. rewrite Hsome.
  unfold mbind, M_bind, datetime_now, copy2, logger, list_backups,
    set_backup_files. cbn.
  fold backup_name. fold backups.
  change {| raw_files := raw_files w; processed_files := processed_files w;
            backup_files := <[backup_name:=content]> (backup_files w);
            locked := locked w; clock := clock w; reads := S (reads w);
            log := log w ++ [LogBackupCreated backup_name] |}
    with (after_copy backup_name content w).
  apply for_each_unlink.
  - eapply sublist_NoDup; [apply NoDup_sorted_glob|apply sublist_take].
  - rewrite Forall_forall in Hfree |- *. intros old Hold.
    split; [by apply Hfree|].
    assert (old ∈ backups) as Hin.
    { eapply elem_of_sublist; [exact Hold|apply sublist_take]. }
    by apply elem_of_sorted_glob in Hin as [_ ?].
Qed.

(** *** Copies made in the order of time *)

Lemma sorted_glob_insert_last stem suffix files (name : string) content :
  glob_match stem suffix name = true →
  Forall (fun old => sorts_before old name) (sorted_glob stem suffix files) →
  sorted_glob stem suffix (<[name := content]> files)
  = sorted_glob stem suffix files ++ [name].
Proof.
  intros Hmatch Hbefore. rewrite Forall_forall in Hbefore.
  apply sorted_glob_unique.
  - apply StronglySorted_Sorted, StronglySorted_app_2.
    + intros old x Hold ->%list_elem_of_singleton. by apply Hbefore.
    + apply Sorted_StronglySorted; [apply _|apply Sorted_sorted_glob].
    + repeat constructor.
  - apply NoDup_app. split; [apply NoDup_sorted_glob|]. split.
    + intros old Hold ->%list_elem_of_singleton. by apply Hbefore in Hold as [_ ?].
    + apply NoDup_singleton.
  - intros n. rewrite elem_of_app, list_elem_of_singleton, elem_of_sorted_glob.
    destruct (decide (n = name)) as [->|Hne].
    + rewrite lookup_insert_eq. split; [by eauto|by right].
    + rewrite lookup_insert_ne by done. tauto.
Qed.

Lemma backup_name_of_chrono (output_name : string) (t1 t2 : datetime) :
  valid_datetime t1 → valid_datetime t2 → chrono t1 < chrono t2 →
  sorts_before (backup_name_of output_name (strftime_stamp t1))
               (backup_name_of output_name (strftime_stamp t2)).
Proof.
  intros Hv1 Hv2 Hlt. apply compare_Lt_le. unfold backup_name_of.
  rewrite !compare_app_l.
  rewrite compare_app_same_length by by rewrite !strftime_stamp_length.
  by rewrite strftime_stamp_chrono.
Qed.

End Backup.

Lemma sorts_before_trans (a b c : string) :
  sorts_before a b → sorts_before b c → sorts_before a c.
Proof.
  intros [Hab Hne] [Hbc Hne']. split; [by etrans|].
  intros ->. apply Hne. by apply (anti_symm String.le).
Qed.

Lemma last_3_app_last_3 {A} (l r : list A) :
  last_3 (last_3 l ++ r) = last_3 (l ++ r).
Proof.
  unfold last_3. rewrite !drop_app, drop_drop, !length_app, !length_drop.
  f_equal; f_equal; lia.
Qed.

Lemma all_but_last_3_app {A} (l r : list A) :
  all_but_last_3 (l ++ r) = all_but_last_3 l ++ all_but_last_3 (last_3 l ++ r).
Proof.
  unfold all_but_last_3, last_3.
  rewrite <- (take_drop (length l - 3) l) at 2.
  rewrite <- app_assoc, take_app.
  rewrite !length_app, !length_drop, !length_take.
  rewrite (take_ge (take _ l)) by (rewrite length_take; lia).
  f_equal. f_equal. lia.
Qed.

Lemma last_3_app_ge {A} (l r : list A) :
  (3 ≤ length r)%nat → last_3 (l ++ r) = last_3 r.
Proof.
  intros Hlen. unfold last_3. rewrite drop_app, length_app.
  rewrite drop_ge by lia. simpl. f_equal. lia.
Qed.

Lemma last_3_seq {A} (f : nat → A) (r n : nat) :
  (3 ≤ n)%nat →
  last_3 (f <$> seq r n) = [f (r + n - 3)%nat; f (r + n - 2)%nat; f (r + n - 1)%nat].
Proof.
  intros Hn. replace n with ((n - 3) + 3)%nat at 1 by lia.
  rewrite seq_app, fmap_app. unfold last_3.
  rewrite drop_app_length'.
  - simpl. repeat f_equal; lia.
  - rewrite length_app, !length_fmap, !length_seq. lia.
Qed.


Lemma deleted_backups_app (l1 l2 : list log_record) :
  deleted_backups (l1 ++ l2) = deleted_backups l1 ++ deleted_backups l2.
Proof. unfold deleted_backups. apply bind_app. Qed.

Lemma deleted_backups_removals (names : list string) :
  deleted_backups (LogBackupDeleted <$> names) = names.
Proof.
  unfold deleted_backups. induction names as [|n names IH]; [done|].
  rewrite fmap_cons, bind_cons, IH. done.
Qed.

Section Retention.
Context {float : Type} (output_name : string).
Implicit Types (w : world float).

#[local] Abbreviation archives w :=
  (sorted_glob (path_stem output_name) (path_suffix output_name) (backup_files w)).
#[local] Abbreviation unlocked w :=
  (∀ name, glob_match (path_stem output_name) (path_suffix output_name) name = true →
           name ∉ locked w).

(** One call on an existing output whose archived copies can be removed. *)
Lemma backup_step w content :
  processed_files w !! output_name = Some content →
  unlocked w →
  let backups :=
    sorted_glob (path_stem output_name) (path_suffix output_name)
      (<[backup_name_of output_name (strftime_stamp (clock w (reads w))) := content]>
         (backup_files w)) in
  ∃ w', backup_existing_file output_name w = (Ok (), w') ∧
        archives w' = last_3 backups ∧
        log w' = log w
                 ++ LogBackupCreated
                      (backup_name_of output_name (strftime_stamp (clock w (reads w))))
                    :: (LogBackupDeleted <$> all_but_last_3 backups) ∧
        processed_files w' = processed_files w ∧ locked w' = locked w ∧
        clock w' = clock w ∧ reads w' = S (reads w).
Proof.
  intros Hsome Hfree backups. eexists. split.
  - apply backup_existing_file_present; [done|].
    apply Forall_forall. intros old Hold. apply Hfree.
    assert (old ∈ backups) as Hin.
    { eapply elem_of_sublist; [exact Hold|apply sublist_take]. }
    by apply elem_of_sorted_glob in Hin as [? _].
  - split; [apply (sorted_glob_after_deleting _ _ (after_copy _ content w))|].
    unfold after_deleting, after_copy. cbn. by rewrite <- app_assoc.
Qed.

(** [S n] calls in a row, the clock advancing, every entry that matches the
    pattern sorting before the first new copy. *)
Lemma repeat_backup_spec (n : nat) : ∀ w,
  is_Some (processed_files w !! output_name) →
  unlocked w →
  clock_advances w (S n) →
  Forall (fun old =>
            sorts_before old
              (backup_name_of output_name (strftime_stamp (clock w (reads w)))))
         (archives w) →
  ∃ w', repeat_backup output_name (S n) w = (Ok (), w') ∧
        archives w' = last_3 (archives w ++ next_backup_names output_name w (S n)) ∧
        deleted_backups (log w')
        = deleted_backups (log w)
          ++ all_but_last_3 (archives w ++ next_backup_names output_name w (S n)) ∧
        processed_files w' = processed_files w.
Proof.
  induction n as [|n IH]; intros w [content Hsome] Hfree [Hvalid Hadvance] Hbefore.
  - destruct (backup_step w content Hsome Hfree)
      as (w' & Hcall & Harch & Hlog & Hproc & _).
    exists w'. cbn [repeat_backup]. unfold mbind, M_bind. rewrite Hcall.
    rewrite sorted_glob_insert_last in Harch, Hlog
      by (done || apply glob_match_backup_name).
    unfold next_backup_names. cbn [seq fmap list_fmap].
    split; [done|]. split; [done|]. split; [|done].
    rewrite Hlog, deleted_backups_app.
    change (?x :: ?l) with ([x] ++ l).
    by rewrite deleted_backups_app, deleted_backups_removals.
  - destruct (backup_step w content Hsome Hfree)
      as (w1 & Hcall & Harch & Hlog & Hproc & Hlocked & Hclock & Hreads).
    rewrite sorted_glob_insert_last in Harch, Hlog
      by (done || apply glob_match_backup_name).
    destruct (IH w1) as (w' & Hrest & Harch' & Hlog' & Hproc').
    + rewrite Hproc. eauto.
    + intros name. rewrite Hlocked. apply Hfree.
    + unfold clock_advances. rewrite Hclock, Hreads. split.
      * intros i Hi. apply Hvalid. lia.
      * intros i j Hi Hij Hj. apply Hadvance; lia.
    + rewrite Harch, Hclock, Hreads. apply Forall_forall. intros old Hold.
      assert (sorts_before
                (backup_name_of output_name (strftime_stamp (clock w (reads w))))
                (backup_name_of output_name (strftime_stamp (clock w (S (reads w))))))
        as Hnext.
      { apply backup_name_of_chrono; [apply Hvalid; lia..|]. apply Hadvance; lia. }
      assert (old ∈ archives w
                    ++ [backup_name_of output_name (strftime_stamp (clock w (reads w)))])
        as [Hin| ->%list_elem_of_singleton]%elem_of_app.
      { eapply elem_of_sublist; [exact Hold|]. apply sublist_drop. }
      * rewrite Forall_forall in Hbefore.
        eapply sorts_before_trans; [|exact Hnext]. by apply Hbefore.
      * done.
    + exists w'. change (repeat_backup output_name (S (S n)) w)
        with ((_ ← backup_existing_file (float := float) output_name;
               repeat_backup output_name (S n)) w).
      unfold mbind at 1, M_bind at 1. rewrite Hcall.
      split; [done|].
      assert (next_backup_names output_name w (S (S n))
              = backup_name_of output_name (strftime_stamp (clock w (reads w)))
                :: next_backup_names output_name w1 (S n)) as ->.
      { unfold next_backup_names. by rewrite Hclock, Hreads. }
      rewrite Harch', Hlog', Harch, Hproc', Hproc.
      split; [|split; [|done]].
      * rewrite last_3_app_last_3, <- app_assoc. done.
      * rewrite Hlog, deleted_backups_app.
        change (LogBackupCreated ?x :: ?l) with ([LogBackupCreated x] ++ l).
        rewrite deleted_backups_app, deleted_backups_removals. cbn [deleted_backups].
        rewrite <- !app_assoc. f_equal. simpl.
        rewrite <- all_but_last_3_app. by rewrite <- app_assoc.
Qed.

End Retention.

(** The names of successive copies sort as they were made. *)
Lemma next_backup_names_sorted {float} (output_name : string) (w : world float) (n : nat) :
  clock_advances w n →
  StronglySorted sorts_before (next_backup_names output_name w n).
Proof.
  unfold clock_advances, next_backup_names. generalize (reads w) as r.
  induction n as [|n IH]; intros r [Hvalid Hadvance]; [constructor|].
  cbn [seq fmap list_fmap]. constructor.
  - apply (IH (S r)). split.
    + intros i Hi. apply Hvalid. lia.
    + intros i j Hi Hij Hj. apply Hadvance; lia.
  - apply Forall_forall. intros name (j & -> & Hj%elem_of_seq)%list_elem_of_fmap.
    apply backup_name_of_chrono; [apply Hvalid; lia..|]. apply Hadvance; lia.
Qed.

Lemma StronglySorted_strict (l : list string) :
  Sorted String.le l → NoDup l → StronglySorted sorts_before l.
Proof.
  intros Hsorted%Sorted_StronglySorted; [|apply _].
  induction Hsorted as [|x l Hl IH Hx]; intros Hnodup; [constructor|].
  apply NoDup_cons in Hnodup as [Hnotin Hnodup]. constructor; [auto|].
  rewrite Forall_forall in Hx |- *. intros y Hy. split; [auto|]. by intros ->.
Qed.


Lemma sample_clock_advances_4 : clock_advances (later_run ∅) 4.
Proof.
  split.
  - intros i Hi. cbn in Hi.
    assert (i = 0 ∨ i = 1 ∨ i = 2 ∨ i = 3)%nat as Hcases by lia.
    destruct Hcases as [-> | [-> | [-> | ->]]]; vm_compute; repeat split; lia || discriminate.
  - intros i j Hi Hij Hj. cbn in Hi, Hj.
    assert (j = 1 ∨ j = 2 ∨ j = 3)%nat as Hj' by lia.
    assert (i = 0 ∨ i = 1 ∨ i = 2)%nat as Hi' by lia.
    destruct Hj' as [-> | [-> | ->]], Hi' as [-> | [-> | ->]]; try lia; reflexivity.
Qed.



(** ** The orchestration *)

Section Orchestration.
Context {float : Type} (lib : collaborators float) (cfg : settings).

Lemma process_layer_missing_source layer_name layer_config (w : world float) :
  raw_files w !! source_file layer_config = None →
  process_layer lib cfg layer_name layer_config w
  = (false, (logger (LogSourceNotFound (source_file layer_config)) w).2).
Proof. intros Hnone. unfold process_layer. by rewrite Hnone. Qed.

(** Whatever the steps raise is caught at the boundary of the job. *)
Lemma process_layer_caught layer_name layer_config (w w' : world float) e :
  is_Some (raw_files w !! source_file layer_config) →
  process_layer_steps lib cfg layer_name layer_config w = (Raise e, w') →
  process_layer lib cfg layer_name layer_config w
  = (false, (logger (LogLayerError layer_name e) w').2).
Proof. intros [src Hsrc] Hsteps. unfold process_layer. by rewrite Hsrc, Hsteps. Qed.

Lemma process_layers_app layers1 layers2 (w : world float) :
  process_layers lib cfg (layers1 ++ layers2) w
  = let '(oks1, w1) := process_layers lib cfg layers1 w in
    let '(oks2, w2) := process_layers lib cfg layers2 w1 in
    (oks1 ++ oks2, w2).
Proof.
  revert w. induction layers1 as [|[name lc] layers1 IH]; intros w; simpl.
  - by destruct (process_layers lib cfg layers2 w).
  - destruct (process_layer lib cfg name lc w) as [ok w1].
    rewrite IH. destruct (process_layers lib cfg layers1 w1) as [oks1 w2].
    by destruct (process_layers lib cfg layers2 w2).
Qed.

Lemma process_layers_length layers (w : world float) :
  length (process_layers lib cfg layers w).1 = length layers.
Proof.
  revert w. induction layers as [|[name lc] layers IH]; intros w; simpl; [done|].
  destruct (process_layer lib cfg name lc w) as [ok w1].
  specialize (IH w1). destruct (process_layers lib cfg layers w1). simpl in *.
  by f_equal.
Qed.

End Orchestration.

Lemma count_true_length (oks : list bool) :
  (length (filter (fun ok => ok = true) oks) ≤ length oks)%nat ∧
  (length (filter (fun ok => ok = true) oks) = length oks ↔
   Forall (fun ok => ok = true) oks).
Proof.
  induction oks as [|ok oks [IHle IHeq]]; [by split; [|split; [constructor|]]|].
  rewrite filter_cons. destruct (decide (ok = true)) as [->|Hne]; simpl.
  - split; [lia|]. rewrite Forall_cons.
    split; [intros [= ?]; split; [done|by apply IHeq] |intros [_ ?]; f_equal; by apply IHeq].
  - split; [lia|]. split; [lia|]. by inversion 1.
Qed.

(** C9. A job whose source file is absent returns [False] at once, with
    one error line logged and nothing else changed; no exception leaves the
    job. The jobs after it are then processed in order, from the world as
    the earlier jobs left it. Every job has an outcome, and the exit status
    of the run is 0 exactly when every job succeeded, and 1 otherwise. *)
Theorem missing_source_fails_its_job_only {float : Type}
    (lib : collaborators float) (cfg : settings) :
  (∀ layer_name layer_config (w : world float),
      raw_files w !! source_file layer_config = None →
      process_layer lib cfg layer_name layer_config w
      = (false, (logger (LogSourceNotFound (source_file layer_config)) w).2)) ∧
  (∀ before layer_name layer_config after (w : world float),
      raw_files (process_layers lib cfg before w).2 !! source_file layer_config = None →
      process_layers lib cfg (before ++ (layer_name, layer_config) :: after) w
      = let '(oks1, w1) := process_layers lib cfg before w in
        let '(oks2, w2) :=
          process_layers lib cfg after
            (logger (LogSourceNotFound (source_file layer_config)) w1).2 in
        (oks1 ++ false :: oks2, w2)) ∧
  (∀ layers (w : world float),
      length (process_layers lib cfg layers w).1 = length layers) ∧
  (∀ layers (w : world float),
      ((main lib cfg layers w).1 = 0 ↔
       Forall (fun ok => ok = true)
         (process_layers lib cfg layers
            ((_ ← setup_logging; now ← datetime_now; logger (LogDate now)) w).2).1) ∧
      ((main lib cfg layers w).1 = 0 ∨ (main lib cfg layers w).1 = 1)).
Proof.
  split; [|split; [|split]].
  - apply process_layer_missing_source.
  - intros before name lc after w Hnone. rewrite process_layers_app.
    destruct (process_layers lib cfg before w) as [oks1 w1]. simpl in *.
    rewrite (process_layer_missing_source lib cfg name lc w1 Hnone).
    by destruct (process_layers lib cfg after _).
  - apply process_layers_length.
  - intros layers w. unfold main.
    set (w0 := ((_ ← setup_logging; now ← datetime_now; logger (LogDate now)) w).2).
    pose proof (process_layers_length lib cfg layers w0) as Hlen.
    destruct (process_layers lib cfg layers w0) as [oks w1]. simpl in *.
    destruct (count_true_length oks) as [Hle Heq]. unfold len.
    case_decide as Hcount; simpl.
    + split; [|by left]. split; [|done]. intros _. apply Heq. lia.
    + split; [|by right]. split; [done|]. intros Hall%Heq. lia.
Qed.

Lemma missing_source_fails_its_job_only_witness :
  (main sample_lib config LAYERS_CONFIG first_run).1 = 1 ∧
  (process_layers sample_lib config LAYERS_CONFIG first_run).1 = [true; false; true] ∧
  is_Some (processed_files (process_layers sample_lib config LAYERS_CONFIG first_run).2
             !! "lots.geojson") ∧
  is_Some (processed_files (process_layers sample_lib config LAYERS_CONFIG first_run).2
             !! "polygonale.geojson").
Proof.
  destruct (missing_source_fails_its_job_only sample_lib config) as (_ & Hskip & _ & Hexit).
  split.
  - destruct (Hexit LAYERS_CONFIG first_run) as [Hzero [H0|H1]]; [|done].
    apply Hzero in H0. vm_compute in H0.
    by apply Forall_cons_1 in H0 as [_ [? _]%Forall_cons_1].
  - assert (process_layers sample_lib config LAYERS_CONFIG first_run
            = let '(oks1, w1) :=
                process_layers sample_lib config (take 1 LAYERS_CONFIG) first_run in
              let '(oks2, w2) :=
                process_layers sample_lib config (drop 2 LAYERS_CONFIG)
                  (logger (LogSourceNotFound "ILOTS.gpkg") w1).2 in
              (oks1 ++ false :: oks2, w2)) as ->.
    { apply (Hskip (take 1 LAYERS_CONFIG) "ilots"
               {| source_file := "ILOTS.gpkg"; output_name := "ilots.geojson";
                  description := "Ilots urbains" |} (drop 2 LAYERS_CONFIG) first_run).
      vm_compute. reflexivity. }
    vm_compute. repeat split; eexists; reflexivity.
Defined.

(** ** A stale copy that cannot be removed *)

Section LockedCopy.
Context {float : Type}.
Implicit Types (w : world float).

(** The loop stops at the first entry that is locked: the entries before it
    are gone, that entry and those after it stay. *)
Lemma for_each_unlink_locked (removed : list string) (old : string)
    (rest : list string) w :
  NoDup removed →
  Forall (fun name => (name ∉ locked w) ∧ is_Some (backup_files w !! name)) removed →
  old ∈ locked w →
  for_each (fun old => _ ← unlink old; logger (LogBackupDeleted old))
    (removed ++ old :: rest) w
  = (Raise (PermissionError old), after_deleting removed w).
Proof.
  revert w. induction removed as [|name removed IH]; intros w Hnodup Hall Hlocked.
  - cbn [app for_each]. unfold mbind, M_bind. rewrite unlink_locked by done.
    unfold after_deleting. simpl. rewrite app_nil_r. by destruct w.
  - apply NoDup_cons in Hnodup as [Hnotin Hnodup].
    apply Forall_cons in Hall as [[Hfree Hthere] Hall].
    cbn [app for_each]. unfold mbind at 1, M_bind at 1. unfold mbind at 1, M_bind at 1.
    rewrite unlink_removes by done. cbn [logger set_backup_files].
    rewrite IH; [|done| |done].
    + unfold after_deleting. cbn. by rewrite <- app_assoc.
    + cbn. rewrite Forall_forall in Hall |- *. intros n Hn.
      destruct (Hall n Hn) as [Hfree' Hthere']. split; [done|].
      rewrite lookup_delete_ne; [done|]. by intros ->.
Qed.

Lemma backup_existing_file_locked (output_name : string) w content
    (removed : list string) (old : string) (rest : list string) :
  processed_files w !! output_name = Some content →
  all_but_last_3
    (sorted_glob (path_stem output_name) (path_suffix output_name)
       (<[backup_name_of output_name (strftime_stamp (clock w (reads w))) := content]>
          (backup_files w)))
  = removed ++ old :: rest →
  Forall (fun name => name ∉ locked w) removed →
  old ∈ locked w →
  backup_existing_file output_name w
  = (Raise (PermissionError old),
     after_deleting removed
       (after_copy (backup_name_of output_name (strftime_stamp (clock w (reads w))))
          content w)).
Proof.
  intros Hsome Hstale Hfree Hlocked.
  pose proof (stale_NoDup (path_stem output_name) (path_suffix output_name)
                (<[backup_name_of output_name (strftime_stamp (clock w (reads w)))
                   := content]> (backup_files w))) as Hnodup.
  pose proof (stale_there (path_stem output_name) (path_suffix output_name)
                (<[backup_name_of output_name (strftime_stamp (clock w (reads w)))
                   := content]> (backup_files w))) as Hthere.
  rewrite Hstale in Hnodup, Hthere.
  unfold backup_existing_file. rewrite Hsome.
  unfold mbind, M_bind, datetime_now, copy2, logger, list_backups,
    set_backup_files. cbn.
  rewrite Hstale.
  set (backup_name := backup_name_of output_name (strftime_stamp (clock w (reads w)))) in *.
  change {| raw_files := raw_files w; processed_files := processed_files w;
            backup_files := <[backup_name:=content]> (backup_files w);
            locked := locked w; clock := clock w; reads := S (reads w);
            log := log w ++ [LogBackupCreated backup_name] |}
    with (after_copy backup_name content w).
  apply for_each_unlink_locked; [by apply NoDup_app in Hnodup as [? _]| |done].
  rewrite Forall_forall in Hfree |- *. intros name Hname.
  split; [by apply Hfree|].
  apply Hthere, elem_of_app. by left.
Qed.

End LockedCopy.

(** C5, as stated: a deletion of a stale archived copy that fails does not
    make the layer job fail. It fails on a layer with four archived copies
    whose oldest is locked: with the lock the job is marked failed, and
    without it the same job succeeds. *)
Lemma locked_copy_fails_the_job :
  ¬ (∀ locked_names : gset string,
       (process_layer sample_lib config "lots" lots_config (later_run locked_names)).1
       = (process_layer sample_lib config "lots" lots_config (later_run ∅)).1).
Proof.
  intros Hclaim. specialize (Hclaim {["lots_20240101_080000.geojson"]}).
  vm_compute in Hclaim. discriminate Hclaim.
Qed.

(** C5, amended. When the deletion of a stale archived copy fails during
    the backup, the exception leaves the backup at once and is caught at the
    boundary of the job: the job is marked failed and the error is logged
    with the name of the layer. The copies before the failing one were
    removed and logged; the failing one and those after it stay in the
    archive; the source is not loaded and the output file is left as it
    was. *)
Theorem stale_deletion_failure_fails_job {float : Type}
    (lib : collaborators float) (cfg : settings)
    (layer_name : string) (layer_config : layer_config) (w : world float)
    (content : pyval float) (removed : list string) (old : string)
    (rest : list string) :
  is_Some (raw_files w !! source_file layer_config) →
  processed_files w !! output_name layer_config = Some content →
  all_but_last_3
    (sorted_glob (path_stem (output_name layer_config))
       (path_suffix (output_name layer_config))
       (<[backup_name_of (output_name layer_config)
            (strftime_stamp (clock w (reads w))) := content]> (backup_files w)))
  = removed ++ old :: rest →
  Forall (fun name => name ∉ locked w) removed →
  old ∈ locked w →
  ∃ w', process_layer lib cfg layer_name layer_config w = (false, w') ∧
        log w'
        = log w
          ++ [LogBackupCreated
                (backup_name_of (output_name layer_config)
                   (strftime_stamp (clock w (reads w))))]
          ++ (LogBackupDeleted <$> removed)
          ++ [LogLayerError layer_name (PermissionError old)] ∧
        Forall (fun name => is_Some (backup_files w' !! name)) (old :: rest) ∧
        Forall (fun name => backup_files w' !! name = None) removed ∧
        processed_files w' = processed_files w.
Proof.
  intros Hsource Hsome Hstale Hfree Hlocked.
  pose proof (backup_existing_file_locked _ w content removed old rest
                Hsome Hstale Hfree Hlocked) as Hbackup.
  eexists. split.
  { apply process_layer_caught; [done|].
    unfold process_layer_steps, export_layer.
    unfold mbind at 1, M_bind at 1. unfold mbind at 1, M_bind at 1.
    by rewrite Hbackup. }
  pose proof (stale_NoDup (path_stem (output_name layer_config))
                (path_suffix (output_name layer_config))
                (<[backup_name_of (output_name layer_config)
                     (strftime_stamp (clock w (reads w))) := content]>
                   (backup_files w))) as Hnodup.
  rewrite Hstale in Hnodup.
  apply NoDup_app in Hnodup as (_ & Hdisjoint & _).
  cbn. split; [by rewrite <- !app_assoc|]. split; [|split; [|done]].
  - apply Forall_forall. intros name Hname. rewrite lookup_foldl_delete.
    rewrite decide_False by (intros Hin; by apply Hdisjoint in Hin).
    apply (stale_there (path_stem (output_name layer_config))
             (path_suffix (output_name layer_config))).
    rewrite Hstale. apply elem_of_app. by right.
  - apply Forall_forall. intros name Hname. rewrite lookup_foldl_delete.
    by rewrite decide_True.
Qed.

Lemma stale_deletion_failure_fails_job_witness :
  ∃ w', process_layer sample_lib config "lots" lots_config
          (later_run {["lots_20240201_080000.geojson"]}) = (false, w') ∧
        log w'
        = [LogBackupCreated "lots_20240517_080000.geojson";
           LogBackupDeleted "lots_20240101_080000.geojson";
           LogLayerError "lots" (PermissionError "lots_20240201_080000.geojson")] ∧
        is_Some (backup_files w' !! "lots_20240201_080000.geojson") ∧
        backup_files w' !! "lots_20240101_080000.geojson" = None ∧
        processed_files w' !! "lots.geojson" = Some old_document.
Proof.
  destruct (stale_deletion_failure_fails_job sample_lib config "lots" lots_config
              (later_run {["lots_20240201_080000.geojson"]}) old_document
              ["lots_20240101_080000.geojson"] "lots_20240201_080000.geojson" [])
    as (w' & Hrun & Hlog & Hstay & Hgone & Hout).
  - eexists. reflexivity.
  - reflexivity.
  - vm_compute. reflexivity.
  - repeat constructor. vm_compute. intros Hin. discriminate Hin.
  - apply elem_of_singleton. reflexivity.
  - exists w'. split; [exact Hrun|]. split; [exact Hlog|].
    split; [by apply Forall_inv in Hstay|]. split; [by apply Forall_inv in Hgone|].
    by rewrite Hout.
Defined.

(** ** The rounding pass on exported documents *)

Section RoundingPass.
Context {float : Type} (round_float : Z → float → float).

Lemma round_feature_null_geometry (feature : pyval float) :
  py_getitem feature "geometry" = Ok PNone →
  round_feature round_float feature = Raise TypeError.
Proof. intros Hgeom. unfold round_feature. by rewrite Hgeom. Qed.

Lemma round_feature_empty_coordinates (feature geom : pyval float) :
  py_getitem feature "geometry" = Ok geom →
  py_getitem geom "coordinates" = Ok (PList []) →
  round_feature round_float feature = Raise IndexError.
Proof. intros Hgeom Hcoords. unfold round_feature. by rewrite Hgeom; simpl; rewrite Hcoords. Qed.

Lemma round_features_raises (geojson_data : pyval float) features feature :
  py_getitem geojson_data "features" = Ok (PList features) →
  feature ∈ features →
  is_ok (round_feature round_float feature) = false →
  is_ok (round_features round_float geojson_data) = false.
Proof.
  intros Hfeatures Hin Hraise. unfold round_features. rewrite Hfeatures. simpl.
  pose proof (rmap_Raise (round_feature round_float) features feature Hin Hraise) as Hmap.
  by destruct (rmap _ features).
Qed.

End RoundingPass.

(** When the export went through and the rounding pass raises on the
    exported document, the job is marked failed. *)
Lemma process_layer_rounding_raises {float : Type}
    (lib : collaborators float) (cfg : settings)
    (layer_name : string) (layer_config : layer_config) (w w1 : world float)
    (document : pyval float) (e : exn) :
  is_Some (raw_files w !! source_file layer_config) →
  export_layer lib cfg layer_config w = (Ok (), w1) →
  processed_files w1 !! output_name layer_config = Some document →
  round_features (round_float lib) document = Raise e →
  process_layer lib cfg layer_name layer_config w
  = (false, (logger (LogLayerError layer_name e) w1).2).
Proof.
  intros Hsource Hexport Hdocument Hround.
  apply process_layer_caught; [done|].
  unfold process_layer_steps. unfold mbind at 1, M_bind at 1. rewrite Hexport.
  unfold optimise_output. unfold mbind at 1, M_bind at 1.
  unfold json_load. rewrite Hdocument.
  unfold mbind at 1, M_bind at 1. unfold lift. by rewrite Hround.
Qed.

(** C10. The rounding pass is partial. A feature whose geometry is null
    makes it raise [TypeError] and a feature whose coordinates array is empty
    makes it raise [IndexError]; there are FeatureCollection documents of
    both kinds, and any document with such a feature among its features is
    refused. When that happens to the document that a layer job exported, the
    exception is caught at the boundary of the job, which is marked failed
    with the error logged. *)
Theorem rounding_pass_is_partial {float : Type}
    (lib : collaborators float) (cfg : settings) :
  round_features (round_float lib) null_geometry_document = Raise TypeError ∧
  round_features (round_float lib) empty_coordinates_document = Raise IndexError ∧
  (∀ feature : pyval float,
      py_getitem feature "geometry" = Ok PNone →
      round_feature (round_float lib) feature = Raise TypeError) ∧
  (∀ feature geom : pyval float,
      py_getitem feature "geometry" = Ok geom →
      py_getitem geom "coordinates" = Ok (PList []) →
      round_feature (round_float lib) feature = Raise IndexError) ∧
  (∀ (geojson_data : pyval float) features feature,
      py_getitem geojson_data "features" = Ok (PList features) →
      feature ∈ features →
      is_ok (round_feature (round_float lib) feature) = false →
      is_ok (round_features (round_float lib) geojson_data) = false) ∧
  (∀ layer_name layer_config (w w1 : world float) document e,
      is_Some (raw_files w !! source_file layer_config) →
      export_layer lib cfg layer_config w = (Ok (), w1) →
      processed_files w1 !! output_name layer_config = Some document →
      round_features (round_float lib) document = Raise e →
      process_layer lib cfg layer_name layer_config w
      = (false, (logger (LogLayerError layer_name e) w1).2)).
Proof.
  split; [done|]. split; [done|].
  split; [apply round_feature_null_geometry|].
  split; [apply round_feature_empty_coordinates|].
  split; [apply round_features_raises|].
  apply process_layer_rounding_raises.
Qed.

Lemma rounding_pass_is_partial_witness :
  ((process_layer sample_lib config "lots" lots_config
      (world_of_source (Ok frame_with_null))).1 = false ∧
   last (log (process_layer sample_lib config "lots" lots_config
                (world_of_source (Ok frame_with_null))).2)
   = Some (LogLayerError "lots" TypeError)) ∧
  ((process_layer sample_lib config "lots" lots_config
      (world_of_source (Ok frame_with_empty))).1 = false ∧
   last (log (process_layer sample_lib config "lots" lots_config
                (world_of_source (Ok frame_with_empty))).2)
   = Some (LogLayerError "lots" IndexError)).
Proof.
  destruct (rounding_pass_is_partial sample_lib config)
    as (_ & _ & _ & _ & _ & Hjob).
  assert (∀ frame e,
            (∃ w1 document,
                export_layer sample_lib config lots_config (world_of_source (Ok frame))
                = (Ok (), w1) ∧
                processed_files w1 !! "lots.geojson" = Some document ∧
                round_features fixed_round document = Raise e) →
            (process_layer sample_lib config "lots" lots_config
               (world_of_source (Ok frame))).1 = false ∧
            last (log (process_layer sample_lib config "lots" lots_config
                         (world_of_source (Ok frame))).2)
            = Some (LogLayerError "lots" e)) as Hfails.
  { intros frame e (w1 & document & Hexport & Hdocument & Hround).
    rewrite (Hjob "lots" lots_config (world_of_source (Ok frame)) w1 document e);
      [|by eexists|done..].
    split; [done|]. cbn. apply last_snoc. }
  split; apply Hfails;
    (eexists; eexists; split; [vm_compute; reflexivity|];
     split; [vm_compute; reflexivity|vm_compute; reflexivity]).
Defined.

(** * Further properties *)

(** ** What a backup touches *)

Section BackupFrame.
Context {float : Type}.
Implicit Types (w : world float).

(** Whether it ends or raises, the loop over the stale copies touches the
    archive directory and the log only, and in the directory the entries it
    was given only. *)
Lemma for_each_unlink_frame (stale : list string) w r w' :
  for_each (fun old => _ ← unlink old; logger (LogBackupDeleted old)) stale w
  = (r, w') →
  raw_files w' = raw_files w ∧ processed_files w' = processed_files w ∧
  locked w' = locked w ∧ clock w' = clock w ∧ reads w' = reads w ∧
  (∀ name, name ∉ stale → backup_files w' !! name = backup_files w !! name).
Proof.
  revert w. induction stale as [|old stale IH]; intros w Hrun.
  { by injection Hrun as <- <-. }
  cbn [for_each] in Hrun.
  unfold mbind at 1, M_bind at 1 in Hrun. unfold mbind at 1, M_bind at 1 in Hrun.
  unfold unlink in Hrun. destruct (decide (old ∈ locked w)).
  { by injection Hrun as <- <-. }
  destruct (backup_files w !! old) as [content|] eqn:Hold.
  2:{ by injection Hrun as <- <-. }
  cbn [logger set_backup_files] in Hrun.
  apply IH in Hrun as (Hraw & Hproc & Hlocked & Hclock & Hreads & Hfiles).
  cbn in Hraw, Hproc, Hlocked, Hclock, Hreads, Hfiles.
  repeat split; try done.
  intros name [Hne Hnotin]%not_elem_of_cons. rewrite Hfiles by done.
  by rewrite lookup_delete_ne.
Qed.

End BackupFrame.

(** X1. For an output name free of the characters that a glob pattern
    reads as wildcards, whatever the state of the directories and whether it
    returns or raises, a call of the backup operation leaves the source
    files, the output files, the locks and the clock as they were, reads the
    clock at most once, and in the archive directory creates, replaces or
    removes only entries that match the pattern of the output: every other
    entry is untouched. *)
Theorem backup_touches_matching_entries_only {float : Type}
    (output_name : string) (w : world float) :
  wildcard_free (path_stem output_name) = true →
  wildcard_free (path_suffix output_name) = true →
  raw_files (backup_existing_file output_name w).2 = raw_files w ∧
  processed_files (backup_existing_file output_name w).2 = processed_files w ∧
  locked (backup_existing_file output_name w).2 = locked w ∧
  clock (backup_existing_file output_name w).2 = clock w ∧
  (reads w ≤ reads (backup_existing_file output_name w).2 ≤ S (reads w))%nat ∧
  (∀ name,
      glob_match (path_stem output_name) (path_suffix output_name) name = false →
      backup_files (backup_existing_file output_name w).2 !! name
      = backup_files w !! name).
Proof.
  intros _ _.
  destruct (backup_existing_file output_name w) as [r w'] eqn:Hrun. cbn [snd].
  unfold backup_existing_file in Hrun.
  destruct (processed_files w !! output_name) as [content|] eqn:Hout.
  2:{ injection Hrun as <- <-. repeat split; try done; lia. }
  unfold mbind, M_bind, datetime_now, copy2, logger, list_backups, set_backup_files
    in Hrun.
  cbn in Hrun.
  match type of Hrun with
  | context [for_each _ (all_but_last_3 (sorted_glob _ _ ?files))] =>
      pose proof (stale_there (path_stem output_name) (path_suffix output_name)
                    files) as Hstale
  end.
  apply for_each_unlink_frame in Hrun
    as (Hraw & Hproc & Hlocked & Hclock & Hreads & Hfiles).
  cbn in Hraw, Hproc, Hlocked, Hclock, Hreads, Hfiles.
  rewrite Hraw, Hproc, Hlocked, Hclock, Hreads.
  repeat split; try done; try lia.
  intros name Hname. rewrite Hfiles.
  - rewrite lookup_insert_ne; [done|]. intros <-.
    unfold backup_name_of in Hname.
    by rewrite glob_match_backup_name in Hname.
  - intros [Hmatch _]%Hstale. congruence.
Qed.

Lemma later_run_other_entry :
  glob_match (path_stem "ilots.geojson") (path_suffix "ilots.geojson")
    "lots_20240101_080000.geojson" = false.
Proof. vm_compute. reflexivity. Qed.

Lemma backup_touches_matching_entries_only_witness :
  processed_files (backup_existing_file "ilots.geojson" (later_run ∅)).2
  = processed_files (later_run ∅) ∧
  backup_files (backup_existing_file "ilots.geojson" (later_run ∅)).2
    !! "lots_20240101_080000.geojson"
  = backup_files (later_run ∅) !! "lots_20240101_080000.geojson".
Proof.
  destruct (backup_touches_matching_entries_only "ilots.geojson" (later_run ∅)
              eq_refl eq_refl) as (_ & Hproc & _ & _ & _ & Hfiles).
  split; [exact Hproc|]. apply Hfiles. exact later_run_other_entry.
Defined.

(** ** Which copies a backup keeps *)

Section BackupOrder.
Context {float : Type}.
Implicit Types (w : world float) (files : gmap string (pyval float)).

(** Copying over an entry that is there leaves the listing as it was. *)
Lemma sorted_glob_insert_there stem suffix files (name : string) content :
  is_Some (files !! name) →
  sorted_glob stem suffix (<[name := content]> files) = sorted_glob stem suffix files.
Proof.
  intros Hthere. apply sorted_glob_unique;
    [apply Sorted_sorted_glob|apply NoDup_sorted_glob|].
  intros n. rewrite elem_of_sorted_glob.
  destruct (decide (n = name)) as [->|Hne].
  - rewrite lookup_insert_eq. split; intros [? _]; eauto.
  - by rewrite lookup_insert_ne.
Qed.

(** The state after a call on an existing output, whether it returned or
    raised: the copy was made, and only stale entries can be gone. *)
Lemma backup_existing_file_entries (output_name : string) w content r w' :
  processed_files w !! output_name = Some content →
  backup_existing_file output_name w = (r, w') →
  ∀ name,
    name ∉ all_but_last_3
             (sorted_glob (path_stem output_name) (path_suffix output_name)
                (<[backup_name_of output_name (strftime_stamp (clock w (reads w)))
                   := content]> (backup_files w))) →
    backup_files w' !! name
    = <[backup_name_of output_name (strftime_stamp (clock w (reads w))) := content]>
        (backup_files w) !! name.
Proof.
  intros Hout Hrun name Hname. unfold backup_existing_file in Hrun.
  rewrite Hout in Hrun.
  unfold mbind, M_bind, datetime_now, copy2, logger, list_backups, set_backup_files
    in Hrun.
  cbn in Hrun.
  apply for_each_unlink_frame in Hrun as (_ & _ & _ & _ & _ & Hfiles).
  by rewrite Hfiles.
Qed.

(** In a sorted listing, an entry with three entries after it is stale. *)
Lemma stale_when_three_follow (backups : list string) (name n1 n2 n3 : string) :
  Sorted String.le backups → NoDup backups →
  name ∈ backups → n1 ∈ backups → n2 ∈ backups → n3 ∈ backups →
  sorts_before name n1 → sorts_before name n2 → sorts_before name n3 →
  NoDup [n1; n2; n3] →
  name ∈ all_but_last_3 backups.
Proof.
  intros Hsorted Hnodup Hname H1 H2 H3 Hb1 Hb2 Hb3 Hdistinct.
  apply list_elem_of_split in Hname as (l1 & l2 & ->).
  apply Sorted_StronglySorted in Hsorted; [|apply _].
  apply StronglySorted_app in Hsorted as (Hle & _ & _).
  assert (∀ n, n ∈ l1 ++ name :: l2 → sorts_before name n → n ∈ l2) as Hafter.
  { intros n [Hin|[->|Hin]%elem_of_cons]%elem_of_app [Hnn Hne]; [|done..].
    exfalso. apply Hne. apply (anti_symm String.le); [done|].
    apply Hle; [done|]. by left. }
  assert (3 ≤ length l2)%nat as Hlen.
  { change 3%nat with (length [n1; n2; n3]). apply submseteq_length.
    apply NoDup_submseteq; [done|].
    intros n [->|[->|[->|[]%elem_of_nil]%elem_of_cons]%elem_of_cons]%elem_of_cons;
      by apply Hafter. }
  unfold all_but_last_3. apply elem_of_take. exists (length l1). split.
  - by apply list_lookup_middle.
  - rewrite length_app. simpl. lia.
Qed.

End BackupOrder.



(** X3. Retention goes by the order of the names, not by the time of
    making: for an output name free of wildcard characters, when three
    entries that match the pattern sort after the name of the new copy, the
    call that makes the copy removes it at once (the archived copies being
    removable). *)
Theorem backup_removes_copy_sorting_early {float : Type}
    (output_name : string) (w : world float) (content : pyval float)
    (n1 n2 n3 : string) :
  wildcard_free (path_stem output_name) = true →
  wildcard_free (path_suffix output_name) = true →
  processed_files w !! output_name = Some content →
  (∀ name, glob_match (path_stem output_name) (path_suffix output_name) name = true →
           name ∉ locked w) →
  Forall (fun n =>
            n ∈ sorted_glob (path_stem output_name) (path_suffix output_name)
                  (backup_files w) ∧
            sorts_before
              (backup_name_of output_name (strftime_stamp (clock w (reads w)))) n)
    [n1; n2; n3] →
  NoDup [n1; n2; n3] →
  ∃ w', backup_existing_file output_name w = (Ok (), w') ∧
        backup_files w'
          !! backup_name_of output_name (strftime_stamp (clock w (reads w))) = None ∧
        LogBackupDeleted
          (backup_name_of output_name (strftime_stamp (clock w (reads w)))) ∈ log w'.
Proof.
  intros _ _ Hout Hfree Hafter Hdistinct.
  set (backup_name := backup_name_of output_name (strftime_stamp (clock w (reads w))))
    in *.
  set (backups := sorted_glob (path_stem output_name) (path_suffix output_name)
                    (<[backup_name := content]> (backup_files w))).
  assert (backup_name ∈ all_but_last_3 backups) as Hstale.
  { assert (∀ n, n ∈ sorted_glob (path_stem output_name) (path_suffix output_name)
                       (backup_files w) → n ∈ backups) as Hmono.
    { intros n [Hm [c Hc]]%elem_of_sorted_glob. apply elem_of_sorted_glob.
      split; [done|]. destruct (decide (n = backup_name)) as [->|Hne].
      - rewrite lookup_insert_eq. eauto.
      - rewrite lookup_insert_ne by done. eauto. }
    apply Forall_cons in Hafter as [[H1 Hb1] Hafter].
    apply Forall_cons in Hafter as [[H2 Hb2] Hafter].
    apply Forall_cons in Hafter as [[H3 Hb3] _].
    apply (stale_when_three_follow backups backup_name n1 n2 n3);
      [apply Sorted_sorted_glob|apply NoDup_sorted_glob| |auto..].
    apply elem_of_sorted_glob. split; [apply glob_match_backup_name|].
    rewrite lookup_insert_eq. eauto. }
  eexists. split.
  - apply backup_existing_file_present; [done|].
    apply Forall_forall. intros old Hold. apply Hfree.
    by apply stale_there in Hold as [? _].
  - fold backup_name. fold backups. cbn. split.
    + rewrite lookup_foldl_delete. by rewrite decide_True.
    + apply elem_of_app. right. apply list_elem_of_fmap. eauto.
Qed.

Lemma shared_archive_next_name :
  backup_name_of "lots.geojson"
    (strftime_stamp (clock shared_archive_run (reads shared_archive_run)))
  = "lots_20240517_080000.geojson".
Proof. vm_compute. reflexivity. Qed.

Lemma shared_archive_copies_sort_later :
  Forall (fun n =>
            n ∈ sorted_glob (path_stem "lots.geojson") (path_suffix "lots.geojson")
                  (backup_files shared_archive_run) ∧
            sorts_before
              (backup_name_of "lots.geojson"
                 (strftime_stamp (clock shared_archive_run (reads shared_archive_run))))
              n)
    ["lots_old_20240101_080000.geojson"; "lots_old_20240201_080000.geojson";
     "lots_old_20240301_080000.geojson"].
Proof.
  rewrite shared_archive_next_name.
  repeat apply Forall_cons_2; [..|apply Forall_nil_2];
    (split; [apply elem_of_sorted_glob; split;
               [vm_compute; reflexivity|eexists; vm_compute; reflexivity]
            |split; [vm_compute; exact I|discriminate]]).
Qed.

Lemma backup_removes_copy_sorting_early_witness :
  ∃ w', backup_existing_file "lots.geojson" shared_archive_run = (Ok (), w') ∧
        backup_files w' !! "lots_20240517_080000.geojson" = None ∧
        LogBackupDeleted "lots_20240517_080000.geojson" ∈ log w'.
Proof.
  destruct (backup_removes_copy_sorting_early "lots.geojson" shared_archive_run
              old_document "lots_old_20240101_080000.geojson"
              "lots_old_20240201_080000.geojson" "lots_old_20240301_080000.geojson"
              eq_refl eq_refl)
    as (w' & Hrun & Hgone & Hlog).
  - vm_compute. reflexivity.
  - intros name _. apply not_elem_of_empty.
  - exact shared_archive_copies_sort_later.
  - apply (bool_decide_unpack _). vm_compute. exact I.
  - exists w'. split; [exact Hrun|].
    rewrite shared_archive_next_name in Hgone, Hlog. split; [exact Hgone|exact Hlog].
Defined.

(** X4. The pattern of an output whose name is free of wildcard
    characters also matches the archived copies of any output whose stem is
    the stem of the first followed by an underscore and more, with the same
    suffix: such copies are in the listing that a backup of the first output
    sorts and prunes. *)
Theorem pattern_matches_longer_stems {float : Type}
    (output_name other_name more timestamp : string)
    (files : gmap string (pyval float)) :
  wildcard_free (path_stem output_name) = true →
  wildcard_free (path_suffix output_name) = true →
  path_stem other_name = path_stem output_name +:+ "_" +:+ more →
  path_suffix other_name = path_suffix output_name →
  glob_match (path_stem output_name) (path_suffix output_name)
    (backup_name_of other_name timestamp) = true ∧
  (is_Some (files !! backup_name_of other_name timestamp) →
   backup_name_of other_name timestamp
   ∈ sorted_glob (path_stem output_name) (path_suffix output_name) files).
Proof.
  intros _ _ Hstem Hsuffix.
  assert (glob_match (path_stem output_name) (path_suffix output_name)
            (backup_name_of other_name timestamp) = true) as Hmatch.
  { unfold backup_name_of. rewrite Hstem, Hsuffix.
    assert ((path_stem output_name +:+ "_" +:+ more) +:+ "_" +:+ timestamp
              +:+ path_suffix output_name
            = path_stem output_name +:+ "_" +:+ (more +:+ "_" +:+ timestamp)
                +:+ path_suffix output_name) as ->
      by (by rewrite !append_assoc).
    apply glob_match_backup_name. }
  split; [done|]. intros Hthere. by apply elem_of_sorted_glob.
Qed.

Lemma pattern_matches_longer_stems_witness :
  glob_match "lots" ".geojson" "lots_old_20240101_080000.geojson" = true ∧
  "lots_old_20240101_080000.geojson"
  ∈ sorted_glob "lots" ".geojson" (backup_files shared_archive_run).
Proof.
  destruct (pattern_matches_longer_stems "lots.geojson" "lots_old.geojson" "old"
              "20240101_080000" (backup_files shared_archive_run) eq_refl eq_refl)
    as [Hmatch Hin]; [vm_compute; reflexivity..|].
  split; [exact Hmatch|]. apply Hin. eexists. vm_compute. reflexivity.
Defined.

(** ** Copies made within one second *)

Lemma chrono_inj (t1 t2 : datetime) :
  valid_datetime t1 → valid_datetime t2 → chrono t1 = chrono t2 → t1 = t2.
Proof.
  intros (Hy1 & Hm1 & Hd1 & HH1 & HM1 & HS1) (Hy2 & Hm2 & Hd2 & HH2 & HM2 & HS2).
  destruct t1 as [y1 m1 d1 h1 mi1 s1], t2 as [y2 m2 d2 h2 mi2 s2].
  unfold chrono. cbn in *. intros Heq.
  assert (s1 = s2) by lia. assert (mi1 = mi2) by lia. assert (h1 = h2) by lia.
  assert (d1 = d2) by lia. assert (m1 = m2) by lia. assert (y1 = y2) by lia.
  by subst.
Qed.

(** X5. Two archived copies of an output get the same name exactly when
    the clock gave the same date and time, to the second, for both: copies
    made at different seconds never overwrite one another. *)
Theorem backup_names_collide_within_a_second (output_name : string)
    (t1 t2 : datetime) :
  valid_datetime t1 → valid_datetime t2 →
  (backup_name_of output_name (strftime_stamp t1)
   = backup_name_of output_name (strftime_stamp t2) ↔ t1 = t2).
Proof.
  intros Hv1 Hv2. split; [|by intros ->].
  intros Hname. apply chrono_inj; [done..|].
  destruct (Z.lt_trichotomy (chrono t1) (chrono t2)) as [Hlt|[Heq|Hgt]]; [|done|].
  - by destruct (backup_name_of_chrono output_name t1 t2 Hv1 Hv2 Hlt) as [_ Hne].
  - by destruct (backup_name_of_chrono output_name t2 t1 Hv2 Hv1 Hgt) as [_ Hne].
Qed.

Lemma backup_names_collide_within_a_second_witness :
  backup_name_of "lots.geojson" (strftime_stamp (sample_clock 0))
  = backup_name_of "lots.geojson" (strftime_stamp (sample_clock 1))
  ↔ sample_clock 0 = sample_clock 1.
Proof.
  apply backup_names_collide_within_a_second;
    vm_compute; repeat split; lia || discriminate.
Defined.

(** X6. For an output name free of wildcard characters and an archive in
    which no entry that matches the pattern is locked, a backup called
    within the second of an archived copy that is still there writes over
    that copy instead of adding one: the call returns, the entries that
    remain are the last three of those that were there, and the copy of that
    name, when it is one of them, now holds the present content of the
    output. *)
Theorem backup_over_existing_copy {float : Type}
    (output_name : string) (w : world float) (content : pyval float) :
  wildcard_free (path_stem output_name) = true →
  wildcard_free (path_suffix output_name) = true →
  processed_files w !! output_name = Some content →
  is_Some (backup_files w
             !! backup_name_of output_name (strftime_stamp (clock w (reads w)))) →
  (∀ name, glob_match (path_stem output_name) (path_suffix output_name) name = true →
           name ∉ locked w) →
  ∃ w', backup_existing_file output_name w = (Ok (), w') ∧
        sorted_glob (path_stem output_name) (path_suffix output_name) (backup_files w')
        = last_3 (sorted_glob (path_stem output_name) (path_suffix output_name)
                    (backup_files w)) ∧
        (backup_name_of output_name (strftime_stamp (clock w (reads w)))
         ∈ last_3 (sorted_glob (path_stem output_name) (path_suffix output_name)
                     (backup_files w)) →
         backup_files w'
           !! backup_name_of output_name (strftime_stamp (clock w (reads w)))
         = Some content).
Proof.
  intros _ _ Hout Hthere Hfree.
  destruct (backup_step output_name w content Hout Hfree)
    as (w' & Hrun & Harch & _).
  rewrite sorted_glob_insert_there in Harch by done.
  exists w'. split; [done|]. split; [done|].
  intros Hkept.
  rewrite (backup_existing_file_entries _ _ _ _ _ Hout Hrun).
  - apply lookup_insert_eq.
  - rewrite sorted_glob_insert_there by done.
    pose proof (NoDup_sorted_glob (path_stem output_name) (path_suffix output_name)
                  (backup_files w)) as Hnodup.
    unfold all_but_last_3, last_3 in *.
    rewrite <- (take_drop (length (sorted_glob (path_stem output_name)
                                     (path_suffix output_name) (backup_files w)) - 3)
                  (sorted_glob (path_stem output_name) (path_suffix output_name)
                     (backup_files w))) in Hnodup.
    apply NoDup_app in Hnodup as (_ & Hdisjoint & _).
    intros Hstale. by apply Hdisjoint in Hstale.
Qed.

Lemma same_second_next_name :
  backup_name_of "lots.geojson"
    (strftime_stamp (clock same_second_run (reads same_second_run)))
  = "lots_20240517_080000.geojson".
Proof. vm_compute. reflexivity. Qed.

Lemma same_second_listing :
  last_3 (sorted_glob (path_stem "lots.geojson") (path_suffix "lots.geojson")
            (backup_files same_second_run))
  = ["lots_20240301_080000.geojson"; "lots_20240401_080000.geojson";
     "lots_20240517_080000.geojson"].
Proof. vm_compute. reflexivity. Qed.

Lemma backup_over_existing_copy_witness :
  ∃ w', backup_existing_file "lots.geojson" same_second_run = (Ok (), w') ∧
        sorted_glob (path_stem "lots.geojson") (path_suffix "lots.geojson")
          (backup_files w')
        = ["lots_20240301_080000.geojson"; "lots_20240401_080000.geojson";
           "lots_20240517_080000.geojson"] ∧
        backup_files w' !! "lots_20240517_080000.geojson" = Some newer_document.
Proof.
  destruct (backup_over_existing_copy "lots.geojson" same_second_run newer_document
              eq_refl eq_refl)
    as (w' & Hrun & Harch & Hcontent).
  - vm_compute. reflexivity.
  - rewrite same_second_next_name. eexists. vm_compute. reflexivity.
  - intros name _. apply not_elem_of_empty.
  - exists w'. split; [exact Hrun|].
    rewrite same_second_listing in Harch, Hcontent.
    rewrite same_second_next_name in Hcontent.
    split; [exact Harch|]. apply Hcontent.
    apply (bool_decide_unpack _). vm_compute. exact I.
Defined.

(** ** The domain of the rounding *)

Section RoundableProofs.
Context {float : Type} (round_float : Z → float → float).

Lemma py_round_is_ok (c : pyval float) :
  is_ok (py_round round_float c) = has_round c.
Proof. by destruct c. Qed.

Lemma rmap_is_ok {A B} (f : A → result B) (p : A → bool) (l : list A) :
  Forall (fun x => is_ok (f x) = p x) l →
  is_ok (rmap f l) = forallb p l.
Proof.
  induction 1 as [|x l Hx _ IH]; [done|]. simpl.
  rewrite <- Hx, <- IH. destruct (f x); [|done]. simpl. by destruct (rmap f l).
Qed.

Lemma rmap_Raise_first {A B} (f : A → result B) (p : A → bool) (l : list A) e :
  (∀ x, is_ok (f x) = p x) →
  rmap f l = Raise e ↔
  ∃ before x after,
    l = before ++ x :: after ∧ forallb p before = true ∧ f x = Raise e.
Proof.
  intros Hp. induction l as [|x l IH]; simpl.
  - split; [done|]. by intros ([] & ? & ? & ? & _).
  - destruct (f x) as [y|e'] eqn:Hx; simpl.
    + assert (rmap f l ≫= (λ ys, Ok (y :: ys)) = Raise e ↔ rmap f l = Raise e)
        as -> by (by destruct (rmap f l)).
      rewrite IH. split.
      * intros (before & x' & after & -> & Hbefore & Hraise).
        exists (x :: before), x', after. split; [done|]. split; [|done].
        simpl. by rewrite Hbefore, <- Hp, Hx.
      * intros (before & x' & after & Heq & Hbefore & Hraise).
        destruct before as [|x0 before]; simplify_eq/=; [congruence|].
        apply andb_prop in Hbefore as [_ Hbefore]. by exists before, x', after.
    + split.
      * intros [= ->]. by exists [], x, l.
      * intros (before & x' & after & Heq & Hbefore & Hraise).
        destruct before as [|x0 before]; simplify_eq/=; [congruence|].
        apply andb_prop in Hbefore as [Hx0 _].
        by rewrite <- Hp, Hx in Hx0.
Qed.

Lemma round_coords_is_ok (coords : pyval float) :
  is_ok (round_coords round_float coords) = roundable coords.
Proof.
  induction coords as [| | | |s|items IH|entries _] using pyval_nested_ind;
    try done.
  - simpl. by case_decide.
  - destruct items as [|c0 items]; [done|].
    cbn [round_coords roundable]. destruct (is_list c0).
    + rewrite <- (rmap_is_ok (round_coords round_float) roundable) by done.
      by destruct (rmap _ (c0 :: items)).
    + rewrite <- (rmap_is_ok (py_round round_float) has_round)
        by (apply Forall_forall; intros; apply py_round_is_ok).
      by destruct (rmap _ (c0 :: items)).
Qed.

End RoundableProofs.

(** X7. [round_coords] returns exactly on the non-empty lists that are
    lists of numbers or booleans, or lists of such lists to any depth, the
    kind of each list being read off its first element alone: an empty list
    at any depth, a number next to a list, or a string, a null or an object
    anywhere makes the call raise. The depth need not be the same
    everywhere. *)
Theorem round_coords_returns_iff_roundable {float : Type}
    (round_float : Z → float → float) :
  (∀ coords : pyval float,
      is_ok (round_coords round_float coords) = roundable coords) ∧
  (∀ items : list (pyval float),
      roundable (PList items) = true ↔
      items ≠ [] ∧
      (Forall (fun c => is_list c = true ∧ roundable c = true) items ∨
       Forall (fun c => has_round c = true) items)) ∧
  (∀ c : pyval float, is_list c = false → roundable c = false).
Proof.
  split; [apply round_coords_is_ok|]. split; [|by intros []].
  intros [|c0 items]; [by split; [|intros []]|].
  cbn [roundable]. destruct (is_list c0) eqn:Hc0.
  - rewrite forallb_forall. split.
    + intros Hall. split; [done|]. left. apply Forall_forall.
      intros c Hc%list_elem_of_In. specialize (Hall c Hc). split; [|done].
      by destruct c.
    + intros [_ [Hall|Hall]] c Hc%list_elem_of_In.
      * rewrite Forall_forall in Hall. by apply Hall.
      * apply Forall_inv in Hall. by destruct c0.
  - rewrite forallb_forall. split.
    + intros Hall. split; [done|]. right. apply Forall_forall.
      intros c Hc%list_elem_of_In. by apply Hall.
    + intros [_ [Hall|Hall]] c Hc%list_elem_of_In.
      * apply Forall_inv in Hall as [? _]. congruence.
      * rewrite Forall_forall in Hall. by apply Hall.
Qed.

Lemma round_coords_returns_iff_roundable_witness :
  is_ok (round_coords fixed_round sample_coords) = true ∧
  is_ok (round_coords fixed_round
           (PList [PList [PFloat 1; PFloat 2]; PList [PList [PFloat 3]]])) = true ∧
  is_ok (round_coords fixed_round (PList [PList [PFloat 1; PFloat 2]; PFloat 3]))
  = false ∧
  is_ok (round_coords fixed_round (PList [PList [PFloat 1; PFloat 2]; PList []]))
  = false.
Proof.
  destruct (round_coords_returns_iff_roundable fixed_round) as (Hiff & _ & _).
  rewrite !Hiff. repeat split.
Defined.

(** ** The rounding pass over a document *)

Section AssocLists.
Context {float : Type}.
Implicit Types (entries : list (string * pyval float)) (x : pyval float).

Lemma assoc_get_set_eq key x entries :
  assoc_get key (assoc_set key x entries) = Some x.
Proof.
  induction entries as [|[k v] rest IH]; simpl.
  - by rewrite decide_True.
  - case_decide; simpl; [by rewrite decide_True|by rewrite decide_False].
Qed.

Lemma assoc_get_set_ne key k x entries :
  k ≠ key → assoc_get k (assoc_set key x entries) = assoc_get k entries.
Proof.
  intros Hk. induction entries as [|[k0 v] rest IH]; simpl.
  - by rewrite decide_False.
  - case_decide; simpl; [subst; by rewrite !decide_False by done|].
    case_decide; [done|apply IH].
Qed.

Lemma assoc_set_keys key x x0 entries :
  assoc_get key entries = Some x0 →
  (assoc_set key x entries).*1 = entries.*1.
Proof.
  induction entries as [|[k v] rest IH]; simpl; [done|].
  case_decide; [done|]. intros Hget. rewrite fmap_cons. f_equal. by apply IH.
Qed.

Lemma assoc_set_same key x entries :
  assoc_get key entries = Some x → assoc_set key x entries = entries.
Proof.
  induction entries as [|[k v] rest IH]; simpl; [done|].
  case_decide; [by intros [= ->]|]. intros. by rewrite IH.
Qed.

Lemma assoc_set_set key x y entries :
  assoc_set key x (assoc_set key y entries) = assoc_set key x entries.
Proof.
  induction entries as [|[k v] rest IH]; simpl.
  - by rewrite decide_True.
  - case_decide; simpl; [by rewrite decide_True|].
    rewrite decide_False by done. by rewrite IH.
Qed.

Lemma py_getitem_Ok (v : pyval float) key x :
  py_getitem v key = Ok x ↔ ∃ entries, v = PDict entries ∧ assoc_get key entries = Some x.
Proof.
  split.
  - destruct v as [| | | | | |entries]; simpl; try done.
    destruct (assoc_get key entries) eqn:Hget; [|done]. intros [= ->]. eauto.
  - intros (entries & -> & Hget). simpl. by rewrite Hget.
Qed.

Lemma same_but_set key x x0 entries :
  assoc_get key entries = Some x0 →
  same_but key (PDict entries) (PDict (assoc_set key x entries)).
Proof.
  intros Hget. exists entries, (assoc_set key x entries).
  split; [done|]. split; [done|]. split; [by eapply assoc_set_keys|].
  intros k Hk. by apply assoc_get_set_ne.
Qed.

End AssocLists.

Section RoundingPassMore.
Context {float : Type} (round_float : Z → float → float).

Lemma round_feature_Ok (feature feature' : pyval float) :
  round_feature round_float feature = Ok feature' ↔
  ∃ fentries gentries coords coords',
    feature = PDict fentries ∧
    assoc_get "geometry" fentries = Some (PDict gentries) ∧
    assoc_get "coordinates" gentries = Some coords ∧
    round_coords round_float coords = Ok coords' ∧
    feature' =
      PDict (assoc_set "geometry"
               (PDict (assoc_set "coordinates" coords' gentries)) fentries).
Proof.
  unfold round_feature. split.
  - destruct (py_getitem feature "geometry") as [geom|] eqn:Hgeom; [|done].
    apply py_getitem_Ok in Hgeom as (fentries & -> & Hgeom). simpl.
    destruct (py_getitem geom "coordinates") as [coords|] eqn:Hcoords; [|done].
    apply py_getitem_Ok in Hcoords as (gentries & -> & Hcoords). simpl.
    destruct (round_coords round_float coords) as [coords'|] eqn:Hround; [|done].
    simpl. intros [= <-]. by exists fentries, gentries, coords, coords'.
  - intros (fentries & gentries & coords & coords' & -> & Hgeom & Hcoords & Hround & ->).
    simpl. rewrite Hgeom. simpl. rewrite Hcoords. simpl. by rewrite Hround.
Qed.

Lemma round_feature_rounded (feature feature' : pyval float) :
  round_feature round_float feature = Ok feature' →
  rounded_feature round_float feature feature'.
Proof.
  intros (fentries & gentries & coords & coords' & -> & Hgeom & Hcoords & Hround & ->)
    %round_feature_Ok.
  exists (PDict gentries), (PDict (assoc_set "coordinates" coords' gentries)),
    coords, coords'.
  split; [by simpl; rewrite Hgeom|].
  split; [by simpl; rewrite assoc_get_set_eq|].
  split; [by eapply same_but_set|].
  split; [by simpl; rewrite Hcoords|].
  split; [by simpl; rewrite assoc_get_set_eq|].
  split; [by eapply same_but_set|done].
Qed.

Lemma round_feature_is_ok (feature : pyval float) :
  is_ok (round_feature round_float feature) = roundable_feature feature.
Proof.
  unfold round_feature, roundable_feature.
  destruct (py_getitem feature "geometry") as [geom|] eqn:Hgeom; [|done]. simpl.
  destruct (py_getitem geom "coordinates") as [coords|] eqn:Hcoords; [|done]. simpl.
  rewrite <- (round_coords_is_ok round_float).
  destruct (round_coords round_float coords); [|done]. simpl.
  apply py_getitem_Ok in Hcoords as (gentries & -> & _).
  by apply py_getitem_Ok in Hgeom as (fentries & -> & _).
Qed.

Lemma round_features_list (geojson_data : pyval float) features :
  py_getitem geojson_data "features" = Ok (PList features) →
  round_features round_float geojson_data =
    (features' ← rmap (round_feature round_float) features;
     py_setitem geojson_data "features" (PList features')).
Proof. intros Hfeatures. unfold round_features. by rewrite Hfeatures. Qed.

Lemma features_list_or_not (geojson_data : pyval float) :
  (∃ features, py_getitem geojson_data "features" = Ok (PList features)) ∨
  (∀ features, py_getitem geojson_data "features" ≠ Ok (PList features)).
Proof.
  destruct (py_getitem geojson_data "features") as [[]|]; eauto; by right.
Qed.

Lemma round_features_other (geojson_data geojson_data' : pyval float) :
  (∀ features, py_getitem geojson_data "features" ≠ Ok (PList features)) →
  round_features round_float geojson_data = Ok geojson_data' →
  geojson_data' = geojson_data.
Proof.
  intros Hother. unfold round_features.
  destruct (py_getitem geojson_data "features") as [features|]; [|done]. simpl.
  destruct features as [| | | |s|features|entries]; try done.
  - case_decide; [by intros [= <-]|done].
  - by destruct (Hother features).
  - destruct entries; [by intros [= <-]|done].
Qed.

Section Idempotent.
Hypothesis round_float_idem :
  ∀ f, round_float PRECISION (round_float PRECISION f) = round_float PRECISION f.

Lemma round_feature_fixed (feature feature' : pyval float) :
  round_feature round_float feature = Ok feature' →
  round_feature round_float feature' = Ok feature'.
Proof.
  intros (fentries & gentries & coords & coords' & -> & Hgeom & Hcoords & Hround & ->)
    %round_feature_Ok.
  apply round_feature_Ok.
  eexists _, _, coords', coords'. split; [done|].
  split; [apply assoc_get_set_eq|]. split; [apply assoc_get_set_eq|].
  split; [by eapply round_coords_fixed|].
  by rewrite !assoc_set_set.
Qed.

Lemma round_features_fixed (geojson_data geojson_data' : pyval float) :
  round_features round_float geojson_data = Ok geojson_data' →
  round_features round_float geojson_data' = Ok geojson_data'.
Proof.
  intros Hround.
  destruct (features_list_or_not geojson_data) as [[features Hfeatures]|Hother].
  - rewrite (round_features_list _ _ Hfeatures) in Hround.
    destruct (rmap _ features) as [features'|] eqn:Hmap; [|done]. simpl in Hround.
    apply py_getitem_Ok in Hfeatures as (entries & -> & Hfeatures).
    simpl in Hround. injection Hround as <-.
    rewrite (round_features_list _ features')
      by (simpl; by rewrite assoc_get_set_eq).
    rewrite (rmap_fixed (round_feature round_float) features'); simpl.
    + by rewrite assoc_set_set.
    + eapply rmap_Ok_Forall; [|exact Hmap].
      apply Forall_forall. intros x _ y. apply round_feature_fixed.
  - by pose proof (round_features_other _ _ Hother Hround) as ->.
Qed.

End Idempotent.
End RoundingPassMore.

Lemma named_document_rounds :
  round_features fixed_round named_document = Ok named_document_rounded.
Proof. vm_compute. reflexivity. Qed.

(** X8. When the rounding pass returns, the document has the same members
    in the same order with the same values, but for [features]; the list of
    features has the same length and order; every feature has the same
    members in the same order but for the value of [geometry], every
    geometry the same members but for the value of [coordinates], and the
    new coordinates are [round_coords] of the old ones. When [features] is
    not a list (it can only be an empty string or an empty object then) the
    document is returned as it was. *)
Theorem rounding_pass_changes_coordinates_only {float : Type}
    (round_float : Z → float → float) (geojson_data geojson_data' : pyval float) :
  round_features round_float geojson_data = Ok geojson_data' →
  (∀ features,
      py_getitem geojson_data "features" = Ok (PList features) →
      ∃ features',
        py_getitem geojson_data' "features" = Ok (PList features') ∧
        same_but "features" geojson_data geojson_data' ∧
        length features' = length features ∧
        Forall2 (rounded_feature round_float) features features') ∧
  ((∀ features, py_getitem geojson_data "features" ≠ Ok (PList features)) →
   geojson_data' = geojson_data).
Proof.
  intros Hround. split; [|intros Hother; by eapply round_features_other].
  intros features Hfeatures.
  rewrite (round_features_list _ _ _ Hfeatures) in Hround.
  destruct (rmap _ features) as [features'|] eqn:Hmap; [|done]. simpl in Hround.
  apply py_getitem_Ok in Hfeatures as (entries & -> & Hfeatures).
  simpl in Hround. injection Hround as <-.
  exists features'. split; [by simpl; rewrite assoc_get_set_eq|].
  split; [by eapply same_but_set|].
  split; [by eapply rmap_Ok_length|].
  apply rmap_Ok_Forall2 in Hmap.
  eapply Forall2_impl; [exact Hmap|]. apply round_feature_rounded.
Qed.

Lemma rounding_pass_changes_coordinates_only_witness :
  round_features fixed_round named_document = Ok named_document_rounded ∧
  ∃ features',
    py_getitem named_document_rounded "features" = Ok (PList features') ∧
    same_but "features" named_document named_document_rounded ∧
    length features' = length named_features ∧
    Forall2 (rounded_feature fixed_round) named_features features'.
Proof.
  split; [exact named_document_rounds|].
  exact (proj1 (rounding_pass_changes_coordinates_only fixed_round
                  named_document named_document_rounded named_document_rounds)
           named_features eq_refl).
Defined.

(** X9. With a [round] that leaves its own results alone, the rounding pass
    over a whole document is idempotent: a second pass over the document
    that a first pass returned gives that document back, members, order
    and values. *)
Theorem rounding_pass_idempotent {float : Type} (round_float : Z → float → float) :
  (∀ f, round_float PRECISION (round_float PRECISION f) = round_float PRECISION f) →
  ∀ geojson_data : pyval float,
    round_features round_float geojson_data ≫= round_features round_float
    = round_features round_float geojson_data.
Proof.
  intros Hidem geojson_data.
  destruct (round_features round_float geojson_data) as [geojson_data'|] eqn:Hround;
    [|done].
  simpl. by eapply round_features_fixed.
Qed.

Lemma rounding_pass_idempotent_witness :
  (round_features fixed_round named_document ≫= round_features fixed_round)
  = round_features fixed_round named_document.
Proof. exact (rounding_pass_idempotent fixed_round fixed_round_idem named_document). Defined.

(** X10. Over a list of features the rounding pass returns exactly when
    every feature is an object whose [geometry] is an object whose
    [coordinates] the rounding accepts; and when it raises, the exception is
    that of the first feature refused. *)
Theorem rounding_pass_returns_iff {float : Type} (round_float : Z → float → float)
    (geojson_data : pyval float) (features : list (pyval float)) :
  py_getitem geojson_data "features" = Ok (PList features) →
  is_ok (round_features round_float geojson_data)
  = forallb roundable_feature features ∧
  (∀ e, round_features round_float geojson_data = Raise e ↔
        ∃ before feature after,
          features = before ++ feature :: after ∧
          forallb roundable_feature before = true ∧
          round_feature round_float feature = Raise e).
Proof.
  intros Hfeatures. rewrite (round_features_list _ _ _ Hfeatures).
  apply py_getitem_Ok in Hfeatures as (entries & -> & _). simpl.
  assert (∀ x, is_ok (round_feature round_float x) = roundable_feature x) as Hok
    by apply round_feature_is_ok.
  split.
  - rewrite <- (rmap_is_ok (round_feature round_float) roundable_feature)
      by (by apply Forall_forall).
    by destruct (rmap _ features).
  - intros e.
    rewrite <- (rmap_Raise_first (round_feature round_float) roundable_feature) by done.
    destruct (rmap _ features); simpl; [by split|split; congruence].
Qed.

Lemma rounding_pass_returns_iff_witness :
  is_ok (round_features fixed_round named_document) = true ∧
  is_ok (round_features fixed_round (@null_geometry_document Z)) = false.
Proof.
  split.
  - exact (proj1 (rounding_pass_returns_iff fixed_round named_document
                    named_features eq_refl)).
  - exact (proj1 (rounding_pass_returns_iff fixed_round null_geometry_document
                    _ eq_refl)).
Defined.

(** ** The cells and the order of the cleaned attributes *)

Section CleanCells.
Context {float : Type}.
Implicit Types (gdf : GeoDataFrame float) (col : column float).

Lemma normalised_cells col :
  col_cells (null_to_None (dates_to_strings col))
  = cleaned_cell (col_dtype col) <$> col_cells col.
Proof.
  unfold null_to_None, dates_to_strings.
  destruct (col_dtype col) eqn:Hdt; cbn [col_cells col_dtype];
    rewrite <- ?list_fmap_compose, ?Hdt;
    apply list_fmap_ext; intros _ c _; by destruct c.
Qed.

Lemma normalised_dtype col :
  col_dtype (null_to_None (dates_to_strings col))
  = match col_dtype col with DDatetime64 => DObject | dt => dt end.
Proof.
  unfold dates_to_strings. destruct (col_dtype col) eqn:Hdt; simpl; congruence.
Qed.

Lemma names_of_one (attributes : list (column float)) (k : string) :
  NoDup (col_name <$> attributes) →
  col_name <$> filter (fun c => col_name c = k) attributes
  = if decide (k ∈ col_name <$> attributes) then [k] else [].
Proof.
  induction attributes as [|c l IH]; intros Hnodup.
  - rewrite decide_False; [done|]. by intros ?%elem_of_nil.
  - rewrite fmap_cons in Hnodup. apply NoDup_cons in Hnodup as [Hc Hl].
    rewrite filter_cons, fmap_cons. destruct (decide (col_name c = k)) as [<-|Hne].
    + rewrite fmap_cons, IH by done. rewrite decide_False by done.
      rewrite decide_True; [done|]. by left.
    + rewrite IH by done. apply decide_ext. rewrite elem_of_cons.
      intuition congruence.
Qed.

Lemma names_of_selection (attributes : list (column float)) (ks : list string) :
  NoDup (col_name <$> attributes) →
  col_name <$> (ks ≫= fun name => filter (fun c => col_name c = name) attributes)
  = filter (fun k => k ∈ col_name <$> attributes) ks.
Proof.
  intros Hnodup. induction ks as [|k ks IH]; [done|].
  rewrite bind_cons, fmap_app, IH, names_of_one, filter_cons by done.
  by destruct (decide (k ∈ col_name <$> attributes)).
Qed.

(** Where no two columns share a name every column of dates is converted. *)
Lemma convert_dates_unique (attributes : list (column float)) :
  NoDup (col_name <$> attributes) →
  convert_dates attributes = dates_to_strings <$> attributes.
Proof.
  intros Hnodup. unfold convert_dates. apply list_fmap_ext. intros i col Hcol.
  rewrite decide_True; [done|].
  rewrite <- (length_fmap col_name), names_of_one by done.
  rewrite decide_True; [done|].
  apply list_elem_of_lookup_2 in Hcol. by apply list_elem_of_fmap_2.
Qed.

(** The names of the columns that the cleaning selects. *)
Lemma selection_names keep gdf :
  "geometry" ∉ keep → NoDup (gdf_columns gdf) →
  col_name <$> selected_columns keep gdf
  = match keep with
    | [] => filter (fun a => startswith a "__" = false) (attribute_names gdf)
    | _ => filter (fun a => a ∈ attribute_names gdf ∧ startswith a "__" = false) keep
    end.
Proof.
  intros Hkeep Hnodup. unfold attribute_names, selected_columns. cbv zeta.
  pose proof (filter_fmap_name (fun a => startswith a "__" = false)
                (gdf_attributes gdf)) as Hdrop.
  cbn beta in Hdrop.
  destruct keep as [|k keep]; [done|].
  unfold gdf_columns in Hnodup.
  apply NoDup_app in Hnodup as (Hnodup & Hgeometry & _).
  rewrite names_of_selection by (rewrite Hdrop; by apply NoDup_filter).
  rewrite Hdrop.
  assert ("geometry" ∉ col_name <$> gdf_attributes gdf) as Hno.
  { intros Hin. apply (Hgeometry _ Hin). by left. }
  rewrite filter_cons, decide_False
    by (by intros [_ ?]%list_elem_of_filter).
  rewrite list_filter_filter. apply list_filter_iff. intros a.
  rewrite elem_of_app, !list_elem_of_filter. tauto.
Qed.

End CleanCells.

Lemma mixed_frame_cleaned :
  clean_attributes [] mixed_frame
  = Ok {| gdf_crs := Some "EPSG:4326";
          gdf_geometry := [Some unit_square; None];
          gdf_attributes :=
            [{| col_name := "name"; col_dtype := DObject;
                col_cells := [CStr "A"; CNone] |};
             {| col_name := "surface"; col_dtype := DFloat64;
                col_cells := [CFloat 1000000000; CNaN] |};
             {| col_name := "date_maj"; col_dtype := DObject;
                col_cells := [CStr "2024-03-09"; CNone] |}] |}.
Proof. vm_compute. reflexivity. Qed.

Lemma mixed_frame_columns_differ : NoDup (gdf_columns mixed_frame).
Proof. apply (bool_decide_unpack _). vm_compute. exact I. Qed.



(** X12. The order of the attributes that come out of the cleaning, for an
    allow-list that does not name the geometry column. With an empty
    allow-list they keep the order of the source. With a non-empty one and
    a source whose column names differ, they come in the order of the
    allow-list, not of the source, and a name listed twice comes out
    twice. *)
Theorem cleaned_attributes_order {float : Type} (keep : list string)
    (gdf gdf' : GeoDataFrame float) :
  "geometry" ∉ keep →
  clean_attributes keep gdf = Ok gdf' →
  (keep = [] →
   attribute_names gdf'
   = filter (fun a => startswith a "__" = false) (attribute_names gdf)) ∧
  (keep ≠ [] → NoDup (gdf_columns gdf) →
   attribute_names gdf'
   = filter (fun a => a ∈ attribute_names gdf ∧ startswith a "__" = false) keep).
Proof.
  intros Hkeep Hclean.
  rewrite clean_attributes_eq, decide_False in Hclean by done.
  injection Hclean as <-.
  unfold attribute_names at 1 3. cbn [gdf_attributes set_attributes].
  rewrite normalised_names. split.
  - intros ->. unfold selected_columns, attribute_names.
    exact (filter_fmap_name (fun a => startswith a "__" = false)
             (gdf_attributes gdf)).
  - intros Hne Hnodup. rewrite selection_names by done. by destruct keep.
Qed.

Lemma allow_list_without_geometry :
  "geometry" ∉ ["date_maj"; "name"; "owner"; "name"].
Proof. apply (bool_decide_unpack _). vm_compute. exact I. Qed.

Lemma mixed_frame_selection :
  clean_attributes ["date_maj"; "name"; "owner"; "name"] mixed_frame
  = Ok {| gdf_crs := Some "EPSG:4326";
          gdf_geometry := [Some unit_square; None];
          gdf_attributes :=
            [{| col_name := "date_maj"; col_dtype := DObject;
                col_cells := [CStr "2024-03-09"; CNone] |};
             {| col_name := "name"; col_dtype := DObject;
                col_cells := [CStr "A"; CNone] |};
             {| col_name := "name"; col_dtype := DObject;
                col_cells := [CStr "A"; CNone] |}] |}.
Proof. vm_compute. reflexivity. Qed.

Lemma cleaned_attributes_order_witness :
  ["date_maj"; "name"; "name"]
  = filter (fun a => a ∈ attribute_names mixed_frame ∧ startswith a "__" = false)
      ["date_maj"; "name"; "owner"; "name"].
Proof.
  apply (proj2 (cleaned_attributes_order
                  ["date_maj"; "name"; "owner"; "name"] mixed_frame _
                  allow_list_without_geometry mixed_frame_selection)).
  - discriminate.
  - exact mixed_frame_columns_differ.
Defined.

(** ** The reduction report *)



(** ** What a job touches *)

Section Frames.
Context {float : Type}.
Implicit Types (w : world float).

Lemma writes_output_only_refl output_name w : writes_output_only output_name w w.
Proof. repeat split; try done. exists []. by rewrite app_nil_r. Qed.

Lemma writes_output_only_trans output_name w1 w2 w3 :
  writes_output_only output_name w1 w2 → writes_output_only output_name w2 w3 →
  writes_output_only output_name w1 w3.
Proof.
  intros (Hraw & Hbak & Hlock & Hclock & Hreads & Hproc & lines & Hlog)
         (Hraw' & Hbak' & Hlock' & Hclock' & Hreads' & Hproc' & lines' & Hlog').
  repeat split; try congruence.
  - intros name Hname. by rewrite Hproc', Hproc.
  - exists (lines ++ lines'). by rewrite Hlog', Hlog, app_assoc.
Qed.

Lemma preserves_ret {A} output_name (a : A) :
  preserves (writes_output_only output_name) (mret a : M float A).
Proof. intros w r w' [= <- <-]. apply writes_output_only_refl. Qed.

Lemma preserves_lift {A} output_name (r : result A) :
  preserves (writes_output_only output_name) (lift r : M float A).
Proof. intros w r' w' [= <- <-]. apply writes_output_only_refl. Qed.

Lemma preserves_bind {A B} output_name (m : M float A) (k : A → M float B) :
  preserves (writes_output_only output_name) m →
  (∀ a, preserves (writes_output_only output_name) (k a)) →
  preserves (writes_output_only output_name) (m ≫= k).
Proof.
  intros Hm Hk w r w'. unfold mbind, M_bind.
  destruct (m w) as [[a|e] w1] eqn:Hrun.
  - intros Hrun'. eapply writes_output_only_trans; [by eapply Hm|by eapply Hk].
  - intros [= <- <-]. by eapply Hm.
Qed.

Lemma preserves_logger output_name (line : log_record) :
  preserves (writes_output_only output_name) (logger line : M float unit).
Proof. intros w r w' [= <- <-]. repeat split; try done. by eexists. Qed.

Lemma preserves_log_all output_name (lines : list log_record) :
  preserves (writes_output_only output_name) (log_all lines : M float unit).
Proof.
  unfold log_all. induction lines as [|line lines IH]; simpl.
  - apply preserves_ret.
  - apply preserves_bind; [apply preserves_logger|done].
Qed.

Lemma preserves_read_file output_name source_name :
  preserves (writes_output_only output_name)
    (read_file source_name : M float (GeoDataFrame float)).
Proof.
  intros w r w'. unfold read_file.
  destruct (raw_files w !! source_name); intros [= <- <-];
    apply writes_output_only_refl.
Qed.

Lemma preserves_json_load output_name :
  preserves (writes_output_only output_name)
    (json_load output_name : M float (pyval float)).
Proof.
  intros w r w'. unfold json_load.
  destruct (processed_files w !! output_name); intros [= <- <-];
    apply writes_output_only_refl.
Qed.

Lemma writes_output_only_insert output_name (document : pyval float) w :
  writes_output_only output_name w
    (set_processed_files (<[output_name := document]> (processed_files w)) w).
Proof.
  repeat split; try done.
  - intros name Hname. simpl. by rewrite lookup_insert_ne.
  - exists []. by rewrite app_nil_r.
Qed.

Lemma writes_output_only_delete output_name w :
  writes_output_only output_name w
    (set_processed_files (delete output_name (processed_files w)) w).
Proof.
  repeat split; try done.
  - intros name Hname. simpl. by rewrite lookup_delete_ne.
  - exists []. by rewrite app_nil_r.
Qed.

Lemma preserves_json_dump output_name (document : pyval float) :
  preserves (writes_output_only output_name) (json_dump output_name document).
Proof. intros w r w' [= <- <-]. apply writes_output_only_insert. Qed.

Lemma preserves_write_geojson (lib : collaborators float) output_name gdf :
  preserves (writes_output_only output_name) (write_geojson lib output_name gdf).
Proof.
  intros w r w'. unfold write_geojson.
  destruct (to_file lib gdf) as [document|e [| |content]]; intros [= <- <-];
    [apply writes_output_only_insert|apply writes_output_only_refl
    |apply writes_output_only_delete|apply writes_output_only_insert].
Qed.

End Frames.

#[local] Ltac frame_step :=
  first
    [ apply preserves_bind; [|intros ?]
    | apply preserves_logger
    | apply preserves_log_all
    | apply preserves_lift
    | apply preserves_ret
    | apply preserves_read_file
    | apply preserves_write_geojson
    | apply preserves_json_load
    | apply preserves_json_dump
    | match goal with
      | |- preserves _ (let '(_, _) := ?p in _) => destruct p
      | |- preserves _ (if ?c then _ else _) => destruct c
      end ].

Section JobFrames.
Context {float : Type} (lib : collaborators float) (cfg : settings).
Implicit Types (w : world float).

Lemma for_each_unlink_log (stale : list string) w r w' :
  for_each (fun old => _ ← unlink old; logger (LogBackupDeleted old)) stale w
  = (r, w') →
  ∃ lines, log w' = log w ++ lines.
Proof.
  revert w. induction stale as [|old stale IH]; intros w Hrun.
  { injection Hrun as <- <-. exists []. by rewrite app_nil_r. }
  cbn [for_each] in Hrun.
  unfold mbind at 1, M_bind at 1 in Hrun. unfold mbind at 1, M_bind at 1 in Hrun.
  unfold unlink in Hrun. destruct (decide (old ∈ locked w)).
  { injection Hrun as <- <-. exists []. by rewrite app_nil_r. }
  destruct (backup_files w !! old) as [content|] eqn:Hold.
  2:{ injection Hrun as <- <-. exists []. by rewrite app_nil_r. }
  cbn [logger set_backup_files] in Hrun.
  apply IH in Hrun as [lines Hlog]. cbn in Hlog.
  exists (LogBackupDeleted old :: lines). by rewrite Hlog, <- app_assoc.
Qed.

Lemma backup_existing_file_frame output_name w r w' :
  backup_existing_file output_name w = (r, w') →
  jobs_frame [("", {| source_file := ""; output_name := output_name;
                      description := "" |})] w w' ∧
  processed_files w' = processed_files w.
Proof.
  intros Hrun. unfold backup_existing_file in Hrun.
  destruct (processed_files w !! output_name) as [content|] eqn:Hout.
  2:{ injection Hrun as <- <-. repeat split; try done; try lia.
      exists []. by rewrite app_nil_r. }
  unfold mbind, M_bind, datetime_now, copy2, logger, list_backups, set_backup_files
    in Hrun.
  cbn in Hrun.
  match type of Hrun with
  | context [for_each _ (all_but_last_3 (sorted_glob _ _ ?files))] =>
      pose proof (stale_there (path_stem output_name) (path_suffix output_name)
                    files) as Hstale
  end.
  pose proof (for_each_unlink_log _ _ _ _ Hrun) as [lines Hlog].
  apply for_each_unlink_frame in Hrun
    as (Hraw & Hproc & Hlocked & Hclock & Hreads & Hfiles).
  cbn in Hraw, Hproc, Hlocked, Hclock, Hreads, Hfiles, Hlog.
  split; [|done]. unfold jobs_frame. rewrite Hraw, Hlocked, Hclock, Hreads.
  repeat split; try done; try (simpl; lia).
  - intros name _. by rewrite Hproc.
  - intros name [Hname _]%Forall_cons. cbn in Hname. rewrite Hfiles.
    + rewrite lookup_insert_ne; [done|]. intros <-.
      unfold backup_name_of in Hname.
      by rewrite glob_match_backup_name in Hname.
    + intros [Hmatch _]%Hstale. congruence.
  - eexists. by rewrite Hlog, <- app_assoc.
Qed.

Lemma bind_run {A B} (m : M float A) (k : A → M float B) w r w' :
  (m ≫= k) w = (r, w') →
  (∃ a w1, m w = (Ok a, w1) ∧ k a w1 = (r, w')) ∨
  (∃ e, m w = (Raise e, w') ∧ r = Raise e).
Proof.
  unfold mbind, M_bind. destruct (m w) as [[a|e] w1].
  - intros Hk. left. eauto.
  - intros [= <- <-]. right. eauto.
Qed.

Lemma steps_after_backup (layer_config : layer_config) w r w' :
  export_layer lib cfg layer_config w = (r, w') →
  ∃ rb wb,
    backup_existing_file (output_name layer_config) w = (rb, wb) ∧
    writes_output_only (output_name layer_config) wb w'.
Proof.
  unfold export_layer. intros [(a & wb & Hbackup & Hrest)|(e & Hbackup & ->)]%bind_run.
  - exists (Ok a), wb. split; [done|]. revert Hrest.
    unfold simplify_geometries. cbv zeta.
    match goal with |- ?m wb = _ → _ =>
      assert (preserves (writes_output_only (output_name layer_config)) m) as Hm
    end.
    { repeat frame_step. }
    apply Hm.
  - exists (Raise e), w'. split; [done|]. apply writes_output_only_refl.
Qed.

Lemma optimise_output_preserves layer_name (layer_config : layer_config) :
  preserves (writes_output_only (output_name layer_config))
    (optimise_output lib layer_name layer_config).
Proof. unfold optimise_output. repeat frame_step. Qed.

Lemma frame_after_backup (layer_name : string) (layer_config : layer_config)
    w wb w' :
  jobs_frame [("", {| source_file := ""; output_name := output_name layer_config;
                      description := "" |})] w wb →
  writes_output_only (output_name layer_config) wb w' →
  jobs_frame [(layer_name, layer_config)] w w'.
Proof.
  intros (Hraw & Hlock & Hclock & Hreads & Hproc & Hbak & lines & Hlog)
         (Hraw' & Hbak' & Hlock' & Hclock' & Hreads' & Hproc' & lines' & Hlog').
  unfold jobs_frame. rewrite Hraw', Hlock', Hclock', Hreads', Hbak'.
  repeat split; try done; try (simpl in *; lia).
  - intros name [Hname _]%Forall_cons. cbn in Hname.
    rewrite Hproc' by done. apply Hproc. by repeat constructor.
  - intros name [Hname _]%Forall_cons. cbn in Hname.
    apply Hbak. by repeat constructor.
  - exists (lines ++ lines'). by rewrite Hlog', Hlog, app_assoc.
Qed.

Lemma process_layer_steps_frame layer_name (layer_config : layer_config) w r w' :
  process_layer_steps lib cfg layer_name layer_config w = (r, w') →
  jobs_frame [(layer_name, layer_config)] w w'.
Proof.
  unfold process_layer_steps.
  intros [(a & w1 & Hexport & Hrest)|(e & Hexport & ->)]%bind_run.
  - apply steps_after_backup in Hexport as (rb & wb & Hbackup & Hsteps).
    apply backup_existing_file_frame in Hbackup as [Hbackup _].
    eapply frame_after_backup; [done|].
    eapply writes_output_only_trans; [done|].
    by eapply optimise_output_preserves.
  - apply steps_after_backup in Hexport as (rb & wb & Hbackup & Hsteps).
    apply backup_existing_file_frame in Hbackup as [Hbackup _].
    by eapply frame_after_backup.
Qed.

Lemma jobs_frame_log (layers : list (string * layer_config)) w w' line :
  jobs_frame layers w w' → jobs_frame layers w (logger line w').2.
Proof.
  intros (Hraw & Hlock & Hclock & Hreads & Hproc & Hbak & lines & Hlog).
  repeat split; try done; try (simpl; lia).
  exists (lines ++ [line]). simpl. by rewrite Hlog, app_assoc.
Qed.

Lemma jobs_frame_nil w : jobs_frame [] w w.
Proof.
  repeat split; try done; try (simpl; lia). exists []. by rewrite app_nil_r.
Qed.

Lemma jobs_frame_nil_one layer w : jobs_frame [layer] w w.
Proof.
  repeat split; try done; try (simpl; lia). exists []. by rewrite app_nil_r.
Qed.

Lemma jobs_frame_cons layer (layers : list (string * layer_config)) w1 w2 w3 :
  jobs_frame [layer] w1 w2 → jobs_frame layers w2 w3 →
  jobs_frame (layer :: layers) w1 w3.
Proof.
  intros (Hraw & Hlock & Hclock & Hreads & Hproc & Hbak & lines & Hlog)
         (Hraw' & Hlock' & Hclock' & Hreads' & Hproc' & Hbak' & lines' & Hlog').
  unfold jobs_frame. rewrite Hraw', Hlock', Hclock'.
  repeat split; try done; try (simpl in *; lia).
  - intros name [Hname Hnames]%Forall_cons.
    rewrite Hproc' by done. apply Hproc. by repeat constructor.
  - intros name [Hname Hnames]%Forall_cons.
    rewrite Hbak' by done. apply Hbak. by repeat constructor.
  - exists (lines ++ lines'). by rewrite Hlog', Hlog, app_assoc.
Qed.

Lemma process_layer_frame layer_name (layer_config : layer_config) w :
  jobs_frame [(layer_name, layer_config)] w
    (process_layer lib cfg layer_name layer_config w).2.
Proof.
  unfold process_layer.
  destruct (raw_files w !! source_file layer_config).
  - destruct (process_layer_steps lib cfg layer_name layer_config w)
      as [[[]|e] w'] eqn:Hsteps; apply process_layer_steps_frame in Hsteps;
      [done|by apply jobs_frame_log].
  - apply jobs_frame_log, jobs_frame_nil_one.
Qed.

Lemma process_layers_frame layers w :
  jobs_frame layers w (process_layers lib cfg layers w).2.
Proof.
  revert w. induction layers as [|[layer_name layer_config] layers IH]; intros w.
  - apply jobs_frame_nil.
  - cbn [process_layers].
    pose proof (process_layer_frame layer_name layer_config w) as Hjob.
    destruct (process_layer lib cfg layer_name layer_config w) as [ok w1].
    specialize (IH w1).
    destruct (process_layers lib cfg layers w1) as [oks w2].
    by eapply jobs_frame_cons.
Qed.

End JobFrames.


Lemma configured_outputs_have_no_wildcard :
  Forall (fun layer : string * layer_config =>
            wildcard_free (path_stem (output_name layer.2)) = true ∧
            wildcard_free (path_suffix (output_name layer.2)) = true) LAYERS_CONFIG.
Proof. repeat constructor. Qed.


(** X15. A layer whose source file is absent when the run starts fails
    wherever it stands among the jobs, since no job creates or removes a
    source: its outcome is [False], its error line is in the log, and the
    exit status is 1. *)
Theorem absent_source_fails_the_run {float : Type}
    (lib : collaborators float) (cfg : settings)
    (layers : list (string * layer_config))
    (layer_name : string) (layer_config : layer_config) (w : world float) :
  (layer_name, layer_config) ∈ layers →
  raw_files w !! source_file layer_config = None →
  (∃ i, layers !! i = Some (layer_name, layer_config) ∧
        (process_layers lib cfg layers w).1 !! i = Some false) ∧
  LogSourceNotFound (source_file layer_config)
    ∈ log (process_layers lib cfg layers w).2 ∧
  (main lib cfg layers w).1 = 1 ∧
  LogSourceNotFound (source_file layer_config) ∈ log (main lib cfg layers w).2.
Proof.
  intros Hin Hnone.
  assert (∀ w0 : world float,
             raw_files w0 = raw_files w →
             (∃ i, layers !! i = Some (layer_name, layer_config) ∧
                   (process_layers lib cfg layers w0).1 !! i = Some false) ∧
             LogSourceNotFound (source_file layer_config)
               ∈ log (process_layers lib cfg layers w0).2) as Hjobs.
  { intros w0 Hw0.
    apply list_elem_of_split in Hin as (before & after & ->).
    rewrite process_layers_app.
    pose proof (process_layers_length lib cfg before w0) as Hlen.
    pose proof (process_layers_frame lib cfg before w0) as (Hraw & _).
    destruct (process_layers lib cfg before w0) as [oks1 w1]. cbn [fst snd] in *.
    cbn [process_layers].
    rewrite process_layer_missing_source by (by rewrite Hraw, Hw0).
    pose proof (process_layers_frame lib cfg after
                  (logger (LogSourceNotFound (source_file layer_config)) w1).2)
      as (_ & _ & _ & _ & _ & _ & lines & Hlog).
    destruct (process_layers lib cfg after _) as [oks2 w2]. cbn [fst snd] in *.
    split.
    - exists (length before). split; [by rewrite list_lookup_middle|].
      by rewrite list_lookup_middle.
    - rewrite Hlog. simpl. rewrite !elem_of_app, list_elem_of_singleton. auto. }
  split; [by apply Hjobs|]. split; [by apply Hjobs|].
  unfold main.
  set (w0 := ((_ ← setup_logging; now ← datetime_now; logger (LogDate now)) w).2).
  destruct (Hjobs w0 eq_refl) as [(i & _ & Hfalse) Hlogged].
  pose proof (process_layers_length lib cfg layers w0) as Hlen.
  destruct (process_layers lib cfg layers w0) as [oks w1]. cbn [fst snd] in *.
  destruct (count_true_length oks) as [Hle Heq]. unfold len.
  case_decide as Hcount; cbn [fst snd].
  - exfalso. assert (Forall (fun ok => ok = true) oks) as Hall by (apply Heq; lia).
    rewrite Forall_lookup in Hall. by specialize (Hall i false Hfalse).
  - split; [done|]. simpl. rewrite !elem_of_app. auto.
Qed.

Lemma first_run_has_no_ilots : raw_files first_run !! "ILOTS.gpkg" = None.
Proof. vm_compute. reflexivity. Qed.

Lemma absent_source_fails_the_run_witness :
  (main sample_lib config LAYERS_CONFIG first_run).1 = 1 ∧
  LogSourceNotFound "ILOTS.gpkg" ∈ log (main sample_lib config LAYERS_CONFIG first_run).2.
Proof.
  destruct (absent_source_fails_the_run sample_lib config LAYERS_CONFIG "ilots"
              {| source_file := "ILOTS.gpkg"; output_name := "ilots.geojson";
                 description := "Ilots urbains" |} first_run)
    as (_ & _ & Hexit & Hlog).
  - apply list_elem_of_further, list_elem_of_here.
  - exact first_run_has_no_ilots.
  - split; [exact Hexit|exact Hlog].
Defined.

(** ** The outcome of a job *)

Section JobOutcome.
Context {float : Type} (lib : collaborators float) (cfg : settings).
Implicit Types (w : world float) (gdf : GeoDataFrame float).

Lemma log_all_run (lines : list log_record) w :
  log_all lines w
  = (Ok (), {| raw_files := raw_files w; processed_files := processed_files w;
               backup_files := backup_files w; locked := locked w;
               clock := clock w; reads := reads w; log := log w ++ lines |}).
Proof.
  revert w. unfold log_all. induction lines as [|line lines IH]; intros w.
  - simpl. unfold mret, M_ret. rewrite app_nil_r. by destruct w.
  - cbn [for_each]. unfold mbind, M_bind. cbn [logger]. rewrite IH. cbn.
    by rewrite <- app_assoc.
Qed.

Lemma report_reduction_Ok (o s : Z) : ∃ line, report_reduction o s = Ok line.
Proof.
  unfold report_reduction. destruct (Z.ltb_spec 0 o); [|by eexists].
  unfold py_truediv. rewrite decide_False by lia. by eexists.
Qed.

Lemma validate_keeps_crs gdf :
  gdf_crs (validate_and_fix_geometries (is_valid lib) (buffer lib) gdf).1
  = gdf_crs gdf.
Proof. unfold validate_and_fix_geometries. by destruct (0 <? _). Qed.

(** The frame that step 5 hands on is determined by the frame loaded, and
    so are the frame to export and the exception of the steps. *)
Lemma reprojected_unique (gdf0 gdf1 gdf1' : GeoDataFrame float) :
  reprojected lib cfg gdf0 gdf1 → reprojected lib cfg gdf0 gdf1' → gdf1 = gdf1'.
Proof. intros [[? ?]|[? ?]] [[? ?]|[? ?]]; congruence. Qed.

Lemma prepared_unique (gdf0 gdf gdf' : GeoDataFrame float) :
  prepared lib cfg gdf0 gdf → prepared lib cfg gdf0 gdf' → gdf = gdf'.
Proof.
  intros (gdf1 & gdf2 & o & s & Hcrs & Hsimp & Hclean)
         (gdf1' & gdf2' & o' & s' & Hcrs' & Hsimp' & Hclean').
  assert (gdf1' = gdf1) as -> by (by eapply reprojected_unique).
  congruence.
Qed.

Lemma prepared_not_failed (gdf0 gdf : GeoDataFrame float) e :
  prepared lib cfg gdf0 gdf → fails_before_export lib cfg gdf0 e → False.
Proof.
  intros (gdf1 & gdf2 & o & s & Hcrs & Hsimp & Hclean)
         [[Hne Hto]|(gdf1' & Hcrs' & Hwhy)].
  - destruct Hcrs as [[? ?]|[? ?]]; congruence.
  - assert (gdf1' = gdf1) as -> by (by eapply reprojected_unique).
    destruct Hwhy as [?|(? & ? & ? & ? & ?)]; congruence.
Qed.

Lemma fails_before_export_unique (gdf0 : GeoDataFrame float) e e' :
  fails_before_export lib cfg gdf0 e → fails_before_export lib cfg gdf0 e' → e = e'.
Proof.
  intros [[Hne Hto]|(gdf1 & Hcrs & Hwhy)] [[Hne' Hto']|(gdf1' & Hcrs' & Hwhy')].
  - congruence.
  - destruct Hcrs' as [[? ?]|[? ?]]; congruence.
  - destruct Hcrs as [[? ?]|[? ?]]; congruence.
  - assert (gdf1' = gdf1) as -> by (by eapply reprojected_unique).
    destruct Hwhy as [?|(? & ? & ? & ? & ?)], Hwhy' as [?|(? & ? & ? & ? & ?)];
      congruence.
Qed.

(** How the steps 6 to 8 end on the frame that step 5 handed on. *)
Lemma after_reprojection_inv (layer_config : layer_config)
    (gdf1 : GeoDataFrame float) w r w' :
  (simplified ← lift (simplify_geometries lib cfg gdf1);
   let '(gdf, original_vertices, simplified_vertices) := simplified in
   line ← lift (report_reduction original_vertices simplified_vertices);
   _ ← logger line;
   gdf ← lift (clean_attributes (attributes_to_keep cfg) gdf);
   write_geojson lib (output_name layer_config) gdf) w = (r, w') →
  backup_files w' = backup_files w ∧
  ((∃ e, r = Raise e ∧ processed_files w' = processed_files w ∧
         (simplify_geometries lib cfg gdf1 = Raise e ∨
          ∃ gdf2 original_vertices simplified_vertices,
            simplify_geometries lib cfg gdf1
            = Ok (gdf2, original_vertices, simplified_vertices) ∧
            clean_attributes (attributes_to_keep cfg) gdf2 = Raise e)) ∨
   (∃ gdf2 original_vertices simplified_vertices gdf,
      simplify_geometries lib cfg gdf1
      = Ok (gdf2, original_vertices, simplified_vertices) ∧
      clean_attributes (attributes_to_keep cfg) gdf2 = Ok gdf ∧
      ((∃ e left,
          r = Raise e ∧ to_file lib gdf = ExportFailed e left ∧
          processed_files w'
          = after_failed_export left (output_name layer_config)
              (processed_files w)) ∨
       (∃ document,
          r = Ok () ∧ to_file lib gdf = Exported document ∧
          processed_files w'
          = <[output_name layer_config := document]> (processed_files w))))).
Proof.
  unfold mbind at 1, M_bind at 1. unfold lift at 1.
  destruct (simplify_geometries lib cfg gdf1) as [[[gdf2 o] s]|e] eqn:Hsimp.
  2:{ intros [= <- <-]. split; [done|]. left. exists e. auto. }
  destruct (report_reduction_Ok o s) as [line Hline].
  unfold mbind at 1, M_bind at 1. unfold lift at 1. rewrite Hline.
  unfold mbind at 1, M_bind at 1. cbn [logger].
  unfold mbind at 1, M_bind at 1. unfold lift at 1.
  destruct (clean_attributes (attributes_to_keep cfg) gdf2) as [gdf|e] eqn:Hclean.
  2:{ intros [= <- <-]. split; [done|]. left. exists e.
      split; [done|]. split; [done|]. right. by exists gdf2, o, s. }
  unfold write_geojson.
  destruct (to_file lib gdf) as [document|e left] eqn:Hfile.
  - intros [= <- <-]. split; [done|]. right. exists gdf2, o, s, gdf.
    split; [done|]. split; [done|]. right. by exists document.
  - intros Hrun. assert (r = Raise e ∧ backup_files w' = backup_files w ∧
                         processed_files w'
                         = after_failed_export left (output_name layer_config)
                             (processed_files w)) as (-> & Hbak & Hproc).
    { destruct left; injection Hrun as <- <-; done. }
    split; [done|]. right. exists gdf2, o, s, gdf.
    split; [done|]. split; [done|]. left. by exists e, left.
Qed.

(** How the export half of a job ends: with the exception of the first
    step that raised and the output file as it was; with the exception of
    the driver and the output file as the driver left it; or with the export
    of the frame that the steps made. *)
Lemma export_layer_inv (layer_config : layer_config) w r w' :
  export_layer lib cfg layer_config w = (r, w') →
  backup_files w' = backup_files (backup_existing_file (output_name layer_config) w).2 ∧
  ((∃ e, r = Raise e ∧ processed_files w' = processed_files w ∧
         ((backup_existing_file (output_name layer_config) w).1 = Raise e ∨
          (backup_existing_file (output_name layer_config) w).1 = Ok () ∧
          (raw_files w !! source_file layer_config = None ∨
           raw_files w !! source_file layer_config = Some (Raise e) ∨
           ∃ gdf0,
             raw_files w !! source_file layer_config = Some (Ok gdf0) ∧
             fails_before_export lib cfg gdf0 e))) ∨
   (∃ gdf0 gdf,
      (backup_existing_file (output_name layer_config) w).1 = Ok () ∧
      raw_files w !! source_file layer_config = Some (Ok gdf0) ∧
      prepared lib cfg gdf0 gdf ∧
      ((∃ e left,
          r = Raise e ∧ to_file lib gdf = ExportFailed e left ∧
          processed_files w'
          = after_failed_export left (output_name layer_config)
              (processed_files w)) ∨
       (∃ document,
          r = Ok () ∧ to_file lib gdf = Exported document ∧
          processed_files w'
          = <[output_name layer_config := document]> (processed_files w))))).
Proof.
  unfold export_layer.
  intros [(a & wb & Hbackup & Hrest)|(e & Hbackup & ->)]%bind_run.
  2:{ rewrite Hbackup. split; [done|]. left. exists e. split; [done|].
      split; [|by left].
      by apply backup_existing_file_frame in Hbackup as [_ ?]. }
  rewrite Hbackup. cbn [fst snd]. destruct a.
  pose proof (backup_existing_file_frame _ _ _ _ Hbackup) as [(Hraw & _) Hproc].
  revert Hrest. unfold mbind at 1, M_bind at 1. unfold read_file. rewrite Hraw.
  destruct (raw_files w !! source_file layer_config) as [[gdf0|e]|] eqn:Hsrc.
  2,3: intros [= <- <-]; split; [done|]; left; eexists;
       (split; [done|]); (split; [done|]); right; (split; [done|]); auto.
  pose proof (validate_keeps_crs gdf0) as Hcrs.
  destruct (validate_and_fix_geometries (is_valid lib) (buffer lib) gdf0)
    as [gdfv lines] eqn:Hval. cbn [fst] in Hcrs.
  unfold mbind at 1, M_bind at 1. rewrite log_all_run.
  unfold mbind at 1, M_bind at 1.
  rewrite Hcrs.
  match goal with
  | |- _ → ?G =>
      assert (∀ gdf1 w1,
                 reprojected lib cfg gdf0 gdf1 →
                 backup_files w1 = backup_files wb →
                 processed_files w1 = processed_files w →
                 (simplified ← lift (simplify_geometries lib cfg gdf1);
                  let '(gdf, original_vertices, simplified_vertices) := simplified in
                  line ← lift (report_reduction original_vertices simplified_vertices);
                  _ ← logger line;
                  gdf ← lift (clean_attributes (attributes_to_keep cfg) gdf);
                  write_geojson lib (output_name layer_config) gdf) w1 = (r, w') →
                 G) as Hrest
  end.
  { intros gdf1 w1 Hre Hbak1 Hproc1 Hrun.
    apply after_reprojection_inv in Hrun as [Hbak' Hcases].
    split; [congruence|]. rewrite Hproc1 in Hcases.
    destruct Hcases as [(e & -> & Hsame & Hwhy)
                       |(gdf2 & o & s & gdf & Hsimp & Hclean & Hend)].
    - left. exists e. split; [done|]. split; [done|]. right. split; [done|].
      right. right. exists gdf0. split; [done|]. right. by exists gdf1.
    - right. exists gdf0, gdf. split; [done|]. split; [done|].
      split; [by exists gdf1, gdf2, o, s|done]. }
  destruct (decide (gdf_crs gdf0 ≠ Some (target_crs cfg))) as [Hne|Heq%dec_stable].
  - unfold lift at 1. destruct (to_crs lib (target_crs cfg) gdfv) as [gdf1|e] eqn:Hto.
    2:{ intros [= <- <-]. split; [done|]. left. exists e.
        split; [done|]. split; [done|]. right. split; [done|]. right. right.
        exists gdf0. split; [done|]. left. rewrite Hval. by split. }
    apply Hrest; [|done..]. right. rewrite Hval. by split.
  - unfold mret at 1, M_ret at 1.
    apply Hrest; [|done..]. left. rewrite Hval. by split.
Qed.

Lemma optimise_output_inv layer_name (layer_config : layer_config) w r w'
    (document : pyval float) :
  processed_files w !! output_name layer_config = Some document →
  optimise_output lib layer_name layer_config w = (r, w') →
  backup_files w' = backup_files w ∧
  ((∃ e, r = Raise e ∧ round_features (round_float lib) document = Raise e ∧
         processed_files w' = processed_files w ∧ log w' = log w) ∨
   (∃ document',
      r = Ok () ∧ round_features (round_float lib) document = Ok document' ∧
      processed_files w'
      = <[output_name layer_config := document']> (processed_files w) ∧
      log w' = log w ++ [LogLayerDone layer_name])).
Proof.
  intros Hdocument. unfold optimise_output, json_load.
  unfold mbind at 1, M_bind at 1. rewrite Hdocument.
  unfold mbind at 1, M_bind at 1. unfold lift.
  destruct (round_features (round_float lib) document) as [document'|e].
  - unfold mbind, M_bind, json_dump. cbn. intros [= <- <-].
    split; [done|]. right. by exists document'.
  - intros [= <- <-]. split; [done|]. left. by exists e.
Qed.

(** How the steps of a job end, when its source is there. *)
Lemma process_layer_steps_inv layer_name (layer_config : layer_config) w r w' :
  process_layer_steps lib cfg layer_name layer_config w = (r, w') →
  backup_files w' = backup_files (backup_existing_file (output_name layer_config) w).2 ∧
  ((∃ e, r = Raise e ∧ processed_files w' = processed_files w ∧
         ((backup_existing_file (output_name layer_config) w).1 = Raise e ∨
          (backup_existing_file (output_name layer_config) w).1 = Ok () ∧
          (raw_files w !! source_file layer_config = None ∨
           raw_files w !! source_file layer_config = Some (Raise e) ∨
           ∃ gdf0,
             raw_files w !! source_file layer_config = Some (Ok gdf0) ∧
             fails_before_export lib cfg gdf0 e))) ∨
   (∃ gdf0 gdf,
      (backup_existing_file (output_name layer_config) w).1 = Ok () ∧
      raw_files w !! source_file layer_config = Some (Ok gdf0) ∧
      prepared lib cfg gdf0 gdf ∧
      ((∃ e left,
          r = Raise e ∧ to_file lib gdf = ExportFailed e left ∧
          processed_files w'
          = after_failed_export left (output_name layer_config)
              (processed_files w)) ∨
       (∃ document,
          to_file lib gdf = Exported document ∧
          ((∃ e, r = Raise e ∧
                 round_features (round_float lib) document = Raise e ∧
                 processed_files w'
                 = <[output_name layer_config := document]> (processed_files w)) ∨
           (∃ document',
              r = Ok () ∧
              round_features (round_float lib) document = Ok document' ∧
              processed_files w'
              = <[output_name layer_config := document']> (processed_files w) ∧
              last (log w') = Some (LogLayerDone layer_name))))))).
Proof.
  unfold process_layer_steps.
  intros [(a & w1 & Hexport & Hopt)|(e & Hexport & ->)]%bind_run.
  - apply export_layer_inv in Hexport
      as [Hbak [(e & [=] & _)|(gdf0 & gdf & Hb & Hraw & Hprep & Hend)]].
    destruct Hend as [(e & left & [=] & _)|(document & _ & Hfile & Hproc)].
    eapply optimise_output_inv in Hopt as [Hbak' Hopt];
      [|by rewrite Hproc, lookup_insert_eq].
    split; [congruence|]. right. exists gdf0, gdf.
    split; [done|]. split; [done|]. split; [done|]. right. exists document.
    split; [done|].
    destruct Hopt as [(e & -> & Hround & Hproc' & _)
                     |(document' & -> & Hround & Hproc' & Hlog)].
    + left. exists e. split; [done|]. split; [done|]. by rewrite Hproc', Hproc.
    + right. exists document'. split; [done|]. split; [done|].
      split; [by rewrite Hproc', Hproc, insert_insert_eq|].
      by rewrite Hlog, last_snoc.
  - apply export_layer_inv in Hexport
      as [Hbak [(e' & [= <-] & Hproc & Hwhy)|(gdf0 & gdf & Hb & Hraw & Hprep & Hend)]].
    + split; [done|]. left. by exists e.
    + destruct Hend as [(e' & left & [= <-] & Hfile & Hproc)|(document & [=] & _)].
      split; [done|]. right. exists gdf0, gdf.
      split; [done|]. split; [done|]. split; [done|]. left. by exists e, left.
Qed.

End JobOutcome.

(** X16. What a job that found its source leaves behind. The archive is as
    the backup step left it, whatever happened next. When the job returns
    [True], the backup returned, the source was read, the frame went through
    the validation, the reprojection (made only when its CRS is not the
    target), the simplification and the cleaning, and the output file holds
    the document that the rounding pass made of the export of that frame; the
    last line logged is the success line. When it returns [False] the last
    line is the error line with the exception raised, and the output file is
    as it was before the job when the failure came before the export, as
    the driver left it when the export is what failed, and holds the export
    without the rounding when the rounding pass is what raised. *)
Theorem job_outcome {float : Type} (lib : collaborators float) (cfg : settings)
    (layer_name : string) (layer_config : layer_config)
    (w w' : world float) (ok : bool) :
  is_Some (raw_files w !! source_file layer_config) →
  process_layer lib cfg layer_name layer_config w = (ok, w') →
  backup_files w'
  = backup_files (backup_existing_file (output_name layer_config) w).2 ∧
  (ok = true →
   ∃ gdf0 gdf document document',
     (backup_existing_file (output_name layer_config) w).1 = Ok () ∧
     raw_files w !! source_file layer_config = Some (Ok gdf0) ∧
     prepared lib cfg gdf0 gdf ∧
     to_file lib gdf = Exported document ∧
     round_features (round_float lib) document = Ok document' ∧
     processed_files w'
     = <[output_name layer_config := document']> (processed_files w) ∧
     last (log w') = Some (LogLayerDone layer_name)) ∧
  (ok = false →
   ∃ e,
     last (log w') = Some (LogLayerError layer_name e) ∧
     (processed_files w' = processed_files w ∨
      (∃ gdf0 gdf left,
         raw_files w !! source_file layer_config = Some (Ok gdf0) ∧
         prepared lib cfg gdf0 gdf ∧
         to_file lib gdf = ExportFailed e left ∧
         processed_files w'
         = after_failed_export left (output_name layer_config)
             (processed_files w)) ∨
      (∃ gdf0 gdf document,
         raw_files w !! source_file layer_config = Some (Ok gdf0) ∧
         prepared lib cfg gdf0 gdf ∧
         to_file lib gdf = Exported document ∧
         round_features (round_float lib) document = Raise e ∧
         processed_files w'
         = <[output_name layer_config := document]> (processed_files w)))).
Proof.
  intros [src Hsrc] Hrun. unfold process_layer in Hrun. rewrite Hsrc in Hrun.
  destruct (process_layer_steps lib cfg layer_name layer_config w)
    as [[[]|e] ws] eqn:Hsteps; injection Hrun as <- <-;
    apply process_layer_steps_inv in Hsteps as [Hbak Hcases].
  - split; [done|]. split; [|done]. intros _.
    destruct Hcases as [(e & [=] & _)|(gdf0 & gdf & Hb & Hraw & Hprep & Hend)].
    destruct Hend as [(e & left & [=] & _)|(document & Hfile & Hround)].
    destruct Hround as [(e & [=] & _)|(document' & _ & Hround & Hproc & Hlog)].
    by exists gdf0, gdf, document, document'.
  - cbn [logger snd backup_files processed_files log].
    split; [done|]. split; [done|]. intros _. exists e.
    split; [by rewrite last_snoc|].
    destruct Hcases as [(e' & [= <-] & Hproc & _)
                       |(gdf0 & gdf & Hb & Hraw & Hprep & Hend)]; [by left|].
    destruct Hend as [(e' & left & [= <-] & Hfile & Hproc)
                     |(document & Hfile & Hround)].
    + right. left. by exists gdf0, gdf, left.
    + destruct Hround as [(e' & [= <-] & Hround & Hproc)|(document' & [=] & _)].
      right. right. by exists gdf0, gdf, document.
Qed.

Lemma first_run_lots_succeeds :
  process_layer sample_lib config "lots" lots_config first_run
  = (true, (process_layer sample_lib config "lots" lots_config first_run).2).
Proof. apply injective_projections; [vm_compute; reflexivity|reflexivity]. Qed.

Lemma first_run_has_lots : is_Some (raw_files first_run !! "LOTS.gpkg").
Proof. vm_compute. by eexists. Qed.

Lemma job_outcome_witness :
  ∃ document document',
    round_features fixed_round document = Ok document' ∧
    processed_files (process_layer sample_lib config "lots" lots_config first_run).2
    = <["lots.geojson" := document']> (processed_files first_run) ∧
    last (log (process_layer sample_lib config "lots" lots_config first_run).2)
    = Some (LogLayerDone "lots").
Proof.
  destruct (job_outcome sample_lib config "lots" lots_config first_run _ true
              first_run_has_lots first_run_lots_succeeds) as (_ & Hdone & _).
  destruct (Hdone eq_refl)
    as (gdf0 & gdf & document & document' & _ & _ & _ & _ & Hround & Hproc & Hlog).
  exists document, document'. split; [exact Hround|]. split; [exact Hproc|exact Hlog].
Defined.

(** X17. The backup comes first. A job whose backup returned and that fails
    at the loading of its source, at the reprojection, at the count of the
    vertices (a layer without any feature) or at the cleaning of the
    attributes (an allow-list that names the geometry column) returns
    [False], logs the exception of that step, and leaves the output file as
    it was before the job; the archive is as the backup step left it, so the
    previous output was archived, and the copies beyond three removed,
    although no new output was made. *)
Theorem failure_before_export_keeps_output {float : Type}
    (lib : collaborators float) (cfg : settings)
    (layer_name : string) (layer_config : layer_config) (w : world float) (e : exn) :
  (backup_existing_file (output_name layer_config) w).1 = Ok () →
  (raw_files w !! source_file layer_config = Some (Raise e) ∨
   ∃ gdf0,
     raw_files w !! source_file layer_config = Some (Ok gdf0) ∧
     fails_before_export lib cfg gdf0 e) →
  (process_layer lib cfg layer_name layer_config w).1 = false ∧
  processed_files (process_layer lib cfg layer_name layer_config w).2
  = processed_files w ∧
  backup_files (process_layer lib cfg layer_name layer_config w).2
  = backup_files (backup_existing_file (output_name layer_config) w).2 ∧
  last (log (process_layer lib cfg layer_name layer_config w).2)
  = Some (LogLayerError layer_name e).
Proof.
  intros Hbackup Hcause.
  assert (is_Some (raw_files w !! source_file layer_config)) as [src Hsrc].
  { destruct Hcause as [->|(gdf0 & -> & _)]; by eexists. }
  unfold process_layer. rewrite Hsrc.
  destruct (process_layer_steps lib cfg layer_name layer_config w)
    as [r ws] eqn:Hsteps.
  apply process_layer_steps_inv in Hsteps as [Hbak Hcases].
  destruct Hcases as [(e' & -> & Hproc & Hwhy)|(gdf0 & gdf & _ & Hraw & Hprep & _)].
  - cbn [fst snd logger log processed_files backup_files].
    rewrite last_snoc. split; [done|]. split; [done|]. split; [done|].
    f_equal. f_equal.
    destruct Hwhy as [?|[_ [?|[?|(gdf0 & Hraw & Hfail)]]]]; [congruence..| |].
    + destruct Hcause as [?|(gdf0 & ? & _)]; congruence.
    + destruct Hcause as [?|(gdf0' & ? & Hfail')]; [congruence|].
      assert (gdf0' = gdf0) as -> by congruence.
      by eapply fails_before_export_unique.
  - exfalso. destruct Hcause as [?|(gdf0' & ? & Hfail')]; [congruence|].
    assert (gdf0' = gdf0) as -> by congruence.
    by eapply prepared_not_failed.
Qed.

Lemma failed_load_backup_returns :
  (backup_existing_file "lots.geojson"
     (world_of_source (Raise (ExternalError "DriverError")))).1 = Ok ().
Proof. vm_compute. reflexivity. Qed.

Lemma failed_load_source :
  raw_files (world_of_source (Raise (ExternalError "DriverError"))) !! "LOTS.gpkg"
  = Some (Raise (ExternalError "DriverError")).
Proof. vm_compute. reflexivity. Qed.

Lemma failure_before_export_keeps_output_witness :
  (process_layer sample_lib config "lots" lots_config
     (world_of_source (Raise (ExternalError "DriverError")))).1 = false ∧
  last (log (process_layer sample_lib config "lots" lots_config
               (world_of_source (Raise (ExternalError "DriverError")))).2)
  = Some (LogLayerError "lots" (ExternalError "DriverError")).
Proof.
  destruct (failure_before_export_keeps_output sample_lib config "lots" lots_config
              (world_of_source (Raise (ExternalError "DriverError")))
              (ExternalError "DriverError") failed_load_backup_returns
              (or_introl failed_load_source))
    as (Hfalse & _ & _ & Hlog).
  split; [exact Hfalse|exact Hlog].
Defined.

(** ** The reprojection *)

Lemma bind_cong {float A B} (m m' : M float A) (k k' : A → M float B)
    (w : world float) :
  m w = m' w → (∀ a, k a = k' a) → (m ≫= k) w = (m' ≫= k') w.
Proof.
  unfold mbind, M_bind. intros -> Hk. destruct (m' w) as [[a|e] w1]; [|done].
  by rewrite Hk.
Qed.

Lemma bind_ext_run {float A B} (m : M float A) (k k' : A → M float B)
    (w : world float) :
  (∀ a w1, m w = (Ok a, w1) → k a w1 = k' a w1) → (m ≫= k) w = (m ≫= k') w.
Proof.
  unfold mbind, M_bind. intros Hk. destruct (m w) as [[a|e] w1]; [|done].
  by apply Hk.
Qed.

(** X18. A source that is in the target CRS already is not reprojected:
    the job, outcome and world, does not depend on what [to_crs] would do,
    and goes through with a [to_crs] that always raises. *)
Theorem reprojection_skipped_in_target_crs {float : Type}
    (lib lib' : collaborators float) (cfg : settings)
    (layer_name : string) (layer_config : layer_config) (w : world float)
    (gdf0 : GeoDataFrame float) :
  is_valid lib' = is_valid lib → buffer lib' = buffer lib →
  simplify lib' = simplify lib → to_file lib' = to_file lib →
  round_float lib' = round_float lib →
  raw_files w !! source_file layer_config = Some (Ok gdf0) →
  gdf_crs gdf0 = Some (target_crs cfg) →
  process_layer lib' cfg layer_name layer_config w
  = process_layer lib cfg layer_name layer_config w.
Proof.
  destruct lib as [v b t s f r], lib' as [v' b' t' s' f' r']. cbn.
  intros -> -> -> -> -> Hsrc Hcrs.
  unfold process_layer. rewrite Hsrc.
  assert (process_layer_steps
            {| is_valid := v; buffer := b; to_crs := t'; simplify := s;
               to_file := f; round_float := r |} cfg layer_name layer_config w
          = process_layer_steps
              {| is_valid := v; buffer := b; to_crs := t; simplify := s;
                 to_file := f; round_float := r |} cfg layer_name layer_config w)
    as ->; [|done].
  unfold process_layer_steps. apply bind_cong; [|done].
  unfold export_layer, simplify_geometries, write_geojson.
  cbn [is_valid buffer to_crs simplify to_file round_float].
  apply bind_ext_run. intros [] wb Hbackup.
  pose proof (backup_existing_file_frame _ _ _ _ Hbackup) as [(Hraw & _) _].
  apply bind_ext_run. intros gdf w1. unfold read_file. rewrite Hraw, Hsrc.
  intros [= <- <-].
  pose proof (validate_keeps_crs
                {| is_valid := v; buffer := b; to_crs := t; simplify := s;
                   to_file := f; round_float := r |} gdf0) as Hkeep.
  cbn [is_valid buffer] in Hkeep.
  destruct (validate_and_fix_geometries v b gdf0) as [gdfv lines].
  cbn [fst] in Hkeep.
  apply bind_ext_run. intros [] w2 _.
  rewrite Hkeep, Hcrs. by rewrite !decide_False by (intros Hne; by apply Hne).
Qed.

Lemma first_run_has_polygonale :
  raw_files first_run !! source_file polygonale_config = Some (Ok polygonale_frame).
Proof. vm_compute. reflexivity. Qed.

Lemma first_run_polygonale_succeeds :
  (process_layer sample_lib config "polygonale" polygonale_config first_run).1 = true.
Proof. vm_compute. reflexivity. Qed.

Lemma reprojection_skipped_in_target_crs_witness :
  (process_layer no_reprojection_lib config "polygonale" polygonale_config
     first_run).1 = true.
Proof.
  rewrite (reprojection_skipped_in_target_crs sample_lib no_reprojection_lib config
             "polygonale" polygonale_config first_run polygonale_frame
             eq_refl eq_refl eq_refl eq_refl eq_refl first_run_has_polygonale eq_refl).
  exact first_run_polygonale_succeeds.
Defined.

(** ** Running a job again *)

Section Rerun.
Context {float : Type} (lib : collaborators float) (cfg : settings).
Implicit Types (w : world float).

Lemma process_layer_true_inv layer_name (layer_config : layer_config) w w' :
  process_layer lib cfg layer_name layer_config w = (true, w') →
  ∃ gdf0 gdf document document',
    raw_files w !! source_file layer_config = Some (Ok gdf0) ∧
    prepared lib cfg gdf0 gdf ∧
    to_file lib gdf = Exported document ∧
    round_features (round_float lib) document = Ok document' ∧
    processed_files w'
    = <[output_name layer_config := document']> (processed_files w).
Proof.
  unfold process_layer.
  destruct (raw_files w !! source_file layer_config) as [src|] eqn:Hsrc; [|done].
  destruct (process_layer_steps lib cfg layer_name layer_config w)
    as [[[]|e] ws] eqn:Hsteps; intros [= <-].
  apply process_layer_steps_inv in Hsteps
    as [_ [(e & [=] & _)|(gdf0 & gdf & _ & Hraw & Hprep & Hend)]].
  destruct Hend as [(e & left & [=] & _)|(document & Hfile & Hround)].
  destruct Hround as [(e & [=] & _)|(document' & _ & Hround & Hproc & _)].
  exists gdf0, gdf, document, document'. split; [congruence|done].
Qed.

Lemma process_layer_succeeds layer_name (layer_config : layer_config) w
    gdf0 gdf document document' :
  (backup_existing_file (output_name layer_config) w).1 = Ok () →
  raw_files w !! source_file layer_config = Some (Ok gdf0) →
  prepared lib cfg gdf0 gdf →
  to_file lib gdf = Exported document →
  round_features (round_float lib) document = Ok document' →
  (process_layer lib cfg layer_name layer_config w).1 = true ∧
  processed_files (process_layer lib cfg layer_name layer_config w).2
  = <[output_name layer_config := document']> (processed_files w).
Proof.
  intros Hbackup Hsrc Hprep Hfile Hround.
  unfold process_layer. rewrite Hsrc.
  destruct (process_layer_steps lib cfg layer_name layer_config w)
    as [r ws] eqn:Hsteps.
  apply process_layer_steps_inv in Hsteps as [_ Hcases].
  destruct Hcases as [(e & -> & _ & Hwhy)|(gdf0' & gdf' & _ & Hraw & Hprep' & Hend)].
  - exfalso.
    destruct Hwhy as [?|[_ [?|[?|(gdf0' & Hraw & Hfail)]]]]; [congruence..|].
    assert (gdf0' = gdf0) as -> by congruence.
    by eapply prepared_not_failed.
  - assert (gdf0' = gdf0) as -> by congruence.
    assert (gdf' = gdf) as -> by (by eapply prepared_unique).
    destruct Hend as [(e & left & _ & ? & _)|(document0 & Hfile' & Hend)];
      [congruence|].
    assert (document0 = document) as -> by congruence.
    destruct Hend as [(e & _ & ? & _)|(document0 & -> & Hround' & Hproc & _)];
      [congruence|].
    assert (document0 = document') as -> by congruence.
    done.
Qed.

End Rerun.

(** X19. A job that succeeded can be run again on the same source: when
    the backup of the second run returns, the second run succeeds as well
    and writes the same document, so the output file is as the first run
    left it. *)
Theorem rerun_reproduces_output {float : Type}
    (lib : collaborators float) (cfg : settings)
    (layer_name : string) (layer_config : layer_config) (w w' : world float) :
  process_layer lib cfg layer_name layer_config w = (true, w') →
  (backup_existing_file (output_name layer_config) w').1 = Ok () →
  (process_layer lib cfg layer_name layer_config w').1 = true ∧
  processed_files (process_layer lib cfg layer_name layer_config w').2
  = processed_files w'.
Proof.
  intros Hrun Hbackup.
  pose proof (process_layer_frame lib cfg layer_name layer_config w) as (Hraw & _).
  rewrite Hrun in Hraw. cbn [snd] in Hraw.
  apply process_layer_true_inv in Hrun
    as (gdf0 & gdf & document & document' & Hsrc & Hprep & Hfile & Hround & Hproc).
  rewrite <- Hraw in Hsrc.
  destruct (process_layer_succeeds lib cfg layer_name layer_config w'
              gdf0 gdf document document' Hbackup Hsrc Hprep Hfile Hround)
    as [Htrue Hproc'].
  split; [done|]. by rewrite Hproc', Hproc, insert_insert_eq.
Qed.

Lemma first_run_lots_rerun_backup :
  (backup_existing_file (output_name lots_config)
     (process_layer sample_lib config "lots" lots_config first_run).2).1 = Ok ().
Proof. vm_compute. reflexivity. Qed.

Lemma rerun_reproduces_output_witness :
  (process_layer sample_lib config "lots" lots_config
     (process_layer sample_lib config "lots" lots_config first_run).2).1 = true ∧
  processed_files
    (process_layer sample_lib config "lots" lots_config
       (process_layer sample_lib config "lots" lots_config first_run).2).2
  = processed_files (process_layer sample_lib config "lots" lots_config first_run).2.
Proof.
  exact (rerun_reproduces_output sample_lib config "lots" lots_config first_run _
           first_run_lots_succeeds first_run_lots_rerun_backup).
Defined.

(** ** Jobs with outputs of their own *)


